(** * The gambling transaction engine of the killfeed bot

    A shallow embedding of
    - [bot/models/database.py] : [DatabaseManager.get_wallet],
      [DatabaseManager.update_wallet] (the ledger store),
      [DatabaseManager.link_player], [DatabaseManager.get_linked_player]
      (the [players] collection);
    - [bot/cogs/gambling_broken.py] : the [Gambling] cog ([add_wallet_event],
      [slots], [blackjack], [roulette]) and the [BlackjackView] buttons;
    - [bot/cogs/stats.py] : [Stats._calculate_weapon_stats] and
      [Stats._calculate_rivals_nemesis] over the [kill_events] collection.

    Python integers are [Z].  The MongoDB collections [economy] and
    [wallet_events] are a finite map (the collection carries a unique index
    on (guild_id, discord_id)) and an append-only list.  Exceptions and the
    mutation of the store are threaded through a state-and-error monad.
    Random draws ([random.choices], [random.choice], [random.shuffle]) are
    inputs of the commands, and so is the interpreter's [str.lower], a
    parameter of the code that calls it.  The timestamps of the journal
    and the rendering of embeds are left out: no modelled decision reads
    them.  The linking date of a player is kept: it is an instant in
    microseconds, which the store holds in whole milliseconds. *)

From Stdlib Require Import ZArith List Lia Bool Ascii String.
From stdpp Require Import gmap strings list pretty.

Local Open Scope Z_scope.

(** ** Documents *)

(** A document of the [economy] collection.  A field is [None] while the
    document does not carry it: an upsert through [$inc] creates only the
    incremented fields. *)
Record Wallet : Type := mkWallet {
  balance : option Z;
  total_earned : option Z;
  total_spent : option Z
}.

(** Slot symbols, in the order of the [symbols] list of [Gambling.slots]:
    cherry, lemon, orange, grape, diamond, star, seven. *)
Inductive Symbol : Type :=
  Cherry | Lemon | Orange | Grape | Diamond | Star | Seven.

#[global] Instance Symbol_eq_dec : EqDecision Symbol.
Proof. solve_decision. Defined.

(** Cards are the strings [rank ++ suit]; every suit is two code points
    long, so [card[:-2]] is the rank.  A card is kept as its two parts. *)
Inductive Rank : Type :=
  RA | R2 | R3 | R4 | R5 | R6 | R7 | R8 | R9 | R10 | RJ | RQ | RK.

Inductive Suit : Type := Spades | Hearts | Diamonds | Clubs.

Record Card : Type := mkCard { rank : Rank; suit : Suit }.

#[global] Instance Rank_eq_dec : EqDecision Rank.
Proof. solve_decision. Defined.
#[global] Instance Suit_eq_dec : EqDecision Suit.
Proof. solve_decision. Defined.
#[global] Instance Card_eq_dec : EqDecision Card.
Proof. solve_decision. Defined.

(** The free-text description of a journal entry, kept structured. *)
Inductive Description : Type :=
| SlotsDescription (reels : Symbol * Symbol * Symbol) (bet : Z)
| BlackjackDescription (player_value dealer_value bet : Z)
| RouletteDescription (result choice : string) (bet : Z).

(** A document of the [wallet_events] collection. *)
Record WalletEvent : Type := mkEvent {
  ev_guild_id : Z;
  ev_discord_id : Z;
  ev_amount : Z;
  ev_event_type : string;
  ev_description : Description
}.

(** ** Exceptions, log lines and replies *)

Inductive exn : Type := StoreError | IndexError | KeyError | ValueError.

#[global] Instance exn_eq_dec : EqDecision exn.
Proof. solve_decision. Defined.

Inductive Game : Type := GSlots | GBlackjack | GRoulette.

Inductive LogLine : Type :=
| FailedToAddWalletEvent (e : exn)
| FailedToUpdateWallet (e : exn)
| FailedToProcess (g : Game) (e : exn).

(** The [result_text] of a finished blackjack game. *)
Inductive BlackjackStatus : Type :=
| PushBothBlackjack | NaturalBlackjack | Bust | DealerBust | YouWin
| DealerWins | PushTie.

(** The colour shown next to a roulette result. *)
Inductive Color : Type := Green | Red | Black.

(** What the user is shown: one constructor per message or embed. *)
Inductive Response : Type :=
| PremiumRequired
| BetMustBePositive
| MaximumBetIs (ceiling : Z)
| InvalidChoice
| InsufficientFunds (have need : Z)
| SlotsSpinning (bet : Z)
| SlotsResult (win : bool) (payout bet new_balance : Z)
| BlackjackDealing (bet : Z)
| BlackjackYourTurn (player_value dealer_value_hidden bet : Z)
| BlackjackResult (status : BlackjackStatus)
    (player_value dealer_value bet net_result new_balance : Z)
| RouletteSpinning (frame : nat) (bet : Z)
| RouletteResult (result_color : Color) (result : string)
    (winnings net_result new_balance : Z)
| FailedToProcessBet
| GameFailed (g : Game).

(** ** The world: store, lock registry, and an ordered trace of effects *)

Inductive Effect : Type :=
| LockAcquire (user_key : Z * Z)
| LockRelease (user_key : Z * Z)
| LedgerDelta (guild_id discord_id amount : Z)
| WalletCreated (guild_id discord_id : Z)
| JournalEntry (e : WalletEvent)
| Draw
| Respond (r : Response)
| ViewCreated
| LogError (l : LogLine).

Record World : Type := mkWorld {
  economy : gmap (Z * Z) Wallet;
  wallet_events : list WalletEvent;
  user_locks : gset (Z * Z);
  premium : gset Z;
  faults : list bool;
  trace : list Effect
}.

Definition set_economy (f : gmap (Z * Z) Wallet -> gmap (Z * Z) Wallet)
  (w : World) : World :=
  mkWorld (f (economy w)) (wallet_events w) (user_locks w) (premium w)
          (faults w) (trace w).

Definition set_wallet_events (f : list WalletEvent -> list WalletEvent)
  (w : World) : World :=
  mkWorld (economy w) (f (wallet_events w)) (user_locks w) (premium w)
          (faults w) (trace w).

Definition set_user_locks (f : gset (Z * Z) -> gset (Z * Z))
  (w : World) : World :=
  mkWorld (economy w) (wallet_events w) (f (user_locks w)) (premium w)
          (faults w) (trace w).

Definition set_faults (fs : list bool) (w : World) : World :=
  mkWorld (economy w) (wallet_events w) (user_locks w) (premium w)
          fs (trace w).

Definition emit (e : Effect) (w : World) : World :=
  mkWorld (economy w) (wallet_events w) (user_locks w) (premium w)
          (faults w) (trace w ++ [e]).

(** ** The state-and-error monad *)

Inductive res (A : Type) : Type :=
| Ret (a : A)
| Raise (e : exn).
Arguments Ret {A} a.
Arguments Raise {A} e.

#[global] Instance res_eq_dec {A} `{EqDecision A} : EqDecision (res A).
Proof. solve_decision. Defined.

Definition M (S A : Type) : Type := S -> res A * S.

Definition ret {S A} (a : A) : M S A := fun s => (Ret a, s).

Definition raise {S A} (e : exn) : M S A := fun s => (Raise e, s).

Definition bind {S A B} (m : M S A) (k : A -> M S B) : M S B :=
  fun s => match m s with
           | (Ret a, s') => k a s'
           | (Raise e, s') => (Raise e, s')
           end.

(** [try: m except Exception as e: h e] *)
Definition try_except {S A} (m : M S A) (h : exn -> M S A) : M S A :=
  fun s => match m s with
           | (Ret a, s') => (Ret a, s')
           | (Raise e, s') => h e s'
           end.

(** A block whose exit action runs on every exit path. *)
Definition finally {S A} (m : M S A) (exit : S -> S) : M S A :=
  fun s => let '(r, s') := m s in (r, exit s').

Definition modify {S} (f : S -> S) : M S unit := fun s => (Ret tt, f s).

Definition gets {S A} (f : S -> A) : M S A := fun s => (Ret (f s), s).

Declare Scope monad_scope.
Delimit Scope monad_scope with monad.
Notation "x <- m ;; k" := (bind m (fun x => k))
  (at level 100, m at next level, right associativity) : monad_scope.
Notation "m ;;; k" := (bind m (fun _ => k))
  (at level 100, right associativity) : monad_scope.
Local Open Scope monad_scope.

(** World operations seen from a state that carries a view next to it. *)
Definition lift {V A} (m : M World A) : M (V * World) A :=
  fun s => let '(r, w') := m (snd s) in (r, (fst s, w')).

(** ** The store driver

    Every call into the driver consumes the head of [faults]: [true] makes
    the call raise, [false] (or an exhausted schedule) lets it through. *)
Definition store_call : M World unit :=
  fun w => match faults w with
           | true :: fs => (Raise StoreError, set_faults fs w)
           | false :: fs => (Ret tt, set_faults fs w)
           | [] => (Ret tt, w)
           end.

Definition find_one (guild_id discord_id : Z) : M World (option Wallet) :=
  store_call ;;; gets (fun w => economy w !! (guild_id, discord_id)).

Definition insert_one_wallet (guild_id discord_id : Z) (doc : Wallet)
  : M World unit :=
  store_call ;;;
  modify (fun w => emit (WalletCreated guild_id discord_id)
                     (set_economy (insert (guild_id, discord_id) doc) w)).

(** [$inc]: an absent field counts as 0; a field without increment is
    left as it is. *)
Definition inc_field (field : option Z) (by_ : option Z) : option Z :=
  match by_ with
  | Some a => Some (default 0 field + a)
  | None => field
  end.

(** The [inc_updates] dictionary: balance, total_earned, total_spent. *)
Record IncUpdates : Type := mkInc {
  inc_balance : Z;
  inc_total_earned : option Z;
  inc_total_spent : option Z
}.

Definition apply_inc (i : IncUpdates) (doc : Wallet) : Wallet :=
  mkWallet (inc_field (balance doc) (Some (inc_balance i)))
           (inc_field (total_earned doc) (inc_total_earned i))
           (inc_field (total_spent doc) (inc_total_spent i)).

(** The document an upsert starts from: the query fields only. *)
Definition upserted : Wallet := mkWallet None None None.

(** [economy.update_one(query, {"$inc": ..., "$set": ...}, upsert=True)];
    the write is acknowledged (default write concern). *)
Definition update_one (guild_id discord_id : Z) (i : IncUpdates)
  : M World bool :=
  store_call ;;;
  modify (fun w =>
    emit (LedgerDelta guild_id discord_id (inc_balance i))
      (set_economy
         (fun m => <[(guild_id, discord_id) :=
                      apply_inc i (default upserted
                                     (m !! (guild_id, discord_id)))]> m)
         w)) ;;;
  ret true.

Definition insert_one_event (e : WalletEvent) : M World unit :=
  store_call ;;;
  modify (fun w => emit (JournalEntry e)
                     (set_wallet_events (fun l => l ++ [e]) w)).

Definition log_error (l : LogLine) : M World unit :=
  modify (emit (LogError l)).

Definition respond (r : Response) : M World unit :=
  modify (emit (Respond r)).

(** ** [DatabaseManager] *)

Definition get_wallet (guild_id discord_id : Z) : M World Wallet :=
  wallet <- find_one guild_id discord_id ;;
  match wallet with
  | Some doc => ret doc
  | None =>
      let doc := mkWallet (Some 0) (Some 0) (Some 0) in
      insert_one_wallet guild_id discord_id doc ;;;
      ret doc
  end.

Definition update_wallet (guild_id discord_id amount : Z)
  (transaction_type : string) : M World bool :=
  try_except
    (let inc_updates :=
       if amount >? 0
       then mkInc amount (Some amount) None
       else mkInc amount None (Some (Z.abs amount)) in
     update_one guild_id discord_id inc_updates)
    (fun e => log_error (FailedToUpdateWallet e) ;;; ret false).

(** [wallet['balance']] *)
Definition get_balance {S} (wallet : Wallet) : M S Z :=
  match balance wallet with
  | Some b => ret b
  | None => raise KeyError
  end.

(** ** [Gambling]: locks, entitlement, journal *)

(** [user_key] is the string [guild_id ++ "_" ++ discord_id], which
    determines the pair; the registry is keyed by the pair. *)
Definition get_user_lock (user_key : Z * Z) : M World unit :=
  modify (set_user_locks (fun locks => {[user_key]} ∪ locks)).

(** [async with self.get_user_lock(user_key): body].  Commands are run one
    at a time, so the lock is free when it is asked for. *)
Definition with_user_lock {A} (user_key : Z * Z) (body : M World A)
  : M World A :=
  get_user_lock user_key ;;;
  modify (emit (LockAcquire user_key)) ;;;
  finally body (emit (LockRelease user_key)).

(** The entitlement lookup is an external collaborator: its answer is the
    [premium] set of the world. *)
Definition check_premium_server (guild_id : Z) : M World bool :=
  gets (fun w => bool_decide (guild_id ∈ premium w)).

Definition add_wallet_event (guild_id discord_id amount : Z)
  (event_type : string) (description : Description) : M World unit :=
  try_except
    (let event_doc :=
       mkEvent guild_id discord_id amount event_type description in
     insert_one_event event_doc)
    (fun e => log_error (FailedToAddWalletEvent e)).

(** ** Slots *)

(** The winnings computation of [Gambling.slots]: [(winnings, win)]. *)
Definition slots_outcome (bet : Z) (reels : Symbol * Symbol * Symbol)
  : Z * bool :=
  let '(r0, r1, r2) := reels in
  if bool_decide (r0 = r1) && bool_decide (r1 = r2) then
    if bool_decide (r0 = Seven) then (bet * 100, true)
    else if bool_decide (r0 = Diamond) then (bet * 50, true)
    else if bool_decide (r0 = Star) then (bet * 25, true)
    else (bet * 10, true)
  else if bool_decide (r0 = r1) || bool_decide (r1 = r2)
          || bool_decide (r0 = r2) then (bet * 2, true)
  else (0, false).

(** [reels] is the outcome of the three [random.choices] draws. *)
Definition slots (guild_id discord_id bet : Z)
  (reels : Symbol * Symbol * Symbol) : M World unit :=
  try_except
    (let user_key := (guild_id, discord_id) in
     is_premium <- check_premium_server guild_id ;;
     if negb is_premium then respond PremiumRequired
     else if bet <=? 0 then respond BetMustBePositive
     else if bet >? 10000 then respond (MaximumBetIs 10000)
     else
       with_user_lock user_key
         (wallet <- get_wallet guild_id discord_id ;;
          have <- get_balance wallet ;;
          if have <? bet then respond (InsufficientFunds have bet)
          else
            update_wallet guild_id discord_id (- bet) "gambling_slots" ;;;
            respond (SlotsSpinning bet) ;;;
            modify (emit Draw) ;;;
            let '(winnings, win) := slots_outcome bet reels in
            (if winnings >? 0
             then update_wallet guild_id discord_id winnings
                    "gambling_slots" ;;; ret tt
             else ret tt) ;;;
            let net_result := winnings - bet in
            add_wallet_event guild_id discord_id net_result
              "gambling_slots" (SlotsDescription reels bet) ;;;
            updated_wallet <- get_wallet guild_id discord_id ;;
            new_balance <- get_balance updated_wallet ;;
            respond (SlotsResult win (if win then winnings else 0) bet
                       new_balance)))
    (fun e => log_error (FailedToProcess GSlots e) ;;;
              respond (GameFailed GSlots)).

(** ** Cards *)

Definition suits : list Suit := [Spades; Hearts; Diamonds; Clubs].

Definition ranks : list Rank :=
  [RA; R2; R3; R4; R5; R6; R7; R8; R9; R10; RJ; RQ; RK].

(** [[f"{rank}{suit}" for suit in suits for rank in ranks]] *)
Definition deck : list Card :=
  flat_map (fun suit => map (fun rank => mkCard rank suit) ranks) suits.

(** [int(rank)] on the number ranks. *)
Definition int_rank (r : Rank) : Z :=
  match r with
  | R2 => 2 | R3 => 3 | R4 => 4 | R5 => 5 | R6 => 6 | R7 => 7 | R8 => 8
  | R9 => 9 | R10 => 10
  | RA | RJ | RQ | RK => 0
  end.

(** One turn of the [for card in cards] loop over [(value, aces)]. *)
Definition add_card (acc : Z * nat) (card : Card) : Z * nat :=
  let '(value, aces) := acc in
  match rank card with
  | RJ | RQ | RK => (value + 10, aces)
  | RA => (value + 11, S aces)
  | r => (value + int_rank r, aces)
  end.

(** [while value > 21 and aces > 0: value -= 10; aces -= 1] *)
Fixpoint reduce_aces (value : Z) (aces : nat) : Z :=
  match aces with
  | O => value
  | S aces' => if value >? 21 then reduce_aces (value - 10) aces' else value
  end.

(** The local [card_value] of [Gambling.blackjack]. *)
Definition card_value (cards : list Card) : Z :=
  let '(value, aces) := fold_left add_card cards (0, 0%nat) in
  reduce_aces value aces.

(** [l.pop()]: the last element and the list without it. *)
Definition pop {A} (l : list A) : option (A * list A) :=
  match last l with
  | Some x => Some (x, removelast l)
  | None => None
  end.

(** ** [BlackjackView]: the interactive session *)

Module BlackjackView.

Record View : Type := mkView {
  deck : list Card;
  player_cards : list Card;
  dealer_cards : list Card;
  bet : Z;
  guild_id : Z;
  discord_id : Z;
  game_over : bool
}.

(** [BlackjackView(deck, player_cards, dealer_cards, bet, ...)] *)
Definition init (deck player_cards dealer_cards : list Card)
  (bet guild_id discord_id : Z) : View :=
  mkView deck player_cards dealer_cards bet guild_id discord_id false.

Definition set_deck (d : list Card) (v : View) : View :=
  mkView d (player_cards v) (dealer_cards v) (bet v) (guild_id v)
         (discord_id v) (game_over v).

Definition set_player_cards (c : list Card) (v : View) : View :=
  mkView (deck v) c (dealer_cards v) (bet v) (guild_id v)
         (discord_id v) (game_over v).

Definition set_dealer_cards (c : list Card) (v : View) : View :=
  mkView (deck v) (player_cards v) c (bet v) (guild_id v)
         (discord_id v) (game_over v).

Definition set_game_over (b : bool) (v : View) : View :=
  mkView (deck v) (player_cards v) (dealer_cards v) (bet v) (guild_id v)
         (discord_id v) b.

Definition on_view (f : View -> View) (s : View * World) : View * World :=
  (f (fst s), snd s).

(** The method [BlackjackView.card_value], a copy of the local function
    of [Gambling.blackjack]. *)
Definition card_value (cards : list Card) : Z :=
  let '(value, aces) := fold_left add_card cards (0, 0%nat) in
  reduce_aces value aces.

(** [self.deck.pop()] *)
Definition deck_pop : M (View * World) Card :=
  self <- gets fst ;;
  match pop (deck self) with
  | Some (card, rest) => modify (on_view (set_deck rest)) ;;; ret card
  | None => raise IndexError
  end.

(** [card_value([self.dealer_cards[0]])] *)
Definition dealer_value_hidden (self : View) : M (View * World) Z :=
  match dealer_cards self with
  | first :: _ => ret (card_value [first])
  | [] => raise IndexError
  end.

Definition end_game (result_text : BlackjackStatus) (net_result : Z)
  : M (View * World) unit :=
  modify (on_view (set_game_over true)) ;;;
  self <- gets fst ;;
  success <- lift (update_wallet (guild_id self) (discord_id self)
                     net_result "gambling_blackjack") ;;
  if success : bool then
    lift (add_wallet_event (guild_id self) (discord_id self) net_result
            "gambling_blackjack"
            (BlackjackDescription (card_value (player_cards self))
               (card_value (dealer_cards self)) (bet self))) ;;;
    updated_wallet <- lift (get_wallet (guild_id self) (discord_id self)) ;;
    new_balance <- get_balance updated_wallet ;;
    lift (respond (BlackjackResult result_text
                     (card_value (player_cards self))
                     (card_value (dealer_cards self))
                     (bet self) net_result new_balance))
  else lift (respond FailedToProcessBet).

Definition hit_button : M (View * World) unit :=
  self <- gets fst ;;
  if game_over self then ret tt
  else
    card <- deck_pop ;;
    modify (on_view (fun v => set_player_cards (player_cards v ++ [card]) v)) ;;;
    self <- gets fst ;;
    let player_value := card_value (player_cards self) in
    if player_value >? 21 then end_game Bust (- bet self)
    else
      hidden <- dealer_value_hidden self ;;
      lift (respond (BlackjackYourTurn player_value hidden (bet self))).

(** The dealer's loop [while dealer_value < 17: append(deck.pop())],
    over the deck read from its top (the end of the Python list). *)
Fixpoint dealer_loop (top_first dealer : list Card) {struct top_first}
  : res unit * (list Card * list Card) :=
  if card_value dealer <? 17 then
    match top_first with
    | [] => (Raise IndexError, ([], dealer))
    | card :: rest => dealer_loop rest (dealer ++ [card])
    end
  else (Ret tt, (top_first, dealer)).

Definition dealer_plays : M (View * World) unit :=
  fun s =>
    let self := fst s in
    let '(r, (top_first, dealer)) :=
      dealer_loop (reverse (deck self)) (dealer_cards self) in
    (r, on_view (fun v => set_dealer_cards dealer
                            (set_deck (reverse top_first) v)) s).

Definition stand_button : M (View * World) unit :=
  self <- gets fst ;;
  if game_over self then ret tt
  else
    dealer_plays ;;;
    self <- gets fst ;;
    let dealer_value := card_value (dealer_cards self) in
    let player_value := card_value (player_cards self) in
    if dealer_value >? 21 then end_game DealerBust (bet self)
    else if player_value >? dealer_value then end_game YouWin (bet self)
    else if dealer_value >? player_value
         then end_game DealerWins (- bet self)
    else end_game PushTie 0.

End BlackjackView.

(** ** Blackjack *)

(** [int(bet * 2.5)]: the float product is exact for the stakes that pass
    validation, and [int] truncates towards zero. *)
Definition blackjack_winnings (bet : Z) : Z := Z.quot (bet * 5) 2.

Definition pop_card {S} (deck : list Card) : M S (Card * list Card) :=
  match pop deck with
  | Some x => ret x
  | None => raise IndexError
  end.

(** [shuffled] is the deck as [random.shuffle] leaves it.  The result is
    the view handed to the message, when the game awaits the player. *)
Definition blackjack (guild_id discord_id bet : Z) (shuffled : list Card)
  : M World (option BlackjackView.View) :=
  try_except
    (let user_key := (guild_id, discord_id) in
     is_premium <- check_premium_server guild_id ;;
     if negb is_premium then respond PremiumRequired ;;; ret None
     else if bet <=? 0 then respond BetMustBePositive ;;; ret None
     else if bet >? 5000 then respond (MaximumBetIs 5000) ;;; ret None
     else
       with_user_lock user_key
         (wallet <- get_wallet guild_id discord_id ;;
          have <- get_balance wallet ;;
          if have <? bet
          then respond (InsufficientFunds have bet) ;;; ret None
          else
            modify (emit Draw) ;;;
            respond (BlackjackDealing bet) ;;;
            popped <- pop_card shuffled ;; let '(p1, deck1) := popped in
            popped <- pop_card deck1 ;; let '(p2, deck2) := popped in
            popped <- pop_card deck2 ;; let '(d1, deck3) := popped in
            popped <- pop_card deck3 ;; let '(d2, deck4) := popped in
            let player_cards := [p1; p2] in
            let dealer_cards := [d1; d2] in
            let player_value := card_value player_cards in
            let dealer_value_hidden := card_value [d1] in
            let dealer_value := card_value dealer_cards in
            if player_value =? 21 then
              let '(result_text, net_result) :=
                if dealer_value =? 21 then (PushBothBlackjack, 0)
                else (NaturalBlackjack, blackjack_winnings bet - bet) in
              success <- update_wallet guild_id discord_id net_result
                           "gambling_blackjack" ;;
              if success : bool then
                add_wallet_event guild_id discord_id net_result
                  "gambling_blackjack"
                  (BlackjackDescription player_value dealer_value bet) ;;;
                updated_wallet <- get_wallet guild_id discord_id ;;
                new_balance <- get_balance updated_wallet ;;
                respond (BlackjackResult result_text player_value
                           dealer_value bet net_result new_balance) ;;;
                ret None
              else ret None
            else
              let view := BlackjackView.init deck4 player_cards dealer_cards
                            bet guild_id discord_id in
              respond (BlackjackYourTurn player_value dealer_value_hidden
                         bet) ;;;
              modify (emit ViewCreated) ;;;
              ret (Some view)))
    (fun e => log_error (FailedToProcess GBlackjack e) ;;;
              respond (GameFailed GBlackjack) ;;; ret None).

(** ** Roulette *)

(** [str.lower] is the interpreter's Unicode lowercasing; the repository
    does not define it.  The code that calls it takes it as the
    parameter [lower], so what is proved of that code holds for whatever
    the interpreter computes.

    On a string of ASCII characters the interpreter maps the letters A-Z
    to a-z and leaves the rest: [ascii_lower].  It is used where a
    concrete input is run. *)
Definition lower_ascii (c : ascii) : ascii :=
  let n := nat_of_ascii c in
  if (Nat.leb 65 n && Nat.leb n 90)%bool then ascii_of_nat (n + 32) else c.

Fixpoint ascii_lower (s : string) : string :=
  match s with
  | EmptyString => EmptyString
  | String c rest => String (lower_ascii c) (ascii_lower rest)
  end.

(** [str(i)] *)
Definition str (i : Z) : string := pretty i.

Definition digit_of (c : ascii) : option Z :=
  let n := Z.of_nat (nat_of_ascii c) in
  if (48 <=? n) && (n <=? 57) then Some (n - 48) else None.

Fixpoint int_digits (acc : Z) (s : string) : option Z :=
  match s with
  | EmptyString => Some acc
  | String c rest =>
      match digit_of c with
      | Some d => int_digits (10 * acc + d) rest
      | None => None
      end
  end.

(** [int(s)] on strings of decimal digits; anything else is a
    [ValueError]. *)
Definition py_int (s : string) : res Z :=
  match s with
  | EmptyString => Raise ValueError
  | _ => match int_digits 0 s with
         | Some n => Ret n
         | None => Raise ValueError
         end
  end.

Definition of_result {S A} (r : res A) : M S A := fun s => (r, s).

(** [range(1, 37)] *)
Definition range_1_37 : list Z := seqZ 1 36.

Definition valid_choices : list string :=
  ["red"; "black"; "odd"; "even"; "low"; "high"; "0"; "00"]
    ++ map str range_1_37.

Definition red_numbers : list Z :=
  [1; 3; 5; 7; 9; 12; 14; 16; 18; 19; 21; 23; 25; 27; 30; 32; 34; 36].

Definition black_numbers : list Z :=
  [2; 4; 6; 8; 10; 11; 13; 15; 17; 20; 22; 24; 26; 28; 29; 31; 33; 35].

Definition spin_options : list string := ["0"; "00"] ++ map str range_1_37.

(** The winnings computation of [Gambling.roulette]. *)
Definition roulette_winnings (bet : Z) (choice_lower result : string)
  : res Z :=
  if String.eqb choice_lower result then Ret (bet * 35)
  else if negb (bool_decide (result ∈ ["0"; "00"])) then
    match py_int result with
    | Raise e => Raise e
    | Ret result_num =>
        if String.eqb choice_lower "red"
           && bool_decide (result_num ∈ red_numbers) then Ret (bet * 2)
        else if String.eqb choice_lower "black"
                && bool_decide (result_num ∈ black_numbers) then Ret (bet * 2)
        else if String.eqb choice_lower "odd"
                && (result_num mod 2 =? 1) then Ret (bet * 2)
        else if String.eqb choice_lower "even"
                && (result_num mod 2 =? 0) then Ret (bet * 2)
        else if String.eqb choice_lower "low"
                && ((1 <=? result_num) && (result_num <=? 18))
             then Ret (bet * 2)
        else if String.eqb choice_lower "high"
                && ((19 <=? result_num) && (result_num <=? 36))
             then Ret (bet * 2)
        else Ret 0
    end
  else Ret 0.

Definition result_color (result : string) : res Color :=
  if String.eqb result "0" || String.eqb result "00" then Ret Green
  else match py_int result with
       | Raise e => Raise e
       | Ret n => if bool_decide (n ∈ red_numbers) then Ret Red else Ret Black
       end.

(** The three animation frames. *)
Definition spinning_frames : list nat := [0; 1; 2]%nat.

Fixpoint for_each {S A} (l : list A) (body : A -> M S unit) : M S unit :=
  match l with
  | [] => ret tt
  | x :: rest => body x ;;; for_each rest body
  end.

(** [lower] is [str.lower]; [result] is the outcome of
    [random.choice(spin_options)]. *)
Definition roulette (lower : string -> string) (guild_id discord_id bet : Z)
  (choice result : string) : M World unit :=
  try_except
    (let user_key := (guild_id, discord_id) in
     is_premium <- check_premium_server guild_id ;;
     if negb is_premium then respond PremiumRequired
     else if bet <=? 0 then respond BetMustBePositive
     else if bet >? 2000 then respond (MaximumBetIs 2000)
     else if negb (bool_decide (lower choice ∈ valid_choices))
          then respond InvalidChoice
     else
       with_user_lock user_key
         (wallet <- get_wallet guild_id discord_id ;;
          have <- get_balance wallet ;;
          if have <? bet then respond (InsufficientFunds have bet)
          else
            for_each spinning_frames
              (fun frame => respond (RouletteSpinning frame bet)) ;;;
            modify (emit Draw) ;;;
            let choice_lower := lower choice in
            winnings <- of_result (roulette_winnings bet choice_lower result) ;;
            let net_result := winnings - bet in
            color <- of_result (result_color result) ;;
            success <- update_wallet guild_id discord_id net_result
                         "gambling_roulette" ;;
            if success : bool then
              add_wallet_event guild_id discord_id net_result
                "gambling_roulette" (RouletteDescription result choice bet) ;;;
              updated_wallet <- get_wallet guild_id discord_id ;;
              new_balance <- get_balance updated_wallet ;;
              respond (RouletteResult color result winnings net_result
                         new_balance)
            else respond FailedToProcessBet))
    (fun e => log_error (FailedToProcess GRoulette e) ;;;
              respond (GameFailed GRoulette)).

(** ** Hand values, as the rules of the game state them *)

(** The least a card counts for: an ace 1. *)
Definition low_points (c : Card) : Z :=
  match rank c with
  | RA => 1
  | RJ | RQ | RK => 10
  | r => int_rank r
  end.

Definition is_ace (c : Card) : bool :=
  match rank c with RA => true | _ => false end.

(** The total of a hand with every ace counted as 1. *)
Fixpoint hard_total (cards : list Card) : Z :=
  match cards with
  | [] => 0
  | c :: rest => low_points c + hard_total rest
  end.

Fixpoint count_aces (cards : list Card) : nat :=
  match cards with
  | [] => O
  | c :: rest => if is_ace c then S (count_aces rest) else count_aces rest
  end.

(** The points one card may count for: a face card 10, an ace 11 or 1,
    a number card its number. *)
Definition card_points (c : Card) (v : Z) : Prop :=
  match rank c with
  | RA => v = 11 \/ v = 1
  | RJ | RQ | RK => v = 10
  | r => v = int_rank r
  end.

(** A total is achievable when it is the sum of one permitted count per
    card. *)
Definition achievable (cards : list Card) (t : Z) : Prop :=
  exists vs : list Z, Forall2 card_points cards vs /\ t = foldr Z.add 0 vs.

(** ** The slots payout table, as the rules state it *)

Inductive SlotRule : Type :=
| ThreeTopTier | ThreeTier2 | ThreeTier3 | ThreeOther | TwoMatching | NoMatch.

(** Tiers by payout: seven, diamond, star. *)
Definition rule_applies (rule : SlotRule) (reels : Symbol * Symbol * Symbol)
  : Prop :=
  let '(r0, r1, r2) := reels in
  match rule with
  | ThreeTopTier => r0 = Seven /\ r1 = Seven /\ r2 = Seven
  | ThreeTier2 => r0 = Diamond /\ r1 = Diamond /\ r2 = Diamond
  | ThreeTier3 => r0 = Star /\ r1 = Star /\ r2 = Star
  | ThreeOther =>
      r0 = r1 /\ r1 = r2 /\ r0 <> Seven /\ r0 <> Diamond /\ r0 <> Star
  | TwoMatching =>
      (r0 = r1 \/ r1 = r2 \/ r0 = r2) /\ ~ (r0 = r1 /\ r1 = r2)
  | NoMatch => r0 <> r1 /\ r1 <> r2 /\ r0 <> r2
  end.

Definition rule_multiplier (rule : SlotRule) : Z :=
  match rule with
  | ThreeTopTier => 100
  | ThreeTier2 => 50
  | ThreeTier3 => 25
  | ThreeOther => 10
  | TwoMatching => 2
  | NoMatch => 0
  end.

(** ** The roulette table, as the rules state it *)

(** The colour, parity and range choices. *)
Definition outside_choices : list string :=
  ["red"; "black"; "odd"; "even"; "low"; "high"].

(** A colour, parity or range choice is satisfied by the numbered pocket
    [n]. *)
Definition satisfies (choice : string) (n : Z) : Prop :=
  (choice = "red" /\ n ∈ red_numbers)
  \/ (choice = "black" /\ n ∈ black_numbers)
  \/ (choice = "odd" /\ Z.odd n = true)
  \/ (choice = "even" /\ Z.even n = true)
  \/ (choice = "low" /\ 1 <= n <= 18)
  \/ (choice = "high" /\ 19 <= n <= 36).

#[global] Instance satisfies_dec (choice : string) (n : Z) :
  Decision (satisfies choice n).
Proof. unfold satisfies. apply _. Defined.

(** ** Worlds after a successful store operation *)

(** The [inc_updates] that [update_wallet] builds for [amount]. *)
Definition inc_updates_of (amount : Z) : IncUpdates :=
  if amount >? 0
  then mkInc amount (Some amount) None
  else mkInc amount None (Some (Z.abs amount)).

(** The world once [update_wallet] has applied [amount]. *)
Definition applied (guild_id discord_id amount : Z) (w : World) : World :=
  emit (LedgerDelta guild_id discord_id amount)
    (set_economy
       (fun m => <[(guild_id, discord_id) :=
                    apply_inc (inc_updates_of amount)
                      (default upserted (m !! (guild_id, discord_id)))]> m)
       w).

(** The world once [add_wallet_event] has appended [e]. *)
Definition journaled (e : WalletEvent) (w : World) : World :=
  emit (JournalEntry e) (set_wallet_events (fun l => l ++ [e]) w).

(** The ledger deltas of a trace, in order. *)
Definition ledger_deltas (t : list Effect) : list (Z * Z * Z) :=
  omap (fun e => match e with
                 | LedgerDelta g d a => Some (g, d, a)
                 | _ => None
                 end) t.

(** The journal entries of a trace, in order. *)
Definition journal_entries (t : list Effect) : list WalletEvent :=
  omap (fun e => match e with
                 | JournalEntry ev => Some ev
                 | _ => None
                 end) t.

(** The lock acquisitions of a trace, in order. *)
Definition lock_acquisitions (t : list Effect) : list (Z * Z) :=
  omap (fun e => match e with
                 | LockAcquire k => Some k
                 | _ => None
                 end) t.

(** ** Bet validation, as the rules state it *)

(** The stake ceiling of each game. *)
Definition ceiling (game : Game) : Z :=
  match game with
  | GSlots => 10000
  | GBlackjack => 5000
  | GRoulette => 2000
  end.

(** The replies that reject a stake as out of range. *)
Definition InvalidBet (r : Response) : Prop :=
  r = BetMustBePositive \/ exists c, r = MaximumBetIs c.

(** The inputs of one game command beyond the stake: the random draw and,
    for roulette, the choice. *)
Inductive GameInput : Type :=
| SlotsInput (reels : Symbol * Symbol * Symbol)
| BlackjackInput (shuffled : list Card)
| RouletteInput (choice result : string).

Definition game_of (i : GameInput) : Game :=
  match i with
  | SlotsInput _ => GSlots
  | BlackjackInput _ => GBlackjack
  | RouletteInput _ _ => GRoulette
  end.

(** Runs the command of the game, forgetting what it returns. *)
Definition play (lower : string -> string) (guild_id discord_id bet : Z)
  (i : GameInput) : M World unit :=
  match i with
  | SlotsInput reels => slots guild_id discord_id bet reels
  | BlackjackInput shuffled =>
      blackjack guild_id discord_id bet shuffled ;;; ret tt
  | RouletteInput choice result =>
      roulette lower guild_id discord_id bet choice result
  end.

(** ** Sessions under a sequence of button presses *)

Inductive Action : Type := Hit | Stand.

Definition press (a : Action) : M (BlackjackView.View * World) unit :=
  match a with
  | Hit => BlackjackView.hit_button
  | Stand => BlackjackView.stand_button
  end.

(** The callbacks run one after the other; an exception escaping one of
    them is handled by the view and does not stop the next. *)
Fixpoint presses (actions : list Action) (s : BlackjackView.View * World)
  : BlackjackView.View * World :=
  match actions with
  | [] => s
  | a :: rest => presses rest (snd (press a s))
  end.

(** The session states the rules name, read off a view. *)
Inductive SessionState : Type := PlayerTurn | Terminal.

Definition state_of (v : BlackjackView.View) : SessionState :=
  if BlackjackView.game_over v then Terminal else PlayerTurn.

(** From [w] to [w'] at most [k] ledger deltas were applied and at most
    [k] journal entries written. *)
Definition grows (k : nat) (w w' : World) : Prop :=
  exists ld lj,
    ledger_deltas (trace w') = ledger_deltas (trace w) ++ ld
    /\ journal_entries (trace w') = journal_entries (trace w) ++ lj
    /\ (length ld <= k)%nat /\ (length lj <= k)%nat.

(** ** What a command reads before it plays *)

(** A working store, an entitled guild, and a wallet whose balance [have]
    covers the stake. *)
Definition eligible (w : World) (guild_id discord_id bet have : Z) : Prop :=
  faults w = []
  /\ guild_id ∈ premium w
  /\ (exists doc, economy w !! (guild_id, discord_id) = Some doc
                  /\ balance doc = Some have)
  /\ bet <= have.

(** The ledger deltas and the random draws of a trace, in order: what
    was applied before and what after the game was resolved. *)
Definition money_steps (t : list Effect) : list Effect :=
  omap (fun e => match e with
                 | LedgerDelta _ _ _ | Draw => Some e
                 | _ => None
                 end) t.

(** A full deck that deals the player ace and king and the dealer nine
    and seven. *)
Definition natural_deal : list Card :=
  let dealt := [mkCard R7 Clubs; mkCard R9 Clubs;
                mkCard RK Spades; mkCard RA Spades] in
  filter (fun c => c ∉ dealt) deck ++ dealt.

(** The debit-first lifecycle: from [w] to [w'] a delta of [- bet] was
    applied, then the game was resolved, then a delta of [payout] was
    applied when [payout] is positive. *)
Definition debit_then_credit (guild_id discord_id bet payout : Z)
  (w w' : World) : Prop :=
  money_steps (trace w')
  = money_steps (trace w)
      ++ LedgerDelta guild_id discord_id (- bet) :: Draw
         :: (if payout >? 0
             then [LedgerDelta guild_id discord_id payout]
             else []).

(** The net lifecycle: the game was resolved first and a single delta of
    the net result was applied after it. *)
Definition net_after_draw (guild_id discord_id net_result : Z)
  (w w' : World) : Prop :=
  money_steps (trace w')
  = money_steps (trace w)
      ++ [Draw; LedgerDelta guild_id discord_id net_result].

(** ** Further notions for the properties beyond the claims *)

(** A card worth ten: the ten and the face cards. *)
Definition ten_valued (c : Card) : Prop :=
  rank c = R10 \/ rank c = RJ \/ rank c = RQ \/ rank c = RK.

(** The outcome of a stand, read off the final hands: the net result and
    the status shown. *)
Definition stand_outcome (bet player_value dealer_value : Z)
  : BlackjackStatus * Z :=
  if dealer_value >? 21 then (DealerBust, bet)
  else if player_value >? dealer_value then (YouWin, bet)
  else if dealer_value >? player_value then (DealerWins, - bet)
  else (PushTie, 0).

(** A view as [Gambling.blackjack] creates it from a deck of 52 cards,
    as long as the game is live: the dealer holds two cards, every other
    card is in the deck or in the player's hand, and the player has not
    bust. *)
Definition dealt_from_full_deck (v : BlackjackView.View) : Prop :=
  BlackjackView.game_over v = false ->
  length (BlackjackView.dealer_cards v) = 2%nat
  /\ (length (BlackjackView.deck v)
      + length (BlackjackView.player_cards v) = 50)%nat
  /\ card_value (BlackjackView.player_cards v) <= 21.

(** A field of the wallet of an account, read with 0 for a missing
    document or field. *)
Definition wallet_field (f : Wallet -> option Z) (w : World)
  (guild_id discord_id : Z) : Z :=
  default 0 (economy w !! (guild_id, discord_id) ≫= f).

(** [update_wallet] called once per amount, in order; the list of the
    values returned. *)
Fixpoint update_all (guild_id discord_id : Z) (transaction_type : string)
  (amounts : list Z) : M World (list bool) :=
  match amounts with
  | [] => ret []
  | amount :: rest =>
      ok <- update_wallet guild_id discord_id amount transaction_type ;;
      oks <- update_all guild_id discord_id transaction_type rest ;;
      ret (ok :: oks)
  end.

(** Which of [n] successive store calls go through, under a schedule of
    faults. *)
Fixpoint acks (n : nat) (fs : list bool) : list bool :=
  match n with
  | O => []
  | S n' => match fs with
            | [] => true :: acks n' []
            | f :: fs' => negb f :: acks n' fs'
            end
  end.

(** The sum of [part amount] over the amounts whose call went through. *)
Fixpoint sum_applied (part : Z -> Z) (amounts : list Z) (oks : list bool)
  : Z :=
  match amounts, oks with
  | amount :: rest, ok :: oks' =>
      (if ok : bool then part amount else 0) + sum_applied part rest oks'
  | _, _ => 0
  end.

Definition earned_part (amount : Z) : Z := if amount >? 0 then amount else 0.

Definition spent_part (amount : Z) : Z :=
  if amount >? 0 then 0 else Z.abs amount.

(** The recognized choice of a roulette input; the other games take
    none. *)
Definition choice_recognized (lower : string -> string) (i : GameInput)
  : Prop :=
  match i with
  | RouletteInput choice _ => lower choice ∈ valid_choices
  | _ => True
  end.

(** ** Lock discipline *)

(** Reads a trace with the lock free ([None]) or held for an account.
    The lock is acquired only when free and released only by its
    holder; a ledger delta, a wallet creation and a journal entry are
    allowed only for the account that holds the lock.  The result is
    the holder at the end, [None] when the trace breaks the
    discipline. *)
Fixpoint lock_run (held : option (Z * Z)) (t : list Effect)
  : option (option (Z * Z)) :=
  match t with
  | [] => Some held
  | e :: t =>
      match e with
      | LockAcquire k =>
          match held with
          | None => lock_run (Some k) t
          | Some _ => None
          end
      | LockRelease k =>
          if bool_decide (held = Some k) then lock_run None t else None
      | LedgerDelta g d _ | WalletCreated g d =>
          if bool_decide (held = Some (g, d)) then lock_run held t else None
      | JournalEntry ev =>
          if bool_decide (held = Some (ev_guild_id ev, ev_discord_id ev))
          then lock_run held t else None
      | Draw | Respond _ | ViewCreated | LogError _ => lock_run held t
      end
  end.


(** ** The wheel as a whole *)

(** The net result of a roulette bet against one pocket, as
    [Gambling.roulette] computes it: [winnings - bet]. *)
Definition roulette_net (bet : Z) (choice result : string) : res Z :=
  match roulette_winnings bet choice result with
  | Ret winnings => Ret (winnings - bet)
  | Raise e => Raise e
  end.

(** The net results of one choice against each pocket in [pockets],
    added up; an exception of the computation is passed on. *)
Fixpoint wheel_total (bet : Z) (choice : string) (pockets : list string)
  : res Z :=
  match pockets with
  | [] => Ret 0
  | result :: rest =>
      match roulette_net bet choice result, wheel_total bet choice rest with
      | Ret net, Ret total => Ret (net + total)
      | Raise e, _ | _, Raise e => Raise e
      end
  end.

(** The pairs of opposite colour, parity and range choices. *)
Definition opposite_choices : list (string * string) :=
  [("red", "black"); ("odd", "even"); ("low", "high")].

(** * [Stats]: weapons, rival and nemesis *)

Module Stats.

(** The values of the [combined_stats] dictionary.  A float is kept by
    its bit pattern: the two functions below copy no float and compute
    with none. *)
Inductive Value : Type :=
| VNone
| VInt (n : Z)
| VFloat (bits : Z)
| VStr (s : string)
| VCounts (d : list (string * Z)).

(** A document of the [kill_events] collection; a field may be
    missing. *)
Record KillEvent : Type := mkKill {
  ke_guild_id : Z;
  ke_killer : option string;
  ke_victim : option string;
  ke_weapon : option string;
  ke_is_suicide : option bool
}.

Inductive StatsLog : Type :=
| FailedWeaponStats (e : exn)
| FailedRivalsNemesis (e : exn).

(** The dictionary passed in, which the functions update in place, the
    collection, the fault schedule of the driver and the error log. *)
Record Env : Type := mkEnv {
  combined_stats : gmap string Value;
  kill_events : list KillEvent;
  faults : list bool;
  log : list StatsLog
}.

Definition set_combined_stats (f : gmap string Value -> gmap string Value)
  (s : Env) : Env :=
  mkEnv (f (combined_stats s)) (kill_events s) (faults s) (log s).

Definition set_faults (fs : list bool) (s : Env) : Env :=
  mkEnv (combined_stats s) (kill_events s) fs (log s).

Definition log_error (l : StatsLog) : M Env unit :=
  modify (fun s => mkEnv (combined_stats s) (kill_events s) (faults s)
                     (log s ++ [l])).

(** ** A dict with string keys, in insertion order *)

Definition Counts : Type := list (string * Z).

(** [d.get(key)] *)
Fixpoint get (key : string) (d : Counts) : option Z :=
  match d with
  | [] => None
  | (k, v) :: rest => if String.eqb k key then Some v else get key rest
  end.

(** [d[key] = v]: a key that is present keeps its place. *)
Fixpoint set (key : string) (v : Z) (d : Counts) : Counts :=
  match d with
  | [] => [(key, v)]
  | (k, x) :: rest =>
      if String.eqb k key then (k, v) :: rest else (k, x) :: set key v rest
  end.

(** [d.keys()] *)
Definition keys (d : Counts) : list string := map fst d.

(** [d[key]] *)
Definition item {S} (d : Counts) (key : string) : M S Z :=
  match get key d with
  | Some v => ret v
  | None => raise KeyError
  end.

(** [d[key] = d.get(key, 0) + 1] *)
Definition count_up (key : string) (d : Counts) : Counts :=
  set key (default 0 (get key d) + 1) d.

(** The scan of [max(iterable, key=...)]: the best so far is replaced
    only by a strictly greater element, so the first maximum wins. *)
Fixpoint max_from {A} (key : A -> Z) (best : A) (l : list A) : A :=
  match l with
  | [] => best
  | x :: rest =>
      if key x >? key best then max_from key x rest
      else max_from key best rest
  end.

(** [max(l, key=key)]; a [ValueError] on the empty sequence. *)
Definition max {S A} (l : list A) (key : A -> Z) : M S A :=
  match l with
  | [] => raise ValueError
  | x :: rest => ret (max_from key x rest)
  end.

(** ** The collection *)

Inductive Role : Type := Killer | Victim.

(** The query [{'guild_id': guild_id, role: character,
    'is_suicide': False}]. *)
Definition matches (guild_id : Z) (role : Role) (character : string)
  (ev : KillEvent) : bool :=
  bool_decide (ke_guild_id ev = guild_id)
  && bool_decide (match role with
                  | Killer => ke_killer ev
                  | Victim => ke_victim ev
                  end = Some character)
  && bool_decide (ke_is_suicide ev = Some false).

(** [kill_events.find(query)] and the iteration of its cursor: one call
    into the driver. *)
Definition find (guild_id : Z) (role : Role) (character : string)
  : M Env (list KillEvent) :=
  fun s =>
    let found := List.filter (matches guild_id role character)
                   (kill_events s) in
    match faults s with
    | true :: fs => (Raise StoreError, set_faults fs s)
    | false :: fs => (Ret found, set_faults fs s)
    | [] => (Ret found, s)
    end.

(** ** [_calculate_weapon_stats] *)

Definition suicide_weapons : list string :=
  ["Menu Suicide"; "Suicide"; "Falling"].

(** The body of [async for kill_event in cursor]. *)
Definition count_weapon (weapon_counts : Counts) (kill_event : KillEvent)
  : Counts :=
  let weapon := default "Unknown" (ke_weapon kill_event) in
  if bool_decide (weapon ∉ suicide_weapons)
  then count_up weapon weapon_counts
  else weapon_counts.

(** [for character in player_characters: ...] *)
Fixpoint weapon_loop (guild_id : Z) (characters : list string)
  (weapon_counts : Counts) : M Env Counts :=
  match characters with
  | [] => ret weapon_counts
  | character :: rest =>
      cursor <- find guild_id Killer character ;;
      weapon_loop guild_id rest (foldl count_weapon weapon_counts cursor)
  end.

Definition _calculate_weapon_stats (guild_id : Z)
  (player_characters : list string) : M Env unit :=
  try_except
    (weapon_counts <- weapon_loop guild_id player_characters [] ;;
     match weapon_counts with
     | [] => ret tt
     | _ =>
         favorite <- max (keys weapon_counts)
                       (fun x => default 0 (get x weapon_counts)) ;;
         modify (set_combined_stats
                   (insert "favorite_weapon" (VStr favorite))) ;;;
         modify (set_combined_stats
                   (insert "weapon_stats" (VCounts weapon_counts)))
     end)
    (fun e => log_error (FailedWeaponStats e)).

(** ** [_calculate_rivals_nemesis] *)

(** [if name and name not in player_characters:
       counts[name] = counts.get(name, 0) + 1] *)
Definition count_other (player_characters : list string)
  (counts : Counts) (name : option string) : Counts :=
  match name with
  | Some n =>
      if negb (String.eqb n "") && bool_decide (n ∉ player_characters)
      then count_up n counts
      else counts
  | None => counts
  end.

Fixpoint rivals_loop (guild_id : Z) (player_characters : list string)
  (characters : list string) (kills_against deaths_to : Counts)
  : M Env (Counts * Counts) :=
  match characters with
  | [] => ret (kills_against, deaths_to)
  | character :: rest =>
      cursor <- find guild_id Killer character ;;
      let kills_against :=
        foldl (fun counts kill_event =>
                 count_other player_characters counts (ke_victim kill_event))
          kills_against cursor in
      cursor <- find guild_id Victim character ;;
      let deaths_to :=
        foldl (fun counts kill_event =>
                 count_other player_characters counts (ke_killer kill_event))
          deaths_to cursor in
      rivals_loop guild_id player_characters rest kills_against deaths_to
  end.

(** [if counts: combined_stats[who] = max(counts.keys(), key=...);
       combined_stats[how_many] = counts[combined_stats[who]]] *)
Definition set_most (who how_many : string) (counts : Counts)
  : M Env unit :=
  match counts with
  | [] => ret tt
  | _ =>
      most <- max (keys counts) (fun x => default 0 (get x counts)) ;;
      modify (set_combined_stats (insert who (VStr most))) ;;;
      n <- item counts most ;;
      modify (set_combined_stats (insert how_many (VInt n)))
  end.

Definition _calculate_rivals_nemesis (guild_id : Z)
  (player_characters : list string) : M Env unit :=
  try_except
    (counts <- rivals_loop guild_id player_characters player_characters
                 [] [] ;;
     let '(kills_against, deaths_to) := counts in
     set_most "rival" "rival_kills" kills_against ;;;
     set_most "nemesis" "nemesis_deaths" deaths_to)
    (fun e => log_error (FailedRivalsNemesis e)).

(** ** What the loops count *)

(** How often [key] occurs in [l]. *)
Fixpoint occurrences (key : string) (l : list string) : Z :=
  match l with
  | [] => 0
  | x :: rest => (if String.eqb x key then 1 else 0) + occurrences key rest
  end.

(** [count_up] along a list of keys. *)
Definition tally (l : list string) (d : Counts) : Counts :=
  foldl (fun d key => count_up key d) d l.

(** The weapons of the kill events found for the characters, in the
    order of the loops, without the suicide weapons. *)
Definition counted_weapons (guild_id : Z) (characters : list string)
  (events : list KillEvent) : list string :=
  flat_map
    (fun character =>
       List.filter (fun weapon => bool_decide (weapon ∉ suicide_weapons))
         (map (fun ev => default "Unknown" (ke_weapon ev))
            (List.filter (matches guild_id Killer character) events)))
    characters.

(** The names that are counted: present, not empty, and not one of the
    player's own characters. *)
Definition counted_names (player_characters : list string)
  (names : list (option string)) : list string :=
  omap (fun name : option string =>
          match name with
          | Some n =>
              if negb (String.eqb n "")
                 && bool_decide (n ∉ player_characters)
              then Some n else None
          | None => None
          end) names.

(** The counted victims of the player's characters, and the counted
    killers of the player's characters. *)
Definition opponents (role : Role) (guild_id : Z)
  (player_characters characters : list string) (events : list KillEvent)
  : list string :=
  flat_map
    (fun character =>
       counted_names player_characters
         (map (match role with
               | Killer => ke_victim
               | Victim => ke_killer
               end)
            (List.filter (matches guild_id role character) events)))
    characters.

(** A loop of [n] lookups fails exactly when one of the next [n]
    entries of the fault schedule is a failure. *)
Definition fails (n : nat) (s : Env) : bool :=
  bool_decide (true ∈ take n (faults s)).

End Stats.

(** * [DatabaseManager]: player linking *)

Module Players.

(** A document of the [players] collection; each field may be missing.
    The collection carries a unique index on (guild_id, discord_id).
    A datetime is its instant, in microseconds. *)
Record PlayerDoc : Type := mkPlayer {
  linked_characters : option (list string);
  primary_character : option string;
  linked_at : option Z
}.

#[global] Instance PlayerDoc_eq_dec : EqDecision PlayerDoc.
Proof. solve_decision. Defined.

(** The store keeps a datetime in whole milliseconds: an instant that is
    written is rounded down to the millisecond, and that is what is read
    back. *)
Definition to_millis (t : Z) : Z := 1000 * (t / 1000).

(** A document as the store keeps it. *)
Definition as_stored (doc : PlayerDoc) : PlayerDoc :=
  mkPlayer (linked_characters doc) (primary_character doc)
    (to_millis <$> linked_at doc).

Inductive PlayersLog : Type :=
| FailedToLinkPlayer (e : exn)
| MissingLinkedCharacters (doc : PlayerDoc)
| FailedToCleanup (e : exn)
| FailedToSetPrimaryCharacter (e : exn)
| FailedToSetLinkedAt (e : exn)
| FailedToGetLinkedPlayer (e : exn).

(** The collection, the fault schedule of the driver and the error
    log. *)
Record Db : Type := mkDb {
  players : gmap (Z * Z) PlayerDoc;
  faults : list bool;
  log : list PlayersLog
}.

Definition set_players
  (f : gmap (Z * Z) PlayerDoc -> gmap (Z * Z) PlayerDoc) (db : Db) : Db :=
  mkDb (f (players db)) (faults db) (log db).

Definition log_error (l : PlayersLog) : M Db unit :=
  modify (fun db => mkDb (players db) (faults db) (log db ++ [l])).

(** Every call into the driver consumes the head of [faults]. *)
Definition store_call : M Db unit :=
  fun db => match faults db with
            | true :: fs => (Raise StoreError, mkDb (players db) fs (log db))
            | false :: fs => (Ret tt, mkDb (players db) fs (log db))
            | [] => (Ret tt, db)
            end.

Definition find_one (guild_id discord_id : Z) : M Db (option PlayerDoc) :=
  store_call ;;; gets (fun db => players db !! (guild_id, discord_id)).

(** [insert_one]: the unique index refuses a second document of the
    same key; the document is kept as the store keeps it. *)
Definition insert_one (guild_id discord_id : Z) (doc : PlayerDoc)
  : M Db unit :=
  store_call ;;;
  existing <- gets (fun db => players db !! (guild_id, discord_id)) ;;
  match existing with
  | Some _ => raise StoreError
  | None =>
      modify (set_players (insert (guild_id, discord_id) (as_stored doc)))
  end.

(** [update_one(query, update)] without upsert: no document, no
    change. *)
Definition update_one (guild_id discord_id : Z)
  (update : PlayerDoc -> PlayerDoc) : M Db unit :=
  store_call ;;;
  modify (set_players
            (fun m => match m !! (guild_id, discord_id) with
                      | Some doc => <[(guild_id, discord_id) := update doc]> m
                      | None => m
                      end)).

Definition delete_one (guild_id discord_id : Z) : M Db unit :=
  store_call ;;; modify (set_players (delete (guild_id, discord_id))).

(** [{"$addToSet": {"linked_characters": character_name}}] *)
Definition add_to_set (character_name : string) (doc : PlayerDoc)
  : PlayerDoc :=
  let characters := default [] (linked_characters doc) in
  mkPlayer
    (Some (if bool_decide (character_name ∈ characters) then characters
           else characters ++ [character_name]))
    (primary_character doc) (linked_at doc).

(** [{"$set": {"primary_character": primary_char}}] *)
Definition set_primary_character (primary_char : string) (doc : PlayerDoc)
  : PlayerDoc :=
  mkPlayer (linked_characters doc) (Some primary_char) (linked_at doc).

(** [player_doc['linked_at'] = now] on the dictionary; as the update
    [{"$set": {"linked_at": now}}] it is given the instant the store
    keeps, [to_millis now]. *)
Definition set_linked_at (now : Z) (doc : PlayerDoc) : PlayerDoc :=
  mkPlayer (linked_characters doc) (primary_character doc) (Some now).

(** [now] is the reading of [datetime.now(timezone.utc)]. *)
Definition link_player (guild_id discord_id : Z) (character_name : string)
  (now : Z) : M Db bool :=
  try_except
    (existing_player <- find_one guild_id discord_id ;;
     match existing_player with
     | Some doc =>
         if bool_decide
              (character_name ∉ default [] (linked_characters doc))
         then update_one guild_id discord_id (add_to_set character_name)
         else ret tt
     | None =>
         let player_doc :=
           mkPlayer (Some [character_name]) (Some character_name)
             (Some now) in
         insert_one guild_id discord_id player_doc
     end ;;;
     ret true)
    (fun e => log_error (FailedToLinkPlayer e) ;;; ret false).

Definition get_linked_player (guild_id discord_id : Z) (now : Z)
  : M Db (option PlayerDoc) :=
  try_except
    (player_doc <- find_one guild_id discord_id ;;
     match player_doc with
     | Some doc =>
         match linked_characters doc with
         | None | Some [] =>
             log_error (MissingLinkedCharacters doc) ;;;
             try_except (delete_one guild_id discord_id)
               (fun cleanup_error =>
                  log_error (FailedToCleanup cleanup_error)) ;;;
             ret None
         | Some (first :: _) =>
             doc <- match primary_character doc with
                    | None =>
                        let primary_char := first in
                        try_except
                          (update_one guild_id discord_id
                             (set_primary_character primary_char))
                          (fun update_error =>
                             log_error
                               (FailedToSetPrimaryCharacter update_error)) ;;;
                        ret (set_primary_character primary_char doc)
                    | Some _ => ret doc
                    end ;;
             doc <- match linked_at doc with
                    | None =>
                        try_except
                          (update_one guild_id discord_id
                             (set_linked_at (to_millis now)))
                          (fun update_error =>
                             log_error (FailedToSetLinkedAt update_error)) ;;;
                        ret (set_linked_at now doc)
                    | Some _ => ret doc
                    end ;;
             ret (Some doc)
         end
     | None => ret None
     end)
    (fun e => log_error (FailedToGetLinkedPlayer e) ;;; raise e).

(** The characters of a document; none when the field is missing. *)
Definition characters_of (doc : PlayerDoc) : list string :=
  default [] (linked_characters doc).

(** Every document of the collection is as the store keeps it: its
    datetime is in whole milliseconds. *)
Definition millis_kept (db : Db) : Prop :=
  map_Forall (fun _ doc => as_stored doc = doc) (players db).

End Players.

(** * Theorems *)

(** ** Smoke checks of the embedding *)

Example valid_choices_has_17 : "17" ∈ valid_choices.
Proof. apply (bool_decide_unpack _). by vm_compute. Qed.

Example spin_options_length : length spin_options = 38%nat.
Proof. reflexivity. Qed.

Example deck_length : length deck = 52%nat.
Proof. reflexivity. Qed.

Example card_value_two_aces_nine :
  card_value [mkCard RA Spades; mkCard RA Hearts; mkCard R9 Clubs] = 21.
Proof. reflexivity. Qed.

Example py_int_17 : py_int "17" = Ret 17.
Proof. reflexivity. Qed.

Example lower_RED : ascii_lower "RED" = "red".
Proof. reflexivity. Qed.

(** ** Hand values *)

Lemma fold_add_card (cards : list Card) (value : Z) (aces : nat) :
  fold_left add_card cards (value, aces)
  = (value + hard_total cards + 10 * Z.of_nat (count_aces cards),
     (aces + count_aces cards)%nat).
Proof.
  revert value aces.
  induction cards as [|c cards IH]; intros value aces.
  - cbn. f_equal; lia.
  - cbn [fold_left hard_total count_aces].
    destruct c as [r s]; destruct r;
      cbn [add_card rank is_ace low_points int_rank];
      rewrite IH; f_equal; lia.
Qed.

Lemma achievable_nil (t : Z) : achievable [] t <-> t = 0.
Proof.
  split.
  - intros (vs & HF & ->). inversion HF. reflexivity.
  - intros ->. exists []. split; [constructor | reflexivity].
Qed.

Lemma achievable_cons (c : Card) (cards : list Card) (t : Z) :
  achievable (c :: cards) t
  <-> exists v t', card_points c v /\ achievable cards t' /\ t = v + t'.
Proof.
  split.
  - intros (vs & HF & ->). inversion HF as [|? v ? vs' Hc HF']; subst.
    exists v, (foldr Z.add 0 vs'). repeat split; [done|by exists vs'].
  - intros (v & t' & Hc & (vs & HF & ->) & ->).
    exists (v :: vs). split; [by constructor | reflexivity].
Qed.

(** The achievable totals are the hard total plus ten for each ace
    promoted to 11. *)
Lemma achievable_spec (cards : list Card) (t : Z) :
  achievable cards t
  <-> exists k, 0 <= k <= Z.of_nat (count_aces cards)
                /\ t = hard_total cards + 10 * k.
Proof.
  revert t. induction cards as [|c cards IH]; intros t.
  - rewrite achievable_nil. cbn. split.
    + intros ->. exists 0. lia.
    + intros (k & Hk & ->). lia.
  - rewrite achievable_cons. cbn [hard_total count_aces].
    split.
    + intros (v & t' & Hc & Ht' & ->). apply IH in Ht' as (k & Hk & ->).
      unfold card_points in Hc. unfold low_points, is_ace.
      destruct c as [r s]; destruct r; cbn [rank int_rank] in *;
        try (subst v; exists k; lia).
      destruct Hc as [-> | ->]; [exists (k + 1) | exists k]; lia.
    + intros (k & Hk & ->). unfold low_points, is_ace in *.
      unfold card_points.
      destruct c as [r s]; destruct r; cbn [rank int_rank] in *.
      1: { destruct (decide (k = 0)) as [-> | Hnz].
           - exists 1, (hard_total cards + 10 * 0).
             split; [right; reflexivity|]. split; [|lia].
             apply IH. exists 0. lia.
           - exists 11, (hard_total cards + 10 * (k - 1)).
             split; [left; reflexivity|]. split; [|lia].
             apply IH. exists (k - 1). lia. }
      all: eexists _, (hard_total cards + 10 * k);
        (split; [reflexivity|]); (split; [|lia]);
        apply IH; exists k; lia.
Qed.

(** What the reduction loop returns: [j] aces are demoted, the first
    [j] such that the value fits, or all of them. *)
Lemma reduce_aces_spec (aces : nat) (value : Z) :
  exists j, 0 <= j <= Z.of_nat aces
    /\ reduce_aces value aces = value - 10 * j
    /\ (value - 10 * j <= 21 \/ j = Z.of_nat aces)
    /\ (forall j', 0 <= j' < j -> 21 < value - 10 * j').
Proof.
  revert value. induction aces as [|aces IH]; intros value.
  - exists 0. cbn [reduce_aces].
    split; [lia|]. split; [lia|]. split; [right; lia|]. intros; lia.
  - cbn [reduce_aces]. destruct (value >? 21) eqn:E.
    + destruct (IH (value - 10)) as (j & Hj & Hr & Hb & Hall).
      exists (j + 1). split; [lia|]. split; [rewrite Hr; lia|].
      split; [destruct Hb; [left|right]; lia|].
      intros j' Hj'. destruct (decide (j' = 0)) as [-> | Hnz]; [lia|].
      specialize (Hall (j' - 1)). lia.
    + exists 0. split; [lia|]. split; [lia|]. split; [left; lia|].
      intros; lia.
Qed.

Lemma card_value_unfold (cards : list Card) :
  card_value cards
  = reduce_aces (hard_total cards + 10 * Z.of_nat (count_aces cards))
      (count_aces cards).
Proof.
  unfold card_value. rewrite fold_add_card. cbn. f_equal.
Qed.

Lemma card_value_achievable (cards : list Card) :
  achievable cards (card_value cards).
Proof.
  rewrite card_value_unfold.
  destruct (reduce_aces_spec (count_aces cards)
              (hard_total cards + 10 * Z.of_nat (count_aces cards)))
    as (j & Hj & -> & _ & _).
  apply achievable_spec. exists (Z.of_nat (count_aces cards) - j). lia.
Qed.

Lemma card_value_permutation (cards cards' : list Card) :
  Permutation cards cards' -> card_value cards = card_value cards'.
Proof.
  intros HP. rewrite !card_value_unfold.
  assert (hard_total cards = hard_total cards' /\
          count_aces cards = count_aces cards') as [-> ->]; [|done].
  induction HP as [|c l l' _ [IH1 IH2]|c c' l|l l' l'' _ [IH1 IH2] _ [IH3 IH4]];
    cbn [hard_total count_aces].
  - done.
  - rewrite IH1, IH2. done.
  - split; [lia|]. destruct (is_ace c), (is_ace c'); done.
  - split; congruence.
Qed.

(** C7: the hand value is an achievable total (faces 10, each ace 11 or
    1); it is the largest achievable total not above 21 when there is one,
    and the least achievable total otherwise.  It does not depend on the
    order of the cards, and the method of the view computes the same
    value as the function of the command. *)
Theorem card_value_best_total (cards : list Card) :
  achievable cards (card_value cards)
  /\ ((exists t, achievable cards t /\ t <= 21) ->
      card_value cards <= 21
      /\ forall t, achievable cards t -> t <= 21 -> t <= card_value cards)
  /\ ((forall t, achievable cards t -> 21 < t) ->
      forall t, achievable cards t -> card_value cards <= t)
  /\ (forall cards', Permutation cards cards' ->
      card_value cards' = card_value cards)
  /\ BlackjackView.card_value cards = card_value cards.
Proof.
  split; [apply card_value_achievable|].
  pose proof (card_value_unfold cards) as Hv.
  destruct (reduce_aces_spec (count_aces cards)
              (hard_total cards + 10 * Z.of_nat (count_aces cards)))
    as (j & Hj & Hr & Hb & Hall).
  rewrite Hr in Hv.
  split; [|split; [|split]].
  - intros (t0 & Ht0 & Hle0).
    apply achievable_spec in Ht0 as (k0 & Hk0 & ->).
    assert (card_value cards <= 21) as Hfit.
    { destruct Hb as [Hb | ->]; lia. }
    split; [exact Hfit|].
    intros t Ht Hle. apply achievable_spec in Ht as (k & Hk & ->).
    destruct (decide (Z.of_nat (count_aces cards) - k < j)) as [Hlt|Hge];
      [|lia].
    specialize (Hall (Z.of_nat (count_aces cards) - k)). lia.
  - intros Hbust t Ht. apply achievable_spec in Ht as (k & Hk & ->).
    destruct Hb as [Hb | ->]; [|lia].
    specialize (Hbust (card_value cards) (card_value_achievable cards)). lia.
  - intros cards' HP. symmetry. by apply card_value_permutation.
  - reflexivity.
Qed.

(** ** Slots *)

Ltac slots_eval :=
  unfold slots_outcome; repeat case_bool_decide; cbn;
  first [congruence | lia].

Ltac slot_rule rule :=
  exists rule; split;
  [ cbn; intuition congruence
  | split;
    [ intros rule'; destruct rule'; cbn; intuition congruence
    | slots_eval ] ].

(** C5: for every draw of three symbols and every stake exactly one rule
    of the payout table applies, and the winnings are that rule's
    multiple of the stake: 100 for three sevens, 50 for three diamonds,
    25 for three stars, 10 for any other three of a kind, 2 for exactly
    two matching symbols, 0 otherwise. *)
Theorem slots_payout_table (bet : Z) (r0 r1 r2 : Symbol) :
  exists rule,
    rule_applies rule (r0, r1, r2)
    /\ (forall rule', rule_applies rule' (r0, r1, r2) -> rule' = rule)
    /\ fst (slots_outcome bet (r0, r1, r2)) = rule_multiplier rule * bet.
Proof.
  destruct (decide (r0 = r1)) as [E01|N01];
    destruct (decide (r1 = r2)) as [E12|N12];
    destruct (decide (r0 = r2)) as [E02|N02];
    subst; try congruence.
  - destruct r2;
      first [ slot_rule ThreeTopTier | slot_rule ThreeTier2
            | slot_rule ThreeTier3 | slot_rule ThreeOther ].
  - slot_rule TwoMatching.
  - slot_rule TwoMatching.
  - slot_rule TwoMatching.
  - slot_rule NoMatch.
Qed.

Example slots_three_sevens (bet : Z) :
  fst (slots_outcome bet (Seven, Seven, Seven)) = 100 * bet.
Proof. slots_eval. Qed.

Example slots_two_matching (bet : Z) :
  fst (slots_outcome bet (Cherry, Cherry, Lemon)) = 2 * bet.
Proof. slots_eval. Qed.

Example slots_all_distinct (bet : Z) :
  fst (slots_outcome bet (Cherry, Lemon, Orange)) = 0.
Proof. reflexivity. Qed.

(** ** Roulette *)

(** On the numbered pockets [int] undoes [str], and no numbered pocket is
    printed as a zero. *)
Lemma str_numbered (n : Z) :
  1 <= n <= 36 -> py_int (str n) = Ret n /\ str n ∉ ["0"; "00"].
Proof.
  intros Hn.
  assert (forallb (fun n => bool_decide (py_int (str n) = Ret n)
                            && bool_decide (str n ∉ ["0"; "00"]))
            range_1_37 = true) as Hall by (by vm_compute).
  rewrite forallb_forall in Hall.
  specialize (Hall n). rewrite andb_true_iff, !bool_decide_eq_true in Hall.
  apply Hall. apply list_elem_of_In. unfold range_1_37.
  apply elem_of_seqZ. lia.
Qed.

Lemma spin_options_cases (result : string) :
  result ∈ spin_options <->
  result ∈ ["0"; "00"] \/ exists n, 1 <= n <= 36 /\ result = str n.
Proof.
  unfold spin_options, range_1_37.
  rewrite elem_of_app, list_elem_of_fmap.
  setoid_rewrite elem_of_seqZ.
  split; (intros [H | (n & H1 & H2)]; [by left | right; exists n]);
    (split; [lia | done]) || (split; [done | lia]).
Qed.

Lemma roulette_exact (bet : Z) (choice : string) :
  roulette_winnings bet choice choice = Ret (35 * bet).
Proof.
  unfold roulette_winnings. rewrite String.eqb_refl. f_equal. lia.
Qed.

Lemma roulette_zero (bet : Z) (choice result : string) :
  choice <> result -> result ∈ ["0"; "00"] ->
  roulette_winnings bet choice result = Ret 0.
Proof.
  intros Hne Hz. unfold roulette_winnings.
  apply String.eqb_neq in Hne. rewrite Hne.
  by rewrite bool_decide_eq_true_2.
Qed.

Lemma roulette_numbered (bet : Z) (choice result : string) (n : Z) :
  choice <> result -> result ∉ ["0"; "00"] -> py_int result = Ret n ->
  (satisfies choice n -> roulette_winnings bet choice result = Ret (2 * bet))
  /\ (~ satisfies choice n -> roulette_winnings bet choice result = Ret 0).
Proof.
  intros Hne Hnz Hint. unfold roulette_winnings.
  apply String.eqb_neq in Hne. rewrite Hne.
  rewrite bool_decide_eq_false_2 by done. cbn [negb]. rewrite Hint.
  unfold satisfies. rewrite Zmod_odd, <- Z.negb_odd.
  destruct (Z.odd n) eqn:Hodd; cbn [negb];
  repeat match goal with
         | |- context [String.eqb choice ?s] =>
             destruct (String.eqb_spec choice s) as [-> | ?]
         end;
  cbn [String.eqb Ascii.eqb Bool.eqb andb];
  repeat case_bool_decide;
  repeat match goal with
         | |- context [Z.leb ?a ?b] => destruct (Z.leb_spec a b)
         end;
  cbn [andb Z.eqb Pos.eqb];
  (split; intros Hs;
   [ first [ f_equal; lia
           | exfalso; intuition (first [discriminate | lia | congruence]) ]
   | first [ f_equal; lia
           | exfalso; apply Hs; intuition (first [lia | congruence]) ] ]).
Qed.

Lemma outside_choice_not_pocket (choice : string) :
  choice ∈ outside_choices -> choice ∉ ["0"; "00"].
Proof.
  unfold outside_choices. rewrite !elem_of_cons, !elem_of_nil.
  intros H1 H2.
  repeat match goal with
         | H : _ \/ _ |- _ => destruct H
         | H : False |- _ => destruct H
         end; subst; discriminate.
Qed.

(** C6: against every result of the wheel, the winnings are a multiple
    of the stake: 35 on an exact match of choice and result; 2 when the
    result is a numbered pocket that satisfies the colour, parity or
    range choice; 0 otherwise.  On 0 and 00 no colour, parity or range
    choice wins. *)
Theorem roulette_payout_table (bet : Z) (choice result : string) :
  result ∈ spin_options ->
  exists mult,
    roulette_winnings bet choice result = Ret (mult * bet)
    /\ (choice = result -> mult = 35)
    /\ (choice <> result ->
        (exists n, 1 <= n <= 36 /\ result = str n /\ satisfies choice n) ->
        mult = 2)
    /\ (choice <> result ->
        ~ (exists n, 1 <= n <= 36 /\ result = str n /\ satisfies choice n) ->
        mult = 0)
    /\ (result ∈ ["0"; "00"] -> choice ∈ outside_choices -> mult = 0).
Proof.
  intros Hres.
  destruct (decide (choice = result)) as [-> | Hne].
  { exists 35. split; [apply roulette_exact|].
    split; [done|]. split; [done|]. split; [done|].
    intros Hz Hout. by apply outside_choice_not_pocket in Hout. }
  apply spin_options_cases in Hres as [Hz | (n & Hn & ->)].
  { exists 0. split; [by rewrite roulette_zero|].
    split; [done|]. split; [|done].
    intros _ (n & Hn & -> & _). by apply str_numbered in Hn as [_ Hn]. }
  destruct (str_numbered n Hn) as [Hint Hnz].
  destruct (roulette_numbered bet choice (str n) n Hne Hnz Hint)
    as [Hwin Hlose].
  destruct (decide (satisfies choice n)) as [Hsat | Hnot].
  - exists 2. split; [by apply Hwin|]. split; [done|]. split; [done|].
    split; [|done]. intros _ Hno. destruct Hno. by exists n.
  - exists 0. split; [by rewrite Hlose|]. split; [done|].
    split; [|done]. intros _ (n' & Hn' & Heq & Hsat).
    assert (n' = n) as ->; [|done].
    destruct (str_numbered n' Hn') as [Hint' _].
    rewrite <- Heq, Hint in Hint'. congruence.
Qed.

Lemma roulette_payout_table_witness :
  exists mult,
    roulette_winnings 10 "red" "1" = Ret (mult * 10)
    /\ ("red" = "1" -> mult = 35)
    /\ ("red" <> "1" ->
        (exists n, 1 <= n <= 36 /\ "1" = str n /\ satisfies "red" n) ->
        mult = 2)
    /\ ("red" <> "1" ->
        ~ (exists n, 1 <= n <= 36 /\ "1" = str n /\ satisfies "red" n) ->
        mult = 0)
    /\ ("1" ∈ ["0"; "00"] -> "red" ∈ outside_choices -> mult = 0).
Proof.
  apply (roulette_payout_table 10 "red" "1").
  apply (bool_decide_unpack _). vm_compute. exact I.
Defined.

Example roulette_17_on_17 (bet : Z) :
  roulette_winnings bet "17" "17" = Ret (35 * bet).
Proof. apply roulette_exact. Qed.

Example roulette_red_on_red (bet : Z) :
  roulette_winnings bet "red" "19" = Ret (bet * 2).
Proof. reflexivity. Qed.

Example roulette_red_on_zero (bet : Z) :
  roulette_winnings bet "red" "0" = Ret 0.
Proof. reflexivity. Qed.

(** ** The ledger store *)

(** Unfolds the monad and the store driver, leaving map operations and
    arithmetic untouched. *)
Ltac run :=
  cbv beta iota zeta delta
    [bind ret raise try_except finally modify gets lift of_result
     store_call find_one insert_one_wallet update_one insert_one_event
     log_error respond get_wallet update_wallet get_balance
     get_user_lock with_user_lock check_premium_server add_wallet_event
     applied journaled
     emit set_economy set_wallet_events set_user_locks set_faults
     economy wallet_events user_locks premium faults trace
     fst snd for_each spinning_frames].

Section Ledger.

Variable w : World.
Variables guild_id discord_id : Z.
Hypothesis store_up : faults w = [].

Lemma get_wallet_found (doc : Wallet) :
  economy w !! (guild_id, discord_id) = Some doc ->
  get_wallet guild_id discord_id w = (Ret doc, w).
Proof.
  intros Hdoc. destruct w as [eco evs locks prem fs tr].
  cbn in store_up, Hdoc. subst fs. run. by rewrite Hdoc.
Qed.

Lemma get_wallet_created :
  economy w !! (guild_id, discord_id) = None ->
  get_wallet guild_id discord_id w
  = (Ret (mkWallet (Some 0) (Some 0) (Some 0)),
     emit (WalletCreated guild_id discord_id)
       (set_economy (insert (guild_id, discord_id)
                       (mkWallet (Some 0) (Some 0) (Some 0))) w)).
Proof.
  intros Hdoc. destruct w as [eco evs locks prem fs tr].
  cbn in store_up, Hdoc. subst fs. run. by rewrite Hdoc.
Qed.

Lemma update_wallet_applied (amount : Z) (transaction_type : string) :
  update_wallet guild_id discord_id amount transaction_type w
  = (Ret true, applied guild_id discord_id amount w).
Proof.
  destruct w as [eco evs locks prem fs tr]. cbn in store_up. subst fs.
  run. unfold inc_updates_of. by destruct (amount >? 0).
Qed.

Lemma add_wallet_event_journaled (amount : Z) (event_type : string)
  (description : Description) :
  add_wallet_event guild_id discord_id amount event_type description w
  = (Ret tt,
     journaled (mkEvent guild_id discord_id amount event_type description) w).
Proof.
  destruct w as [eco evs locks prem fs tr]. cbn in store_up. subst fs.
  by run.
Qed.

End Ledger.

Lemma applied_lookup (guild_id discord_id amount : Z) (w : World) :
  economy (applied guild_id discord_id amount w) !! (guild_id, discord_id)
  = Some (apply_inc (inc_updates_of amount)
            (default upserted (economy w !! (guild_id, discord_id)))).
Proof. cbn. by rewrite lookup_insert_eq. Qed.

(** C3: on an account the store has never seen, a delta of [+X] followed
    by a delta of [-X] is applied twice with success and leaves the
    document with balance 0, total_earned [X] and total_spent [X]; the
    same holds when the account was first read (and so created with a
    zero balance) through [get_wallet]. *)
Theorem update_wallet_round_trip (w : World) (guild_id discord_id X : Z)
  (t1 t2 : string) :
  0 < X ->
  faults w = [] ->
  economy w !! (guild_id, discord_id) = None ->
  (exists w1 w2,
      update_wallet guild_id discord_id X t1 w = (Ret true, w1)
      /\ update_wallet guild_id discord_id (- X) t2 w1 = (Ret true, w2)
      /\ economy w2 !! (guild_id, discord_id)
         = Some (mkWallet (Some 0) (Some X) (Some X))
      /\ ledger_deltas (trace w2)
         = ledger_deltas (trace w)
             ++ [(guild_id, discord_id, X); (guild_id, discord_id, - X)])
  /\ (exists w0 w1 w2,
        get_wallet guild_id discord_id w
        = (Ret (mkWallet (Some 0) (Some 0) (Some 0)), w0)
        /\ update_wallet guild_id discord_id X t1 w0 = (Ret true, w1)
        /\ update_wallet guild_id discord_id (- X) t2 w1 = (Ret true, w2)
        /\ get_wallet guild_id discord_id w2
           = (Ret (mkWallet (Some 0) (Some X) (Some X)), w2)).
Proof.
  intros HX Hup Hnew.
  assert ((X >? 0) = true) as Hpos by (apply Z.gtb_lt; lia).
  assert ((- X >? 0) = false) as Hneg by (rewrite Z.gtb_ltb; apply Z.ltb_ge; lia).
  split.
  - eexists _, _.
    split; [by apply update_wallet_applied|].
    split; [by apply update_wallet_applied|].
    split.
    + rewrite applied_lookup, applied_lookup, Hnew.
      unfold inc_updates_of. rewrite Hpos, Hneg.
      unfold apply_inc, inc_field, upserted. cbn.
      do 2 f_equal; f_equal; lia.
    + cbn. unfold ledger_deltas. rewrite <- app_assoc, omap_app. done.
  - eexists _, _, _.
    split; [by apply get_wallet_created|].
    split; [by apply update_wallet_applied|].
    split; [by apply update_wallet_applied|].
    apply get_wallet_found; [done|].
    rewrite applied_lookup, applied_lookup. cbn.
    rewrite lookup_insert_eq.
    unfold inc_updates_of. rewrite Hpos, Hneg.
    unfold apply_inc, inc_field, upserted. cbn.
    do 2 f_equal; f_equal; lia.
Qed.

Lemma update_wallet_round_trip_witness :
  let w := mkWorld ∅ [] ∅ ∅ [] [] in
  exists w1 w2,
    update_wallet 1 2 50 "work" w = (Ret true, w1)
    /\ update_wallet 1 2 (- 50) "gambling_slots" w1 = (Ret true, w2)
    /\ economy w2 !! (1, 2) = Some (mkWallet (Some 0) (Some 50) (Some 50))
    /\ ledger_deltas (trace w2)
       = ledger_deltas (trace w) ++ [(1, 2, 50); (1, 2, - 50)].
Proof.
  apply (update_wallet_round_trip (mkWorld ∅ [] ∅ ∅ [] []) 1 2 50
           "work" "gambling_slots"); [lia | reflexivity | reflexivity].
Defined.

(** ** The journal *)

(** C9: whatever the store does, [add_wallet_event] returns normally.
    When the append fails the failure is logged, the journal is left as
    it was, and in both cases the ledger (the [economy] documents and the
    deltas applied so far) is untouched. *)
Theorem add_wallet_event_never_raises (w : World)
  (guild_id discord_id amount : Z) (event_type : string)
  (description : Description) :
  let e := mkEvent guild_id discord_id amount event_type description in
  exists w',
    add_wallet_event guild_id discord_id amount event_type description w
    = (Ret tt, w')
    /\ economy w' = economy w
    /\ ledger_deltas (trace w') = ledger_deltas (trace w)
    /\ match faults w with
       | true :: _ =>
           wallet_events w' = wallet_events w
           /\ trace w'
              = trace w ++ [LogError (FailedToAddWalletEvent StoreError)]
       | _ =>
           wallet_events w' = wallet_events w ++ [e]
           /\ trace w' = trace w ++ [JournalEntry e]
       end.
Proof.
  intros e. destruct w as [eco evs locks prem fs tr].
  destruct fs as [|[|] fs]; run; eexists; (split; [reflexivity|]); cbn;
    unfold ledger_deltas; rewrite omap_app, app_nil_r; done.
Qed.

Example add_wallet_event_store_down :
  let w := mkWorld {[ (1, 2) := mkWallet (Some 90) None (Some 10) ]}
             [] ∅ ∅ [true] [LedgerDelta 1 2 (-10)] in
  add_wallet_event 1 2 (-10) "gambling_slots"
    (SlotsDescription (Cherry, Lemon, Orange) 10) w
  = (Ret tt,
     mkWorld {[ (1, 2) := mkWallet (Some 90) None (Some 10) ]}
       [] ∅ ∅ []
       [LedgerDelta 1 2 (-10);
        LogError (FailedToAddWalletEvent StoreError)]).
Proof. reflexivity. Qed.

(** ** Validation *)

(** C4: in each of the three games a stake that is not positive or that
    exceeds the game's ceiling (10000, 5000 and 2000: all distinct) ends
    the command with a single reply and nothing else: no lock is taken
    or registered, no ledger delta is applied, no journal entry is
    written, and the store is as before.  On an entitled guild the reply
    is the out-of-range rejection. *)
Theorem invalid_bet_rejected (lower : string -> string) (w : World)
  (guild_id discord_id bet : Z) (i : GameInput) :
  bet <= 0 \/ ceiling (game_of i) < bet ->
  exists w' r,
    play lower guild_id discord_id bet i w = (Ret tt, w')
    /\ trace w' = trace w ++ [Respond r]
    /\ economy w' = economy w
    /\ wallet_events w' = wallet_events w
    /\ user_locks w' = user_locks w
    /\ lock_acquisitions (trace w') = lock_acquisitions (trace w)
    /\ ledger_deltas (trace w') = ledger_deltas (trace w)
    /\ journal_entries (trace w') = journal_entries (trace w)
    /\ (guild_id ∈ premium w -> InvalidBet r)
    /\ ceiling GSlots <> ceiling GBlackjack
    /\ ceiling GBlackjack <> ceiling GRoulette
    /\ ceiling GSlots <> ceiling GRoulette.
Proof.
  intros Hbad. destruct w as [eco evs locks prem fs tr].
  assert (forall r, lock_acquisitions (tr ++ [Respond r]) = lock_acquisitions tr
                    /\ ledger_deltas (tr ++ [Respond r]) = ledger_deltas tr
                    /\ journal_entries (tr ++ [Respond r]) = journal_entries tr)
    as Hframe.
  { intros r. unfold lock_acquisitions, ledger_deltas, journal_entries.
    rewrite !omap_app, !app_nil_r. done. }
  destruct i as [reels | shuffled | choice result]; cbn [game_of ceiling] in Hbad;
    unfold play, slots, blackjack, roulette; run;
    (case_bool_decide as Hprem; cbn [negb];
     [ destruct (Z.leb_spec bet 0);
       [| match goal with
          | |- context [?a >? ?b] => destruct (Z.gtb_spec a b); [|lia]
          end ]
     | ]);
    eexists _, _; (split; [reflexivity|]); cbn;
    (split; [reflexivity|]); (split; [reflexivity|]);
    (split; [reflexivity|]); (split; [reflexivity|]);
    (split; [apply Hframe|]); (split; [apply Hframe|]);
    (split; [apply Hframe|]);
    (split; [intros; first [ by left | by right; eexists | done ] |]);
    done.
Qed.

Lemma invalid_bet_rejected_witness :
  exists w' r,
    play ascii_lower 1 2 10001 (SlotsInput (Seven, Seven, Seven))
      (mkWorld ∅ [] ∅ {[ 1 ]} [] []) = (Ret tt, w')
    /\ trace w' = [Respond r]
    /\ InvalidBet r.
Proof.
  destruct (invalid_bet_rejected ascii_lower
              (mkWorld ∅ [] ∅ {[ 1 ]} [] []) 1 2 10001
              (SlotsInput (Seven, Seven, Seven)))
    as (w' & r & Hrun & Htr & _ & _ & _ & _ & _ & _ & Hinv & _).
  - right. cbn. lia.
  - exists w', r. split; [exact Hrun|]. split; [exact Htr|].
    apply Hinv. cbn. apply elem_of_singleton. reflexivity.
Defined.

(** ** The blackjack session *)

Ltac trace_simpl :=
  unfold ledger_deltas, journal_entries, lock_acquisitions;
  rewrite ?omap_app, ?app_nil_r; cbn [omap].

Lemma update_wallet_effect (guild_id discord_id amount : Z)
  (transaction_type : string) (w : World) :
  exists (b : bool) w',
    update_wallet guild_id discord_id amount transaction_type w = (Ret b, w')
    /\ ledger_deltas (trace w')
       = ledger_deltas (trace w)
           ++ (if b then [(guild_id, discord_id, amount)] else [])
    /\ journal_entries (trace w') = journal_entries (trace w).
Proof.
  destruct w as [eco evs locks prem fs tr].
  destruct fs as [|[|] fs]; run; destruct (amount >? 0); run;
    eexists _, _; (split; [reflexivity|]); cbn; trace_simpl; done.
Qed.

Lemma get_wallet_effect (guild_id discord_id : Z) (w : World) :
  ledger_deltas (trace (snd (get_wallet guild_id discord_id w)))
  = ledger_deltas (trace w)
  /\ journal_entries (trace (snd (get_wallet guild_id discord_id w)))
     = journal_entries (trace w).
Proof.
  destruct w as [eco evs locks prem fs tr].
  destruct fs as [|[|] [|[|] fs]]; run;
    destruct (eco !! (guild_id, discord_id)); cbn; trace_simpl; done.
Qed.

Lemma add_wallet_event_effect (guild_id discord_id amount : Z)
  (event_type : string) (description : Description) (w : World) :
  exists w' (l : list WalletEvent),
    add_wallet_event guild_id discord_id amount event_type description w
    = (Ret tt, w')
    /\ ledger_deltas (trace w') = ledger_deltas (trace w)
    /\ journal_entries (trace w') = journal_entries (trace w) ++ l
    /\ (length l <= 1)%nat.
Proof.
  destruct w as [eco evs locks prem fs tr].
  destruct fs as [|[|] fs]; run;
    [ eexists _, [_] | eexists _, [] | eexists _, [_] ];
    (split; [reflexivity|]); cbn; trace_simpl;
    (split; [reflexivity|]); (split; [reflexivity|]); cbn; lia.
Qed.

Lemma grows_refl (k : nat) (w : World) : grows k w w.
Proof. exists [], []. rewrite !app_nil_r. repeat split; cbn; lia. Qed.

Lemma grows_respond (k : nat) (w w' : World) (r : Response) :
  grows k w w' -> grows k w (emit (Respond r) w').
Proof.
  intros (ld & lj & H1 & H2 & H3 & H4). exists ld, lj. cbn.
  trace_simpl. fold (ledger_deltas (trace w')).
  fold (journal_entries (trace w')). done.
Qed.

Lemma grows_trans (j k : nat) (w1 w2 w3 : World) :
  grows j w1 w2 -> grows k w2 w3 -> grows (j + k) w1 w3.
Proof.
  intros (ld & lj & H1 & H2 & H3 & H4) (ld' & lj' & H1' & H2' & H3' & H4').
  exists (ld ++ ld'), (lj ++ lj'). rewrite H1', H1, H2', H2, <- !app_assoc.
  rewrite !length_app. repeat split; lia.
Qed.

Lemma end_game_effect (result_text : BlackjackStatus) (net_result : Z)
  (v : BlackjackView.View) (w : World) :
  exists res w',
    BlackjackView.end_game result_text net_result (v, w)
    = (res, (BlackjackView.set_game_over true v, w'))
    /\ grows 1 w w'.
Proof.
  unfold BlackjackView.end_game, bind, modify, gets, lift.
  cbn [fst snd BlackjackView.on_view].
  destruct (update_wallet_effect (BlackjackView.guild_id v)
              (BlackjackView.discord_id v) net_result "gambling_blackjack" w)
    as (b & w1 & E1 & Hd1 & Hj1).
  cbn [BlackjackView.guild_id BlackjackView.discord_id
       BlackjackView.set_game_over BlackjackView.player_cards
       BlackjackView.dealer_cards BlackjackView.bet].
  rewrite E1. cbv beta iota delta [fst snd].
  assert (grows 1 w w1) as G1.
  { eexists _, []. split; [exact Hd1|]. rewrite Hj1, app_nil_r.
    split; [reflexivity|]. destruct b; cbn; lia. }
  destruct b; cbv beta iota delta [fst snd].
  - match goal with
    | |- context [add_wallet_event ?g ?d ?a ?t ?ds w1] =>
        destruct (add_wallet_event_effect g d a t ds w1)
          as (w2 & l & E2 & Hd2 & Hj2 & Hl2)
    end.
    rewrite E2. cbv beta iota delta [fst snd].
    assert (grows 1 w w2) as G2.
    { destruct G1 as (ld & lj & H1 & H2 & H3 & H4).
      exists ld, l. rewrite Hd2, Hj2, Hj1. repeat split; try done. }
    pose proof (get_wallet_effect (BlackjackView.guild_id v)
                  (BlackjackView.discord_id v) w2) as [Hd3 Hj3].
    destruct (get_wallet (BlackjackView.guild_id v)
                (BlackjackView.discord_id v) w2) as [[wallet | e] w3];
      cbv beta iota delta [fst snd].
    + cbn [snd] in Hd3, Hj3.
      assert (grows 1 w w3) as G3.
      { destruct G2 as (ld & lj & H1 & H2 & H3 & H4).
        exists ld, lj. rewrite Hd3, Hj3. done. }
      unfold get_balance. destruct (balance wallet); unfold ret, raise.
      * unfold respond, modify. cbv beta iota delta [fst snd].
        eexists _, _. split; [reflexivity|].
        by apply grows_respond.
      * eexists _, _. split; [reflexivity|]. done.
    + cbn [snd] in Hd3, Hj3. eexists _, _. split; [reflexivity|].
      destruct G2 as (ld & lj & H1 & H2 & H3 & H4).
      exists ld, lj. rewrite Hd3, Hj3. done.
  - unfold respond, modify. cbv beta iota delta [fst snd].
    eexists _, _. split; [reflexivity|].
    by apply grows_respond.
Qed.

Lemma press_terminal (a : Action) (v : BlackjackView.View) (w : World) :
  BlackjackView.game_over v = true -> press a (v, w) = (Ret tt, (v, w)).
Proof.
  intros Hover.
  destruct a; unfold press, BlackjackView.hit_button,
    BlackjackView.stand_button, bind, gets, ret;
    cbv beta iota delta [fst snd]; by rewrite Hover.
Qed.

(** One press on a live session either settles it, once, or leaves it
    live without touching ledger or journal. *)
Lemma press_live (a : Action) (v : BlackjackView.View) (w : World) :
  BlackjackView.game_over v = false ->
  let s' := snd (press a (v, w)) in
  (BlackjackView.game_over (fst s') = true /\ grows 1 w (snd s'))
  \/ (BlackjackView.game_over (fst s') = false /\ grows 0 w (snd s')).
Proof.
  intros Hlive. destruct a; unfold press.
  - unfold BlackjackView.hit_button, BlackjackView.deck_pop, bind, gets.
    cbv beta iota delta [fst snd]. rewrite Hlive.
    destruct (pop (BlackjackView.deck v)) as [[card rest]|];
      unfold raise, ret, modify, bind; cbv beta iota delta [fst snd];
      [|right; split; [done | apply grows_refl]].
    unfold BlackjackView.on_view; cbv beta iota delta [fst snd].
    match goal with
    | |- context [BlackjackView.card_value ?cs >? 21] =>
        destruct (BlackjackView.card_value cs >? 21)
    end.
    + match goal with
      | |- context [BlackjackView.end_game ?r ?n (?v', w)] =>
          destruct (end_game_effect r n v' w) as (res & w' & E & G)
      end.
      rewrite E. left. split; [reflexivity | exact G].
    + unfold BlackjackView.dealer_value_hidden.
      cbn [BlackjackView.dealer_cards BlackjackView.set_player_cards
           BlackjackView.set_deck].
      destruct (BlackjackView.dealer_cards v);
        unfold raise, ret, lift, respond, modify;
        cbv beta iota delta [fst snd];
        right; (split; [exact Hlive|]).
      * apply grows_refl.
      * apply grows_respond, grows_refl.
  - unfold BlackjackView.stand_button, BlackjackView.dealer_plays, bind, gets.
    cbv beta iota delta [fst snd]. rewrite Hlive.
    destruct (BlackjackView.dealer_loop (reverse (BlackjackView.deck v))
                (BlackjackView.dealer_cards v)) as [[[] | e] [top dealer]];
      unfold BlackjackView.on_view; cbv beta iota delta [fst snd];
      [|right; split; [exact Hlive | apply grows_refl]].
    repeat match goal with
           | |- context [if ?c then _ else _] => destruct c
           end;
      match goal with
      | |- context [BlackjackView.end_game ?r ?n (?v', w)] =>
          destruct (end_game_effect r n v' w) as (res & w' & E & G)
      end;
      rewrite E; left; (split; [reflexivity | exact G]).
Qed.

Lemma presses_terminal (actions : list Action) (v : BlackjackView.View)
  (w : World) :
  BlackjackView.game_over v = true -> presses actions (v, w) = (v, w).
Proof.
  intros Hover. induction actions as [|a actions IH]; [done|].
  cbn [presses]. by rewrite press_terminal.
Qed.

Lemma presses_settle_once (actions : list Action) (v : BlackjackView.View)
  (w : World) :
  grows 1 w (snd (presses actions (v, w))).
Proof.
  revert v w. induction actions as [|a actions IH]; intros v w.
  { apply grows_refl. }
  cbn [presses].
  destruct (BlackjackView.game_over v) eqn:Hstate.
  - rewrite press_terminal by done. cbn [snd]. apply IH.
  - pose proof (press_live a v w Hstate) as Hstep. cbv zeta in Hstep.
    destruct (press a (v, w)) as [r [v' w']]. cbn [fst snd] in *.
    destruct Hstep as [[Hover G] | [Hlive G]].
    + by rewrite presses_terminal.
    + apply (grows_trans 0 1 w w'); [exact G | apply IH].
Qed.

(** C8: [end_game] leaves the session Terminal; on a Terminal session
    [Hit] and [Stand] return at once and change neither the view (hands,
    deck, flag) nor the world (ledger, journal, replies), and so does any
    sequence of presses; from any session, any sequence of presses
    applies at most one ledger delta and writes at most one journal
    entry. *)
Theorem terminal_is_absorbing (v : BlackjackView.View) (w : World) :
  (forall result_text net_result,
      state_of (fst (snd (BlackjackView.end_game result_text net_result
                            (v, w)))) = Terminal)
  /\ (state_of v = Terminal ->
      BlackjackView.hit_button (v, w) = (Ret tt, (v, w))
      /\ BlackjackView.stand_button (v, w) = (Ret tt, (v, w))
      /\ forall actions, presses actions (v, w) = (v, w))
  /\ (forall actions, grows 1 w (snd (presses actions (v, w)))).
Proof.
  split; [|split].
  - intros result_text net_result.
    destruct (end_game_effect result_text net_result v w)
      as (res & w' & -> & _).
    reflexivity.
  - unfold state_of. intros Hterm.
    destruct (BlackjackView.game_over v) eqn:Hover; [|discriminate].
    split; [exact (press_terminal Hit v w Hover)|].
    split; [exact (press_terminal Stand v w Hover)|].
    intros actions. by apply presses_terminal.
  - intros actions. apply presses_settle_once.
Qed.

(** The player holds 20, hits a 2 and busts: the stake is lost once, and
    pressing on changes nothing. *)
Example bust_then_press_again :
  let w := mkWorld {[ (1, 2) := mkWallet (Some 100) (Some 0) (Some 0) ]}
             [] ∅ {[ 1 ]} [] [] in
  let v := BlackjackView.init [mkCard R2 Hearts]
             [mkCard RK Spades; mkCard RQ Spades]
             [mkCard R9 Clubs; mkCard R7 Clubs] 10 1 2 in
  let s1 := presses [Hit] (v, w) in
  state_of (fst s1) = Terminal
  /\ economy (snd s1) !! (1, 2) = Some (mkWallet (Some 90) (Some 0) (Some 10))
  /\ ledger_deltas (trace (snd s1)) = [(1, 2, -10)]
  /\ length (journal_entries (trace (snd s1))) = 1%nat
  /\ presses [Hit; Hit; Stand; Hit] (v, w) = s1.
Proof. vm_compute. repeat split; reflexivity. Qed.

(** ** The blackjack command *)

Lemma pop_snoc {A} (l : list A) (x : A) : pop (l ++ [x]) = Some (x, l).
Proof. unfold pop. by rewrite last_snoc, removelast_last. Qed.

Lemma pop_card_dealt {S} (rest : list Card) (a b c d : Card) (s : S) :
  pop_card (rest ++ [a; b; c; d]) s = (Ret (d, rest ++ [a; b; c]), s)
  /\ pop_card (rest ++ [a; b; c]) s = (Ret (c, rest ++ [a; b]), s)
  /\ pop_card (rest ++ [a; b]) s = (Ret (b, rest ++ [a]), s)
  /\ pop_card (rest ++ [a]) s = (Ret (a, rest), s).
Proof.
  unfold pop_card.
  replace (rest ++ [a; b; c; d]) with ((rest ++ [a; b; c]) ++ [d])
    by (by rewrite <- app_assoc).
  replace (rest ++ [a; b; c]) with ((rest ++ [a; b]) ++ [c])
    by (by rewrite <- app_assoc).
  replace (rest ++ [a; b]) with ((rest ++ [a]) ++ [b])
    by (by rewrite <- app_assoc).
  by rewrite !pop_snoc.
Qed.

(** Rewrites the four pops of the initial deal. *)
Ltac deal rest d2 d1 p2 p1 :=
  rewrite (proj1 (pop_card_dealt rest d2 d1 p2 p1 _));
  cbv beta iota;
  rewrite (proj1 (proj2 (pop_card_dealt rest d2 d1 p2 p1 _)));
  cbv beta iota;
  rewrite (proj1 (proj2 (proj2 (pop_card_dealt rest d2 d1 p2 p1 _))));
  cbv beta iota;
  rewrite (proj2 (proj2 (proj2 (pop_card_dealt rest d2 d1 p2 p1 _))));
  cbv beta iota.

(** Passes the entitlement check, the validation against [ceiling] and
    the balance pre-check of a command, on a working store. *)
Ltac pass_checks Hprem Hdoc :=
  run; rewrite bool_decide_eq_true_2 by exact Hprem; cbn [negb];
  match goal with
  | |- context [?bet <=? 0] => rewrite (proj2 (Z.leb_gt bet 0)) by lia
  end;
  match goal with
  | |- context [?bet >? ?c] =>
      rewrite (Z.gtb_ltb bet c), (proj2 (Z.ltb_ge c bet)) by lia
  end;
  run; rewrite ?bool_decide_eq_true_2 by assumption; cbn [negb];
  run; rewrite Hdoc; run; cbv beta iota delta [balance];
  match goal with
  | |- context [?have <? ?bet] =>
      rewrite (proj2 (Z.ltb_ge have bet)) by lia
  end;
  run.

(** C10: a blackjack game that passes validation and the balance
    pre-check and whose deal is not a natural 21 hands the player a live
    view and does nothing else to the account: the wallet documents and
    the journal are as before and no ledger delta was applied.  Nothing
    but a press of Hit or Stand acts on the view afterwards, so a session
    left alone costs nothing. *)
Theorem abandoned_blackjack_costs_nothing (w : World)
  (guild_id discord_id bet have : Z) (rest : list Card) (p1 p2 d1 d2 : Card) :
  eligible w guild_id discord_id bet have ->
  0 < bet <= 5000 ->
  card_value [p1; p2] <> 21 ->
  let view := BlackjackView.init rest [p1; p2] [d1; d2] bet guild_id
                discord_id in
  exists w',
    blackjack guild_id discord_id bet (rest ++ [d2; d1; p2; p1]) w
    = (Ret (Some view), w')
    /\ state_of view = PlayerTurn
    /\ presses [] (view, w') = (view, w')
    /\ economy w' = economy w
    /\ wallet_events w' = wallet_events w
    /\ ledger_deltas (trace w') = ledger_deltas (trace w)
    /\ journal_entries (trace w') = journal_entries (trace w).
Proof.
  intros (Hup & Hprem & (doc & Hdoc & Hbal) & Hcover) Hbet Hnat view.
  destruct w as [eco evs locks prem fs tr]. cbn in Hup, Hprem, Hdoc.
  destruct doc as [bal te ts]. cbn in Hbal. subst fs bal.
  eexists. split.
  - unfold blackjack. pass_checks Hprem Hdoc.
    deal rest d2 d1 p2 p1.
    rewrite (proj2 (Z.eqb_neq _ _)) by exact Hnat.
    run. reflexivity.
  - cbn. trace_simpl. repeat split; reflexivity.
Qed.

Ltac run_doc :=
  run;
  cbv beta iota delta
    [apply_inc inc_field inc_updates_of upserted
     inc_balance inc_total_earned inc_total_spent];
  rewrite ?lookup_insert_eq;
  cbv beta iota delta [balance total_earned total_spent].

Lemma blackjack_winnings_floor (bet : Z) :
  0 < bet -> 2 * (blackjack_winnings bet - bet) = 3 * bet - bet mod 2.
Proof.
  intros Hbet. unfold blackjack_winnings.
  rewrite Z.quot_div_nonneg by lia.
  pose proof (Z.div_mod (bet * 5) 2 ltac:(lia)) as Hdm.
  assert ((bet * 5) mod 2 = bet mod 2) as Hpar.
  { replace (bet * 5) with (bet + 2 * bet * 2) by lia.
    by rewrite Z.mod_add. }
  lia.
Qed.

(** C2, as the code has it: a deal in which the player's two cards total
    21 is resolved inside the command.  No view is created, so the
    session never awaits the player; one ledger delta of the net result
    is applied and journalled, and the new balance is the old one plus
    the net result.  When the dealer's two cards total 21 as well the net
    result is 0; otherwise it is [int(2.5 * bet) - bet], which is half of
    [3 * bet] rounded down: exactly 1.5 times the stake when the stake is
    even, half a unit less when it is odd. *)
Theorem natural_blackjack_resolves_at_once (w : World)
  (guild_id discord_id bet have : Z) (rest : list Card) (p1 p2 d1 d2 : Card) :
  eligible w guild_id discord_id bet have ->
  0 < bet <= 5000 ->
  card_value [p1; p2] = 21 ->
  let dealer_value := card_value [d1; d2] in
  let net := if dealer_value =? 21 then 0 else blackjack_winnings bet - bet in
  let status :=
    if dealer_value =? 21 then PushBothBlackjack else NaturalBlackjack in
  let e := mkEvent guild_id discord_id net "gambling_blackjack"
             (BlackjackDescription 21 dealer_value bet) in
  (exists w',
      blackjack guild_id discord_id bet (rest ++ [d2; d1; p2; p1]) w
      = (Ret None, w')
      /\ trace w'
         = trace w
             ++ [LockAcquire (guild_id, discord_id); Draw;
                 Respond (BlackjackDealing bet);
                 LedgerDelta guild_id discord_id net;
                 JournalEntry e;
                 Respond (BlackjackResult status 21 dealer_value bet net
                            (have + net));
                 LockRelease (guild_id, discord_id)]
      /\ (exists doc', economy w' !! (guild_id, discord_id) = Some doc'
                       /\ balance doc' = Some (have + net)))
  /\ (dealer_value = 21 -> net = 0)
  /\ (dealer_value <> 21 -> 2 * net = 3 * bet - bet mod 2)
  /\ (dealer_value <> 21 -> Z.even bet = true -> 2 * net = 3 * bet).
Proof.
  intros (Hup & Hprem & (doc & Hdoc & Hbal) & Hcover) Hbet Hnat.
  destruct w as [eco evs locks prem fs tr]. cbn in Hup, Hprem, Hdoc.
  destruct doc as [bal te ts]. cbn in Hbal. subst fs bal. cbv zeta.
  split.
  - unfold blackjack.
    destruct (card_value [d1; d2] =? 21) eqn:Hdealer;
      [|destruct (blackjack_winnings bet - bet >? 0) eqn:Hsign];
      (eexists; split;
       [ pass_checks Hprem Hdoc; deal rest d2 d1 p2 p1;
         rewrite Hnat, Hdealer; cbn [Z.eqb Pos.eqb]; run_doc;
         rewrite ?Hsign; cbn [Z.gtb Z.compare]; run_doc;
         rewrite Hdoc; cbn [default]; reflexivity
       | cbn; rewrite <- !app_assoc;
         (split; [reflexivity|]);
         rewrite lookup_insert_eq; eexists; split; reflexivity ]).
  - destruct (Z.eqb_spec (card_value [d1; d2]) 21) as [Heq | Hne].
    + split; [done|]. split; intros; congruence.
    + split; [congruence|].
      split; [intros _; apply blackjack_winnings_floor; lia|].
      intros _ Heven. rewrite blackjack_winnings_floor by lia.
      rewrite Zmod_even, Heven. lia.
Qed.

Example natural_deal_is_a_deck :
  NoDup natural_deal /\ length natural_deal = 52%nat
  /\ Forall (fun c => c ∈ deck) natural_deal.
Proof.
  split; [apply (bool_decide_unpack _); by vm_compute|].
  split; [reflexivity|].
  apply (bool_decide_unpack _). by vm_compute.
Qed.

(** The stake 1 on a natural: the payout is [int(2.5)] = 2 and the net
    result 1, not 1.5. *)
Lemma natural_blackjack_odd_stake :
  let w := mkWorld {[ (1, 2) := mkWallet (Some 100) (Some 0) (Some 0) ]}
             [] ∅ {[ 1 ]} [] [] in
  card_value [mkCard RA Spades; mkCard RK Spades] = 21
  /\ card_value [mkCard R9 Clubs; mkCard R7 Clubs] < 21
  /\ exists w' net,
       blackjack 1 2 1 natural_deal w = (Ret None, w')
       /\ ledger_deltas (trace w') = [(1, 2, net)]
       /\ map ev_amount (journal_entries (trace w')) = [net]
       /\ 2 * net <> 3 * 1.
Proof.
  cbv zeta. split; [reflexivity|]. split; [reflexivity|].
  eexists _, 1. split; [vm_compute; reflexivity|].
  split; [reflexivity|]. split; [reflexivity|]. lia.
Qed.

Lemma eligible_example :
  eligible (mkWorld {[ (1, 2) := mkWallet (Some 100) (Some 0) (Some 0) ]}
              [] ∅ {[ 1 ]} [] []) 1 2 10 100.
Proof.
  split; [reflexivity|].
  split; [apply (bool_decide_unpack _); vm_compute; exact I|].
  split; [|lia]. eexists. split; [apply lookup_singleton_eq | reflexivity].
Defined.

Lemma abandoned_blackjack_costs_nothing_witness :
  let w := mkWorld {[ (1, 2) := mkWallet (Some 100) (Some 0) (Some 0) ]}
             [] ∅ {[ 1 ]} [] [] in
  let view := BlackjackView.init (take 48 deck)
                [mkCard RK Clubs; mkCard RQ Clubs]
                [mkCard RJ Clubs; mkCard R10 Clubs] 10 1 2 in
  exists w',
    blackjack 1 2 10 deck w = (Ret (Some view), w')
    /\ economy w' = economy w
    /\ wallet_events w' = wallet_events w.
Proof.
  intros w view.
  destruct (abandoned_blackjack_costs_nothing w 1 2 10 100 (take 48 deck)
              (mkCard RK Clubs) (mkCard RQ Clubs)
              (mkCard RJ Clubs) (mkCard R10 Clubs))
    as (w' & Hrun & _ & _ & Heco & Hevs & _).
  - exact eligible_example.
  - lia.
  - vm_compute. discriminate.
  - exists w'. split; [exact Hrun|]. split; [exact Heco | exact Hevs].
Defined.

Lemma natural_blackjack_resolves_at_once_witness :
  let w := mkWorld {[ (1, 2) := mkWallet (Some 100) (Some 0) (Some 0) ]}
             [] ∅ {[ 1 ]} [] [] in
  exists w',
    blackjack 1 2 10 natural_deal w = (Ret None, w')
    /\ exists doc', economy w' !! (1, 2) = Some doc'
                    /\ balance doc' = Some 115.
Proof.
  intros w.
  destruct (natural_blackjack_resolves_at_once w 1 2 10 100
              (take 48 natural_deal)
              (mkCard RA Spades) (mkCard RK Spades)
              (mkCard R9 Clubs) (mkCard R7 Clubs))
    as [(w' & Hrun & _ & Hdoc) _].
  - exact eligible_example.
  - lia.
  - reflexivity.
  - exists w'. split; [exact Hrun | exact Hdoc].
Defined.

(** ** The order of debit, draw and credit *)

Lemma result_color_total (result : string) :
  result ∈ spin_options -> exists c, result_color result = Ret c.
Proof.
  intros Hres. apply spin_options_cases in Hres as [Hz | (n & Hn & ->)].
  - rewrite !elem_of_cons, elem_of_nil in Hz.
    destruct Hz as [-> | [-> | []]]; by eexists.
  - destruct (str_numbered n Hn) as [Hint Hnz]. unfold result_color.
    rewrite Hint.
    destruct (String.eqb (str n) "0" || String.eqb (str n) "00");
      [by eexists|].
    case_bool_decide; by eexists.
Qed.

Lemma roulette_winnings_total (bet : Z) (choice result : string) :
  result ∈ spin_options ->
  exists winnings, roulette_winnings bet choice result = Ret winnings.
Proof.
  intros Hres.
  destruct (decide (choice = result)) as [-> | Hne].
  { eexists. apply roulette_exact. }
  apply spin_options_cases in Hres as [Hz | (n & Hn & ->)].
  { eexists. by apply roulette_zero. }
  destruct (str_numbered n Hn) as [Hint Hnz].
  destruct (roulette_numbered bet choice (str n) n Hne Hnz Hint)
    as [Hwin Hlose].
  destruct (decide (satisfies choice n)); eexists; eauto.
Qed.

Ltac steps_simpl :=
  cbn [trace]; rewrite <- ?app_assoc;
  unfold money_steps, journal_entries;
  rewrite ?omap_app, ?map_app; cbn; rewrite ?app_nil_r.

Lemma slots_debit_then_credit (w : World) (guild_id discord_id bet have : Z)
  (reels : Symbol * Symbol * Symbol) :
  eligible w guild_id discord_id bet have ->
  0 < bet <= 10000 ->
  let winnings := fst (slots_outcome bet reels) in
  exists w',
    slots guild_id discord_id bet reels w = (Ret tt, w')
    /\ money_steps (trace w')
       = money_steps (trace w)
           ++ LedgerDelta guild_id discord_id (- bet) :: Draw
              :: (if winnings >? 0
                  then [LedgerDelta guild_id discord_id winnings]
                  else [])
    /\ map ev_amount (journal_entries (trace w'))
       = map ev_amount (journal_entries (trace w)) ++ [winnings - bet].
Proof.
  intros (Hup & Hprem & (doc & Hdoc & Hbal) & Hcover) Hbet.
  destruct w as [eco evs locks prem fs tr]. cbn in Hup, Hprem, Hdoc.
  destruct doc as [bal te ts]. cbn in Hbal. subst fs bal. cbv zeta.
  unfold slots.
  destruct (slots_outcome bet reels) as [winnings win]. cbn [fst].
  destruct (winnings >? 0) eqn:Hw;
    (eexists; split;
     [ pass_checks Hprem Hdoc;
       rewrite (Z.gtb_ltb (- bet) 0), (proj2 (Z.ltb_ge 0 (- bet))) by lia;
       run_doc; rewrite ?Hw; run_doc; rewrite ?Hw; run_doc;
       reflexivity
     | split; steps_simpl; reflexivity ]).
Qed.

Lemma roulette_single_net_delta (lower : string -> string) (w : World)
  (guild_id discord_id bet have : Z) (choice result : string) :
  eligible w guild_id discord_id bet have ->
  0 < bet <= 2000 ->
  lower choice ∈ valid_choices ->
  result ∈ spin_options ->
  exists winnings w',
    roulette_winnings bet (lower choice) result = Ret winnings
    /\ roulette lower guild_id discord_id bet choice result w = (Ret tt, w')
    /\ money_steps (trace w')
       = money_steps (trace w)
           ++ [Draw; LedgerDelta guild_id discord_id (winnings - bet)]
    /\ map ev_amount (journal_entries (trace w'))
       = map ev_amount (journal_entries (trace w)) ++ [winnings - bet].
Proof.
  intros (Hup & Hprem & (doc & Hdoc & Hbal) & Hcover) Hbet Hchoice Hres.
  destruct w as [eco evs locks prem fs tr]. cbn in Hup, Hprem, Hdoc.
  destruct doc as [bal te ts]. cbn in Hbal. subst fs bal.
  destruct (roulette_winnings_total bet (lower choice) result Hres)
    as [winnings Hwin].
  destruct (result_color_total result Hres) as [color Hcolor].
  exists winnings. unfold roulette.
  destruct (winnings - bet >? 0) eqn:Hsign;
    (eexists; split; [exact Hwin|]; split;
     [ pass_checks Hprem Hdoc; rewrite Hwin, Hcolor; run_doc;
       rewrite ?Hsign; run_doc; reflexivity
     | split; steps_simpl; reflexivity ]).
Qed.

Lemma end_game_single_net_delta (w : World) (v : BlackjackView.View)
  (result_text : BlackjackStatus) (net_result : Z) :
  faults w = [] ->
  exists w',
    BlackjackView.end_game result_text net_result (v, w)
    = (Ret tt, (BlackjackView.set_game_over true v, w'))
    /\ money_steps (trace w')
       = money_steps (trace w)
           ++ [LedgerDelta (BlackjackView.guild_id v)
                 (BlackjackView.discord_id v) net_result]
    /\ map ev_amount (journal_entries (trace w'))
       = map ev_amount (journal_entries (trace w)) ++ [net_result].
Proof.
  intros Hup. destruct w as [eco evs locks prem fs tr]. cbn in Hup.
  subst fs. destruct v as [dk pc dc b g d over].
  unfold BlackjackView.end_game.
  destruct (net_result >? 0) eqn:Hsign;
    (eexists; split;
     [ run_doc;
       cbn [BlackjackView.on_view BlackjackView.set_game_over
            BlackjackView.guild_id BlackjackView.discord_id
            BlackjackView.bet BlackjackView.player_cards
            BlackjackView.dealer_cards BlackjackView.deck
            BlackjackView.game_over fst snd];
       run_doc; rewrite ?Hsign; run_doc; reflexivity
     | split; steps_simpl; reflexivity ]).
Qed.

(** ** The lifecycle of a blackjack bet *)

Ltac view_simpl :=
  cbn [BlackjackView.on_view BlackjackView.set_game_over
       BlackjackView.set_deck BlackjackView.set_player_cards
       BlackjackView.set_dealer_cards
       BlackjackView.guild_id BlackjackView.discord_id
       BlackjackView.bet BlackjackView.player_cards
       BlackjackView.dealer_cards BlackjackView.deck
       BlackjackView.game_over fst snd].

(** A deal that is no natural: the command draws, applies no delta,
    writes no journal entry and hands the view to the player. *)
Lemma blackjack_awaits_player (w : World)
  (guild_id discord_id bet have : Z) (rest : list Card) (p1 p2 d1 d2 : Card) :
  eligible w guild_id discord_id bet have ->
  0 < bet <= 5000 ->
  card_value [p1; p2] <> 21 ->
  exists w1,
    blackjack guild_id discord_id bet (rest ++ [d2; d1; p2; p1]) w
    = (Ret (Some (BlackjackView.init rest [p1; p2] [d1; d2] bet guild_id
                    discord_id)), w1)
    /\ money_steps (trace w1) = money_steps (trace w) ++ [Draw]
    /\ journal_entries (trace w1) = journal_entries (trace w)
    /\ faults w1 = [].
Proof.
  intros (Hup & Hprem & (doc & Hdoc & Hbal) & Hcover) Hbet Hnat.
  destruct w as [eco evs locks prem fs tr]. cbn in Hup, Hprem, Hdoc.
  destruct doc as [bal te ts]. cbn in Hbal. subst fs bal.
  eexists. split.
  - unfold blackjack. pass_checks Hprem Hdoc.
    deal rest d2 d1 p2 p1.
    rewrite (proj2 (Z.eqb_neq _ _)) by exact Hnat.
    run. reflexivity.
  - split; [steps_simpl; reflexivity|].
    split; [|reflexivity].
    cbn [trace]. unfold journal_entries. rewrite <- !app_assoc.
    rewrite !omap_app. cbn. by rewrite !app_nil_r.
Qed.

(** A natural: the command draws and then applies a single delta of the
    net result, which it journals. *)
Lemma blackjack_natural_net (w : World)
  (guild_id discord_id bet have : Z) (rest : list Card) (p1 p2 d1 d2 : Card) :
  eligible w guild_id discord_id bet have ->
  0 < bet <= 5000 ->
  card_value [p1; p2] = 21 ->
  let net := if card_value [d1; d2] =? 21 then 0
             else blackjack_winnings bet - bet in
  exists w1,
    blackjack guild_id discord_id bet (rest ++ [d2; d1; p2; p1]) w
    = (Ret None, w1)
    /\ net_after_draw guild_id discord_id net w w1
    /\ map ev_amount (journal_entries (trace w1))
       = map ev_amount (journal_entries (trace w)) ++ [net].
Proof.
  intros (Hup & Hprem & (doc & Hdoc & Hbal) & Hcover) Hbet Hnat.
  destruct w as [eco evs locks prem fs tr]. cbn in Hup, Hprem, Hdoc.
  destruct doc as [bal te ts]. cbn in Hbal. subst fs bal. cbv zeta.
  unfold blackjack, net_after_draw.
  destruct (card_value [d1; d2] =? 21) eqn:Hdealer;
    [|destruct (blackjack_winnings bet - bet >? 0) eqn:Hsign];
    (eexists; split;
     [ pass_checks Hprem Hdoc; deal rest d2 d1 p2 p1;
       rewrite Hnat, Hdealer; cbn [Z.eqb Pos.eqb]; run_doc;
       rewrite ?Hsign; cbn [Z.gtb Z.compare]; run_doc;
       rewrite Hdoc; cbn [default]; reflexivity
     | split; steps_simpl; reflexivity ]).
Qed.

(** Stand on a live session with a working store: one delta of the net
    result, by the outcome. *)
Lemma stand_net_delta (v : BlackjackView.View) (w : World)
  (rest dealer : list Card) :
  BlackjackView.game_over v = false ->
  faults w = [] ->
  BlackjackView.dealer_loop (reverse (BlackjackView.deck v))
    (BlackjackView.dealer_cards v) = (Ret tt, (rest, dealer)) ->
  let bet := BlackjackView.bet v in
  let player_value := card_value (BlackjackView.player_cards v) in
  let dealer_value := card_value dealer in
  let net := if dealer_value >? 21 then bet
             else if player_value >? dealer_value then bet
             else if dealer_value >? player_value then - bet
             else 0 in
  exists v' w',
    BlackjackView.stand_button (v, w) = (Ret tt, (v', w'))
    /\ BlackjackView.game_over v' = true
    /\ money_steps (trace w')
       = money_steps (trace w)
           ++ [LedgerDelta (BlackjackView.guild_id v)
                 (BlackjackView.discord_id v) net]
    /\ map ev_amount (journal_entries (trace w'))
       = map ev_amount (journal_entries (trace w)) ++ [net].
Proof.
  intros Hlive Hup Hloop. cbv zeta.
  unfold BlackjackView.stand_button, BlackjackView.dealer_plays, bind, gets.
  cbv beta iota delta [fst snd]. rewrite Hlive, Hloop.
  cbv beta iota delta [fst snd]. unfold BlackjackView.on_view.
  cbv beta iota delta [fst snd].
  destruct v as [dk pc dc b g d over]. view_simpl.
  change BlackjackView.card_value with card_value.
  repeat match goal with
         | |- context [if ?c then _ else _] => destruct c
         end;
    match goal with
    | |- context [BlackjackView.end_game ?r ?n (?v', w)] =>
        destruct (end_game_single_net_delta w v' r n Hup)
          as (w' & E & Hm & Hj)
    end;
    rewrite E; eexists _, w'; (split; [reflexivity|]);
    (split; [reflexivity|]); (split; [exact Hm | exact Hj]).
Qed.

(** Hit on a live session with a working store: a hand above 21 loses
    the stake by one delta; otherwise no delta is applied. *)
Lemma hit_net_delta (v : BlackjackView.View) (w : World) (card : Card)
  (rest : list Card) :
  BlackjackView.game_over v = false ->
  faults w = [] ->
  BlackjackView.dealer_cards v <> [] ->
  pop (BlackjackView.deck v) = Some (card, rest) ->
  let bust := 21 <? card_value (BlackjackView.player_cards v ++ [card]) in
  exists v' w',
    BlackjackView.hit_button (v, w) = (Ret tt, (v', w'))
    /\ BlackjackView.game_over v' = bust
    /\ money_steps (trace w')
       = money_steps (trace w)
           ++ (if bust
               then [LedgerDelta (BlackjackView.guild_id v)
                       (BlackjackView.discord_id v)
                       (- BlackjackView.bet v)]
               else [])
    /\ map ev_amount (journal_entries (trace w'))
       = map ev_amount (journal_entries (trace w))
           ++ (if bust then [- BlackjackView.bet v] else []).
Proof.
  intros Hlive Hup Hdealer Hpop. cbv zeta.
  unfold BlackjackView.hit_button, BlackjackView.deck_pop, bind, gets.
  cbv beta iota delta [fst snd]. rewrite Hlive, Hpop.
  unfold raise, ret, modify, bind; cbv beta iota delta [fst snd].
  unfold BlackjackView.on_view; cbv beta iota delta [fst snd].
  destruct v as [dk pc dc b g d over]. view_simpl. cbn in Hlive. subst over.
  cbn [BlackjackView.dealer_cards] in Hdealer.
  change BlackjackView.card_value with card_value. rewrite Z.gtb_ltb.
  destruct (21 <? card_value (pc ++ [card])) eqn:Hbust.
  - match goal with
    | |- context [BlackjackView.end_game ?r ?n (?v', w)] =>
        destruct (end_game_single_net_delta w v' r n Hup)
          as (w' & E & Hm & Hj)
    end.
    rewrite E. eexists _, w'. view_simpl. split; [reflexivity|].
    split; [reflexivity|]. split; [exact Hm | exact Hj].
  - unfold BlackjackView.dealer_value_hidden. view_simpl.
    destruct dc as [|first dc']; [done|].
    unfold ret, lift, respond, modify, bind; cbv beta iota delta [fst snd].
    eexists _, _. split; [reflexivity|]. view_simpl.
    split; [reflexivity|]. cbn [trace emit].
    unfold money_steps, journal_entries.
    rewrite !omap_app. cbn. rewrite !app_nil_r. done.
Qed.

(** C1, as the code has it, on a store that accepts every call.  A slots
    bet that passes validation and the balance pre-check applies a delta
    of [- bet], then draws, then applies a separate delta of the
    winnings exactly when they are positive.  A roulette bet applies
    nothing before the draw and a single delta of [winnings - bet] after
    it.  A blackjack bet is not debited either: the command draws and,
    on a natural, applies the single delta of the net result; otherwise
    it applies none and hands the session to the player, and the press
    that ends the session applies the single delta: [- bet] when the
    player busts or the dealer is higher, [+ bet] when the dealer busts
    or the player is higher, 0 on a tie.  In every game one journal
    entry of the net result is written. *)
Theorem bet_ledger_deltas (lower : string -> string) (w : World)
  (guild_id discord_id bet have : Z) :
  eligible w guild_id discord_id bet have ->
  0 < bet ->
  (forall reels,
      bet <= 10000 ->
      let winnings := fst (slots_outcome bet reels) in
      exists w',
        slots guild_id discord_id bet reels w = (Ret tt, w')
        /\ debit_then_credit guild_id discord_id bet winnings w w'
        /\ map ev_amount (journal_entries (trace w'))
           = map ev_amount (journal_entries (trace w)) ++ [winnings - bet])
  /\ (forall choice result,
         bet <= 2000 ->
         lower choice ∈ valid_choices ->
         result ∈ spin_options ->
         exists winnings w',
           roulette_winnings bet (lower choice) result = Ret winnings
           /\ roulette lower guild_id discord_id bet choice result w
              = (Ret tt, w')
           /\ net_after_draw guild_id discord_id (winnings - bet) w w'
           /\ map ev_amount (journal_entries (trace w'))
              = map ev_amount (journal_entries (trace w))
                  ++ [winnings - bet])
  /\ (forall rest p1 p2 d1 d2,
         bet <= 5000 ->
         let shuffled := rest ++ [d2; d1; p2; p1] in
         let view := BlackjackView.init rest [p1; p2] [d1; d2] bet guild_id
                       discord_id in
         let natural_net := if card_value [d1; d2] =? 21 then 0
                            else blackjack_winnings bet - bet in
         exists w1,
           if card_value [p1; p2] =? 21 then
             blackjack guild_id discord_id bet shuffled w = (Ret None, w1)
             /\ net_after_draw guild_id discord_id natural_net w w1
             /\ map ev_amount (journal_entries (trace w1))
                = map ev_amount (journal_entries (trace w)) ++ [natural_net]
           else
             blackjack guild_id discord_id bet shuffled w
             = (Ret (Some view), w1)
             /\ money_steps (trace w1) = money_steps (trace w) ++ [Draw]
             /\ journal_entries (trace w1) = journal_entries (trace w)
             /\ faults w1 = []
             /\ forall v w2,
                  BlackjackView.bet v = bet ->
                  BlackjackView.guild_id v = guild_id ->
                  BlackjackView.discord_id v = discord_id ->
                  BlackjackView.game_over v = false ->
                  faults w2 = [] ->
                  (forall remaining dealer,
                      BlackjackView.dealer_loop
                        (reverse (BlackjackView.deck v))
                        (BlackjackView.dealer_cards v)
                      = (Ret tt, (remaining, dealer)) ->
                      let player_value :=
                        card_value (BlackjackView.player_cards v) in
                      let dealer_value := card_value dealer in
                      let net :=
                        if dealer_value >? 21 then bet
                        else if player_value >? dealer_value then bet
                        else if dealer_value >? player_value then - bet
                        else 0 in
                      exists v' w3,
                        BlackjackView.stand_button (v, w2)
                        = (Ret tt, (v', w3))
                        /\ BlackjackView.game_over v' = true
                        /\ money_steps (trace w3)
                           = money_steps (trace w2)
                               ++ [LedgerDelta guild_id discord_id net]
                        /\ map ev_amount (journal_entries (trace w3))
                           = map ev_amount (journal_entries (trace w2))
                               ++ [net])
                  /\ (forall card remaining,
                         BlackjackView.dealer_cards v <> [] ->
                         pop (BlackjackView.deck v)
                         = Some (card, remaining) ->
                         let bust :=
                           21 <? card_value
                                   (BlackjackView.player_cards v ++ [card]) in
                         exists v' w3,
                           BlackjackView.hit_button (v, w2)
                           = (Ret tt, (v', w3))
                           /\ BlackjackView.game_over v' = bust
                           /\ money_steps (trace w3)
                              = money_steps (trace w2)
                                  ++ (if bust
                                      then [LedgerDelta guild_id discord_id
                                              (- bet)]
                                      else [])
                           /\ map ev_amount (journal_entries (trace w3))
                              = map ev_amount (journal_entries (trace w2))
                                  ++ (if bust then [- bet] else []))).
Proof.
  intros Helig Hbet. split; [|split].
  - intros reels Hmax. by apply (slots_debit_then_credit w _ _ _ have).
  - intros choice result Hmax Hchoice Hres.
    by apply (roulette_single_net_delta lower w _ _ _ have).
  - intros rest p1 p2 d1 d2 Hmax. cbv zeta.
    destruct (Z.eqb_spec (card_value [p1; p2]) 21) as [Hnat | Hnat].
    + destruct (blackjack_natural_net w guild_id discord_id bet have rest
                  p1 p2 d1 d2 Helig ltac:(lia) Hnat)
        as (w1 & Hrun & Hsteps & Hjournal).
      by exists w1.
    + destruct (blackjack_awaits_player w guild_id discord_id bet have rest
                  p1 p2 d1 d2 Helig ltac:(lia) Hnat)
        as (w1 & Hrun & Hsteps & Hjournal & Hup1).
      exists w1. split; [exact Hrun|]. split; [exact Hsteps|].
      split; [exact Hjournal|]. split; [exact Hup1|].
      intros v w2 <- <- <- Hlive Hup2. split.
      * intros remaining dealer Hloop.
        exact (stand_net_delta v w2 remaining dealer Hlive Hup2 Hloop).
      * intros card remaining Hdealer Hpop.
        exact (hit_net_delta v w2 card remaining Hlive Hup2 Hdealer Hpop).
Qed.

Lemma bet_ledger_deltas_witness :
  let w := mkWorld {[ (1, 2) := mkWallet (Some 100) (Some 0) (Some 0) ]}
             [] ∅ {[ 1 ]} [] [] in
  let view := BlackjackView.init (take 48 deck)
                [mkCard R9 Diamonds; mkCard R7 Clubs]
                [mkCard R8 Spades; mkCard RK Hearts] 10 1 2 in
  (exists w',
      slots 1 2 10 (Cherry, Cherry, Lemon) w = (Ret tt, w')
      /\ debit_then_credit 1 2 10 20 w w')
  /\ (exists winnings w',
         roulette_winnings 10 "red" "1" = Ret winnings
         /\ roulette ascii_lower 1 2 10 "RED" "1" w = (Ret tt, w')
         /\ net_after_draw 1 2 (winnings - 10) w w')
  /\ (exists w1 v' w3,
         blackjack 1 2 10
           (take 48 deck ++ [mkCard RK Hearts; mkCard R8 Spades;
                             mkCard R7 Clubs; mkCard R9 Diamonds]) w
         = (Ret (Some view), w1)
         /\ money_steps (trace w1) = money_steps (trace w) ++ [Draw]
         /\ BlackjackView.stand_button (view, w1) = (Ret tt, (v', w3))
         /\ money_steps (trace w3)
            = money_steps (trace w1) ++ [LedgerDelta 1 2 (- 10)]).
Proof.
  intros w view.
  destruct (bet_ledger_deltas ascii_lower w 1 2 10 100 eligible_example
              ltac:(lia))
    as (Hslots & Hroulette & Hblackjack).
  split; [|split].
  - destruct (Hslots (Cherry, Cherry, Lemon) ltac:(lia))
      as (w' & Hrun & Hsteps & _).
    exists w'. split; [exact Hrun | exact Hsteps].
  - destruct (Hroulette "RED" "1" ltac:(lia))
      as (winnings & w' & H1 & H2 & H3 & _).
    + apply (bool_decide_unpack _). vm_compute. exact I.
    + apply (bool_decide_unpack _). vm_compute. exact I.
    + exists winnings, w'. split; [exact H1|]. split; [exact H2 | exact H3].
  - destruct (Hblackjack (take 48 deck) (mkCard R9 Diamonds)
                (mkCard R7 Clubs) (mkCard R8 Spades) (mkCard RK Hearts)
                ltac:(lia))
      as (w1 & Hrun & Hsteps & _ & Hup1 & Hsession).
    destruct (Hsession view w1 eq_refl eq_refl eq_refl eq_refl Hup1)
      as [Hstand _].
    destruct (Hstand (reverse (take 48 deck))
                [mkCard R8 Spades; mkCard RK Hearts] eq_refl)
      as (v' & w3 & Hpress & _ & Hdelta & _).
    exists w1, v', w3. split; [exact Hrun|]. split; [exact Hsteps|].
    split; [exact Hpress | exact Hdelta].
Defined.

(** A winning roulette bet of 10 on red: the payout is 20, yet no delta
    of -10 precedes the draw and no delta of +20 follows it; the only
    delta is the net +10. *)
Lemma roulette_applies_no_debit :
  let w := mkWorld {[ (1, 2) := mkWallet (Some 100) (Some 0) (Some 0) ]}
             [] ∅ {[ 1 ]} [] [] in
  eligible w 1 2 10 100
  /\ roulette_winnings 10 (ascii_lower "red") "1" = Ret 20
  /\ exists w',
       roulette ascii_lower 1 2 10 "red" "1" w = (Ret tt, w')
       /\ money_steps (trace w') = [Draw; LedgerDelta 1 2 10]
       /\ ~ debit_then_credit 1 2 10 20 w w'.
Proof.
  cbv zeta. split; [exact eligible_example|]. split; [reflexivity|].
  eexists. split; [vm_compute; reflexivity|].
  split; [reflexivity|]. unfold debit_then_credit. cbn. discriminate.
Qed.

(** * Beyond the claims *)

(** ** Hands *)

Lemma low_points_pos (c : Card) : 1 <= low_points c.
Proof. destruct c as [r s]; destruct r; cbn; lia. Qed.

Lemma hard_total_app (l1 l2 : list Card) :
  hard_total (l1 ++ l2) = hard_total l1 + hard_total l2.
Proof. induction l1 as [|c l1 IH]; cbn [app hard_total]; lia. Qed.

Lemma hard_total_length (cards : list Card) :
  Z.of_nat (length cards) <= hard_total cards.
Proof.
  induction cards as [|c cards IH]; cbn [length hard_total]; [lia|].
  pose proof (low_points_pos c). lia.
Qed.

Lemma card_value_ge_hard (cards : list Card) :
  hard_total cards <= card_value cards.
Proof.
  rewrite card_value_unfold.
  destruct (reduce_aces_spec (count_aces cards)
              (hard_total cards + 10 * Z.of_nat (count_aces cards)))
    as (j & Hj & -> & _ & _).
  lia.
Qed.

(** X1.  A hand is bust exactly when it exceeds 21 with every ace counted as
    1; a bust hand stays bust whatever card is added, so a value of 21 or
    less is only ever reached through values of 21 or less. *)
Theorem card_value_bust (cards : list Card) :
  (21 < card_value cards <-> 21 < hard_total cards)
  /\ (21 < card_value cards ->
      forall more, 21 < card_value (cards ++ more))
  /\ Z.of_nat (length cards) <= card_value cards.
Proof.
  assert (forall cs, 21 < card_value cs <-> 21 < hard_total cs) as Hiff.
  { intros cs. split.
    - rewrite card_value_unfold.
      destruct (reduce_aces_spec (count_aces cs)
                  (hard_total cs + 10 * Z.of_nat (count_aces cs)))
        as (j & Hj & -> & Hb & _).
      destruct Hb as [Hb | ->]; lia.
    - pose proof (card_value_ge_hard cs). lia. }
  split; [apply Hiff|]. split.
  - intros Hbust more. apply Hiff. apply Hiff in Hbust.
    rewrite hard_total_app.
    pose proof (hard_total_length more). lia.
  - pose proof (hard_total_length cards).
    pose proof (card_value_ge_hard cards). lia.
Qed.

(** X2.  The first two cards never bust, and they total 21 exactly when they
    are an ace and a card worth ten, in either order. *)
Theorem two_card_deal (a b : Card) :
  4 <= card_value [a; b] <= 21
  /\ (card_value [a; b] = 21
      <-> (rank a = RA /\ ten_valued b) \/ (ten_valued a /\ rank b = RA)).
Proof.
  destruct a as [ra sa], b as [rb sb]. unfold ten_valued. cbn [rank].
  destruct ra, rb; vm_compute;
    (split; [split; discriminate|]);
    (split; [ try discriminate; intros _; auto 10
            | intros H; try reflexivity; exfalso;
              intuition discriminate ]).
Qed.

(** ** The dealer's turn *)

Lemma view_card_value (cards : list Card) :
  BlackjackView.card_value cards = card_value cards.
Proof. reflexivity. Qed.

(** X3.  The dealer draws from the top of the deck, one card at a time and
    in order, while the hand is below 17: no card is lost or invented,
    every hand on the way was below 17, and the loop ends either with a
    hand of 17 or more or, out of cards, with an [IndexError]. *)
Theorem dealer_loop_spec (top_first dealer : list Card) :
  exists drawn rest,
    top_first = drawn ++ rest
    /\ snd (BlackjackView.dealer_loop top_first dealer)
       = (rest, dealer ++ drawn)
    /\ (forall k, (k < length drawn)%nat ->
                  card_value (dealer ++ take k drawn) < 17)
    /\ match fst (BlackjackView.dealer_loop top_first dealer) with
       | Ret _ => 17 <= card_value (dealer ++ drawn)
       | Raise e =>
           e = IndexError /\ rest = []
           /\ card_value (dealer ++ drawn) < 17
       end.
Proof.
  revert dealer. induction top_first as [|c top IH]; intros dealer.
  - exists [], []. cbn [BlackjackView.dealer_loop].
    rewrite view_card_value.
    destruct (Z.ltb_spec (card_value dealer) 17);
      cbn [fst snd length app]; rewrite !app_nil_r;
      (split; [reflexivity|]); (split; [reflexivity|]);
      (split; [intros k Hk; lia|]); auto.
  - cbn [BlackjackView.dealer_loop]. rewrite view_card_value.
    destruct (Z.ltb_spec (card_value dealer) 17) as [Hlow | Hok].
    + destruct (IH (dealer ++ [c])) as (drawn & rest & Htop & Hsnd & Hpre & Hend).
      exists (c :: drawn), rest. rewrite <- !app_assoc in *.
      cbn [app] in *.
      split; [by rewrite Htop|]. split; [exact Hsnd|].
      split; [|exact Hend].
      intros [|k] Hk; cbn [take length] in *.
      * by rewrite app_nil_r.
      * specialize (Hpre k ltac:(lia)).
        by rewrite <- app_assoc in Hpre.
    + exists [], (c :: top). cbn [fst snd length app]. rewrite !app_nil_r.
      split; [reflexivity|]. split; [reflexivity|].
      split; [intros k Hk; lia|]. exact Hok.
Qed.

(** How the dealer's loop ends: with a hand of 17 or more, or with the
    whole deck drawn and the hand still below 17. *)
Lemma dealer_loop_end (top_first dealer : list Card) :
  match BlackjackView.dealer_loop top_first dealer with
  | (Ret _, (_, final)) => 17 <= card_value final
  | (Raise _, (_, final)) =>
      final = dealer ++ top_first /\ card_value final < 17
  end.
Proof.
  revert dealer. induction top_first as [|c top IH]; intros dealer;
    cbn [BlackjackView.dealer_loop];
    change BlackjackView.card_value with card_value;
    destruct (Z.ltb_spec (card_value dealer) 17) as [Hlow | Hok];
    try exact Hok.
  - by rewrite app_nil_r.
  - specialize (IH (dealer ++ [c])).
    destruct (BlackjackView.dealer_loop top (dealer ++ [c]))
      as [[[]|e] [rest final]]; [exact IH|].
    by rewrite <- app_assoc in IH.
Qed.

(** With seventeen cards between hand and deck the dealer cannot run out:
    every card counts at least 1. *)
Lemma dealer_loop_supplied (top_first dealer : list Card) :
  (17 <= length dealer + length top_first)%nat ->
  fst (BlackjackView.dealer_loop top_first dealer) = Ret tt.
Proof.
  intros Hlen.
  pose proof (dealer_loop_end top_first dealer) as Hend.
  destruct (BlackjackView.dealer_loop top_first dealer)
    as [[[]|e] [rest dealer']]; [reflexivity|].
  destruct Hend as [-> Hlow].
  pose proof (hard_total_length (dealer ++ top_first)) as Hc.
  pose proof (card_value_ge_hard (dealer ++ top_first)).
  rewrite length_app in Hc. lia.
Qed.

(** ** Hit and Stand on a live session *)

(** X4.  Stand on a live session, with a working store and a dealer who does
    not run out of cards: the dealer's loop fixes the final hands, the
    game is over, and exactly one ledger delta and one journal entry of
    the net result are produced: [+ bet] when the dealer busts or the
    player is higher, [- bet] when the dealer is higher, 0 on a tie. *)
Theorem stand_settles (v : BlackjackView.View) (w : World)
  (rest dealer : list Card) :
  BlackjackView.game_over v = false ->
  faults w = [] ->
  BlackjackView.dealer_loop (reverse (BlackjackView.deck v))
    (BlackjackView.dealer_cards v) = (Ret tt, (rest, dealer)) ->
  let net := snd (stand_outcome (BlackjackView.bet v)
                    (card_value (BlackjackView.player_cards v))
                    (card_value dealer)) in
  let v' := BlackjackView.set_game_over true
              (BlackjackView.set_dealer_cards dealer
                 (BlackjackView.set_deck (reverse rest) v)) in
  17 <= card_value dealer
  /\ exists w',
       BlackjackView.stand_button (v, w) = (Ret tt, (v', w'))
       /\ money_steps (trace w')
          = money_steps (trace w)
              ++ [LedgerDelta (BlackjackView.guild_id v)
                    (BlackjackView.discord_id v) net]
       /\ map ev_amount (journal_entries (trace w'))
          = map ev_amount (journal_entries (trace w)) ++ [net].
Proof.
  intros Hlive Hup Hloop. cbv zeta. split.
  { pose proof (dealer_loop_end (reverse (BlackjackView.deck v))
                  (BlackjackView.dealer_cards v)) as Hend.
    by rewrite Hloop in Hend. }
  unfold BlackjackView.stand_button, BlackjackView.dealer_plays, bind, gets.
  cbv beta iota delta [fst snd]. rewrite Hlive, Hloop.
  cbv beta iota delta [fst snd]. unfold BlackjackView.on_view.
  cbv beta iota delta [fst snd].
  destruct v as [dk pc dc b g d over]. view_simpl.
  change BlackjackView.card_value with card_value. unfold stand_outcome.
  repeat match goal with
         | |- context [if ?c then _ else _] => destruct c
         end; cbn [snd];
    match goal with
    | |- context [BlackjackView.end_game ?r ?n (?v', w)] =>
        destruct (end_game_single_net_delta w v' r n Hup)
          as (w' & E & Hm & Hj)
    end;
    rewrite E; exists w'; (split; [reflexivity|]);
    (split; [exact Hm | exact Hj]).
Qed.

(** X5.  Hit on a live session with a working store: the top card of the
    deck moves to the player's hand.  When the hand is now above 21 the
    game is over and the stake is lost by one ledger delta of [- bet],
    journalled once; otherwise the session stays live and neither ledger
    nor journal is touched.  On an empty deck nothing changes and an
    [IndexError] escapes. *)
Theorem hit_draws_one_card (v : BlackjackView.View) (w : World) :
  BlackjackView.game_over v = false ->
  faults w = [] ->
  BlackjackView.dealer_cards v <> [] ->
  match pop (BlackjackView.deck v) with
  | None => BlackjackView.hit_button (v, w) = (Raise IndexError, (v, w))
  | Some (card, rest) =>
      let hand := BlackjackView.player_cards v ++ [card] in
      let v1 := BlackjackView.set_player_cards hand
                  (BlackjackView.set_deck rest v) in
      exists w',
        BlackjackView.hit_button (v, w)
        = (Ret tt, (BlackjackView.set_game_over (21 <? card_value hand) v1,
                    w'))
        /\ money_steps (trace w')
           = money_steps (trace w)
               ++ (if 21 <? card_value hand
                   then [LedgerDelta (BlackjackView.guild_id v)
                           (BlackjackView.discord_id v)
                           (- BlackjackView.bet v)]
                   else [])
        /\ map ev_amount (journal_entries (trace w'))
           = map ev_amount (journal_entries (trace w))
               ++ (if 21 <? card_value hand
                   then [- BlackjackView.bet v] else [])
  end.
Proof.
  intros Hlive Hup Hdealer.
  unfold BlackjackView.hit_button, BlackjackView.deck_pop, bind, gets.
  cbv beta iota delta [fst snd]. rewrite Hlive.
  destruct (pop (BlackjackView.deck v)) as [[card rest]|];
    unfold raise, ret, modify, bind; cbv beta iota delta [fst snd];
    [|reflexivity].
  unfold BlackjackView.on_view; cbv beta iota delta [fst snd].
  destruct v as [dk pc dc b g d over]. view_simpl. cbn in Hlive. subst over.
  cbn [BlackjackView.dealer_cards] in Hdealer.
  change BlackjackView.card_value with card_value. rewrite Z.gtb_ltb.
  destruct (21 <? card_value (pc ++ [card])) eqn:Hbust.
  - match goal with
    | |- context [BlackjackView.end_game ?r ?n (?v', w)] =>
        destruct (end_game_single_net_delta w v' r n Hup)
          as (w' & E & Hm & Hj)
    end.
    rewrite E. exists w'. view_simpl. split; [reflexivity|].
    split; [exact Hm | exact Hj].
  - unfold BlackjackView.dealer_value_hidden. view_simpl.
    destruct dc as [|first dc']; [done|].
    unfold ret, lift, respond, modify, bind; cbv beta iota delta [fst snd].
    eexists. split; [reflexivity|]. cbn [trace emit].
    unfold money_steps, journal_entries.
    rewrite !omap_app. cbn. rewrite !app_nil_r. done.
Qed.
(** ** The supply of cards *)

Lemma pop_length {A} (l : list A) :
  match pop l with
  | Some (_, rest) => length l = S (length rest)
  | None => l = []
  end.
Proof.
  destruct l as [|x l] using rev_ind; [reflexivity|].
  rewrite pop_snoc, length_app. cbn. lia.
Qed.

Lemma get_wallet_raises (guild_id discord_id : Z) (w : World) (e : exn) :
  fst (get_wallet guild_id discord_id w) = Raise e -> e = StoreError.
Proof.
  destruct w as [eco evs locks prem fs tr].
  destruct fs as [|[|] [|[|] fs]]; run;
    destruct (eco !! (guild_id, discord_id)); cbn; congruence.
Qed.

(** [end_game] may let a store failure escape, never a lack of cards,
    and it always leaves the game over. *)
Lemma end_game_outcome (result_text : BlackjackStatus) (net_result : Z)
  (v : BlackjackView.View) (w : World) :
  fst (BlackjackView.end_game result_text net_result (v, w))
  <> Raise IndexError
  /\ fst (snd (BlackjackView.end_game result_text net_result (v, w)))
     = BlackjackView.set_game_over true v.
Proof.
  unfold BlackjackView.end_game, bind, modify, gets, lift.
  cbv beta iota delta [fst snd]. unfold BlackjackView.on_view.
  cbv beta iota delta [fst snd].
  destruct (update_wallet_effect
              (BlackjackView.guild_id (BlackjackView.set_game_over true v))
              (BlackjackView.discord_id (BlackjackView.set_game_over true v))
              net_result "gambling_blackjack" w)
    as (b & w1 & E1 & _ & _).
  rewrite E1. cbv beta iota delta [fst snd].
  destruct b; cbv beta iota delta [fst snd]; [|done].
  match goal with
  | |- context [add_wallet_event ?g ?d ?a ?t ?ds w1] =>
      destruct (add_wallet_event_effect g d a t ds w1)
        as (w2 & l & E2 & _ & _ & _)
  end.
  rewrite E2. cbv beta iota delta [fst snd].
  match goal with
  | |- context [get_wallet ?g ?d w2] =>
      pose proof (get_wallet_raises g d w2) as Hraise;
      destruct (get_wallet g d w2) as [[wallet | e] w3]
  end; cbv beta iota delta [fst snd].
  - unfold get_balance. destruct (balance wallet); unfold ret, raise;
      cbv beta iota delta [fst snd]; done.
  - cbn [fst] in Hraise. rewrite (Hraise e eq_refl). done.
Qed.

Lemma two_cards_fit (a b : Card) : card_value [a; b] <= 21.
Proof.
  destruct a as [ra sa], b as [rb sb]; destruct ra, rb; vm_compute;
    discriminate.
Qed.

(** One press keeps a view dealt from a full deck that way, and does
    not fail for lack of cards. *)
Lemma press_supplied (a : Action) (v : BlackjackView.View) (w : World) :
  dealt_from_full_deck v ->
  fst (press a (v, w)) <> Raise IndexError
  /\ dealt_from_full_deck (fst (snd (press a (v, w)))).
Proof.
  intros Hinv.
  destruct (BlackjackView.game_over v) eqn:Hstate.
  { rewrite press_terminal by done. by split. }
  destruct (Hinv Hstate) as (Hdealer & Hcards & Hfit).
  pose proof (hard_total_length (BlackjackView.player_cards v)) as Hlen.
  pose proof (card_value_ge_hard (BlackjackView.player_cards v)) as Hge.
  destruct a; unfold press.
  - unfold BlackjackView.hit_button, BlackjackView.deck_pop, bind, gets.
    cbv beta iota delta [fst snd]. rewrite Hstate.
    pose proof (pop_length (BlackjackView.deck v)) as Hpop.
    destruct (pop (BlackjackView.deck v)) as [[card rest]|];
      [|rewrite Hpop in Hcards; cbn in Hcards; lia].
    unfold raise, ret, modify, bind; cbv beta iota delta [fst snd].
    unfold BlackjackView.on_view; cbv beta iota delta [fst snd].
    destruct v as [dk pc dc b g d over]. view_simpl. cbn in *.
    change BlackjackView.card_value with card_value.
    destruct (Z.gtb_spec (card_value (pc ++ [card])) 21) as [Hbust | Hok].
    + match goal with
      | |- context [BlackjackView.end_game ?r ?n (?v', w)] =>
          destruct (end_game_outcome r n v' w) as [Hres Hview]
      end.
      destruct (BlackjackView.end_game _ _ _) as [res [v2 w2]].
      cbn [fst snd] in Hres, Hview |- *. subst v2.
      split; [exact Hres|]. intros Hlive. discriminate.
    + unfold BlackjackView.dealer_value_hidden. view_simpl.
      destruct dc as [|first dc']; [discriminate|].
      unfold ret, lift, respond, modify, bind; cbv beta iota delta [fst snd].
      split; [done|]. intros _. view_simpl.
      rewrite length_app. cbn [length]. repeat split; [done | lia | lia].
  - unfold BlackjackView.stand_button, BlackjackView.dealer_plays, bind, gets.
    cbv beta iota delta [fst snd]. rewrite Hstate.
    pose proof (dealer_loop_supplied (reverse (BlackjackView.deck v))
                  (BlackjackView.dealer_cards v)) as Hloop.
    rewrite length_reverse in Hloop.
    destruct (BlackjackView.dealer_loop (reverse (BlackjackView.deck v))
                (BlackjackView.dealer_cards v)) as [r [top dealer]].
    cbn [fst] in Hloop. rewrite Hloop by lia.
    unfold BlackjackView.on_view; cbv beta iota delta [fst snd].
    repeat match goal with
           | |- context [if ?c then _ else _] => destruct c
           end;
      match goal with
      | |- context [BlackjackView.end_game ?r ?n (?v', w)] =>
          destruct (end_game_outcome r n v' w) as [Hres Hview]
      end;
      destruct (BlackjackView.end_game _ _ _) as [res [v2 w2]];
      cbn [fst snd] in Hres, Hview |- *; subst v2;
      (split; [exact Hres|]); intros Hlive; discriminate.
Qed.

(** X6.  A session dealt from a deck of 52 cards never runs out of cards:
    the view [Gambling.blackjack] creates is dealt from a full deck,
    every sequence of Hit and Stand keeps it so, and no press fails with
    an [IndexError], whatever the store does. *)
Theorem cards_never_run_out (rest : list Card) (p1 p2 d1 d2 : Card)
  (bet guild_id discord_id : Z) (w : World) (actions : list Action) :
  length (rest ++ [d2; d1; p2; p1]) = 52%nat ->
  let view := BlackjackView.init rest [p1; p2] [d1; d2] bet guild_id
                discord_id in
  dealt_from_full_deck view
  /\ dealt_from_full_deck (fst (presses actions (view, w)))
  /\ forall a, fst (press a (presses actions (view, w))) <> Raise IndexError.
Proof.
  intros Hlen view.
  assert (dealt_from_full_deck view) as Hinit.
  { intros _. cbn. rewrite length_app in Hlen. cbn in Hlen.
    split; [done|]. split; [lia | apply two_cards_fit]. }
  split; [exact Hinit|].
  assert (forall acts v w0, dealt_from_full_deck v ->
            dealt_from_full_deck (fst (presses acts (v, w0)))) as Hkeep.
  { induction acts as [|a acts IH]; intros v w0 Hv; [exact Hv|].
    cbn [presses].
    destruct (press_supplied a v w0 Hv) as [_ Hnext].
    destruct (press a (v, w0)) as [r [v' w']]. cbn [fst snd] in *.
    by apply IH. }
  split; [by apply Hkeep|].
  intros a. specialize (Hkeep actions view w Hinit).
  destruct (presses actions (view, w)) as [v' w'].
  by apply press_supplied.
Qed.
Lemma stand_settles_witness :
  let w := mkWorld {[ (1, 2) := mkWallet (Some 100) (Some 0) (Some 0) ]}
             [] ∅ {[ 1 ]} [] [] in
  let v := BlackjackView.init [mkCard R5 Hearts; mkCard R3 Hearts]
             [mkCard RK Spades; mkCard R9 Spades]
             [mkCard R10 Clubs; mkCard R8 Clubs] 10 1 2 in
  exists w',
    BlackjackView.stand_button (v, w)
    = (Ret tt, (BlackjackView.set_game_over true v, w'))
    /\ money_steps (trace w') = [LedgerDelta 1 2 10].
Proof.
  intros w v.
  destruct (stand_settles v w [mkCard R3 Hearts; mkCard R5 Hearts]
              [mkCard R10 Clubs; mkCard R8 Clubs]
              eq_refl eq_refl eq_refl)
    as (_ & w' & Hrun & Hsteps & _).
  exists w'. split; [exact Hrun | exact Hsteps].
Defined.

Lemma hit_draws_one_card_witness :
  let w := mkWorld {[ (1, 2) := mkWallet (Some 100) (Some 0) (Some 0) ]}
             [] ∅ {[ 1 ]} [] [] in
  let v := BlackjackView.init [mkCard R5 Hearts; mkCard R3 Hearts]
             [mkCard RK Spades; mkCard R9 Spades]
             [mkCard R10 Clubs; mkCard R8 Clubs] 10 1 2 in
  exists w',
    BlackjackView.hit_button (v, w)
    = (Ret tt,
       (BlackjackView.mkView [mkCard R5 Hearts]
          [mkCard RK Spades; mkCard R9 Spades; mkCard R3 Hearts]
          [mkCard R10 Clubs; mkCard R8 Clubs] 10 1 2 true, w'))
    /\ money_steps (trace w') = [LedgerDelta 1 2 (-10)].
Proof.
  intros w v.
  pose proof (hit_draws_one_card v w eq_refl eq_refl) as Hhit.
  cbn [BlackjackView.dealer_cards BlackjackView.deck v BlackjackView.init]
    in Hhit.
  destruct (Hhit ltac:(discriminate)) as (w' & Hrun & Hsteps & _).
  exists w'. split; [exact Hrun | exact Hsteps].
Defined.

Lemma cards_never_run_out_witness :
  let w := mkWorld ∅ [] ∅ ∅ [true; true] [] in
  let view := BlackjackView.init (take 48 deck)
                [mkCard RK Clubs; mkCard RQ Clubs]
                [mkCard RJ Clubs; mkCard R10 Clubs] 10 1 2 in
  fst (press Hit (presses [Hit; Hit; Stand] (view, w))) <> Raise IndexError
  /\ fst (press Stand (presses [Hit; Hit; Stand] (view, w)))
     <> Raise IndexError.
Proof.
  intros w view.
  split;
    apply (cards_never_run_out (take 48 deck)
             (mkCard RK Clubs) (mkCard RQ Clubs)
             (mkCard RJ Clubs) (mkCard R10 Clubs) 10 1 2 w
             [Hit; Hit; Stand]);
    reflexivity.
Defined.

(** ** The ledger under any schedule of store faults *)

(** [update_wallet] never raises: it returns [True] when the store call
    goes through, and then the document is incremented in full; it
    returns [False] when the call fails, and then no document changed. *)
Lemma update_wallet_total (guild_id discord_id amount : Z)
  (transaction_type : string) (w : World) :
  let ok := negb (default false (head (faults w))) in
  exists w',
    update_wallet guild_id discord_id amount transaction_type w = (Ret ok, w')
    /\ faults w' = tail (faults w)
    /\ economy w'
       = if ok
         then <[(guild_id, discord_id) :=
                  apply_inc (inc_updates_of amount)
                    (default upserted
                       (economy w !! (guild_id, discord_id)))]> (economy w)
         else economy w.
Proof.
  destruct w as [eco evs locks prem fs tr].
  destruct fs as [|[|] fs]; run; unfold inc_updates_of;
    destruct (amount >? 0); run; cbn;
    eexists; (split; [reflexivity|]); cbn; done.
Qed.

Lemma wallet_field_updated (f : Wallet -> option Z) (w w' : World)
  (guild_id discord_id : Z) (doc : Wallet) :
  economy w' = <[(guild_id, discord_id) := doc]> (economy w) ->
  wallet_field f w' guild_id discord_id = default 0 (f doc).
Proof.
  intros Heco. unfold wallet_field. by rewrite Heco, lookup_insert_eq.
Qed.

(** X7.  No update is lost or half applied: after any series of
    [update_wallet] calls on one account, under any schedule of store
    faults, the calls that went through are exactly those the store let
    through; the balance has grown by the sum of their amounts,
    total_earned by the sum of the positive ones and total_spent by the
    sum of the absolute values of the others; every other account is
    untouched. *)
Theorem update_wallet_accounting (guild_id discord_id : Z)
  (transaction_type : string) (amounts : list Z) (w : World) :
  let oks := acks (length amounts) (faults w) in
  exists w',
    update_all guild_id discord_id transaction_type amounts w = (Ret oks, w')
    /\ wallet_field balance w' guild_id discord_id
       = wallet_field balance w guild_id discord_id
         + sum_applied id amounts oks
    /\ wallet_field total_earned w' guild_id discord_id
       = wallet_field total_earned w guild_id discord_id
         + sum_applied earned_part amounts oks
    /\ wallet_field total_spent w' guild_id discord_id
       = wallet_field total_spent w guild_id discord_id
         + sum_applied spent_part amounts oks
    /\ forall key, key <> (guild_id, discord_id) ->
                   economy w' !! key = economy w !! key.
Proof.
  revert w. induction amounts as [|amount rest IH]; intros w; cbv zeta.
  { exists w. cbn. split; [reflexivity|].
    split; [lia|]. split; [lia|]. split; [lia|]. done. }
  destruct (update_wallet_total guild_id discord_id amount transaction_type w)
    as (w1 & Hrun & Hfaults & Heco).
  destruct (IH w1) as (w' & Hrest & Hbal & Hearn & Hspent & Hframe).
  exists w'. cbn [update_all length]. unfold bind at 1. rewrite Hrun.
  unfold bind at 1. rewrite Hrest. unfold ret.
  rewrite Hfaults in *.
  assert (acks (S (length rest)) (faults w)
          = negb (default false (head (faults w)))
            :: acks (length rest) (tail (faults w))) as Hacks.
  { destruct (faults w) as [|f fs]; reflexivity. }
  rewrite Hacks. split; [reflexivity|].
  cbn [sum_applied]. rewrite Hbal, Hearn, Hspent.
  destruct (negb (default false (head (faults w)))).
  - unfold wallet_field at 1 3 5. rewrite Heco, lookup_insert_eq.
    unfold wallet_field.
    destruct (economy w !! (guild_id, discord_id)) as [[[b|] [e|] [s|]]|];
      unfold inc_updates_of, earned_part, spent_part, id;
      destruct (amount >? 0); cbn;
      (split; [lia|]); (split; [lia|]); (split; [lia|]);
      intros key Hkey; rewrite Hframe, Heco by done;
      by rewrite lookup_insert_ne.
  - unfold wallet_field in *. rewrite Heco.
    split; [lia|]. split; [lia|]. split; [lia|].
    intros key Hkey. by rewrite Hframe, Heco.
Qed.
(** X8.  Reading a wallet twice: the first read of an account the store has
    never seen creates the zero wallet, the second finds it and creates
    nothing; a wallet that exists is returned as it is and the world is
    left alone. *)
Theorem get_wallet_creates_once (guild_id discord_id : Z) (w : World) :
  faults w = [] ->
  exists doc w1,
    get_wallet guild_id discord_id w = (Ret doc, w1)
    /\ get_wallet guild_id discord_id w1 = (Ret doc, w1)
    /\ economy w1 !! (guild_id, discord_id) = Some doc
    /\ match economy w !! (guild_id, discord_id) with
       | None =>
           doc = mkWallet (Some 0) (Some 0) (Some 0)
           /\ trace w1 = trace w ++ [WalletCreated guild_id discord_id]
       | Some found => doc = found /\ w1 = w
       end
    /\ forall key, key <> (guild_id, discord_id) ->
                   economy w1 !! key = economy w !! key.
Proof.
  intros Hup.
  destruct (economy w !! (guild_id, discord_id)) as [found|] eqn:Hdoc.
  - exists found, w. rewrite (get_wallet_found w _ _ Hup found Hdoc).
    repeat split; done.
  - eexists _, _. rewrite (get_wallet_created w _ _ Hup Hdoc).
    split; [reflexivity|].
    split; [apply get_wallet_found; [exact Hup | apply lookup_insert_eq]|].
    split; [apply lookup_insert_eq|]. split; [done|].
    intros key Hkey. cbn. by rewrite lookup_insert_ne.
Qed.

Lemma get_wallet_creates_once_witness :
  let w := mkWorld ∅ [] ∅ ∅ [] [] in
  exists doc w1,
    get_wallet 1 2 w = (Ret doc, w1)
    /\ get_wallet 1 2 w1 = (Ret doc, w1)
    /\ economy w1 !! (1, 2) = Some doc.
Proof.
  intros w.
  destruct (get_wallet_creates_once 1 2 w eq_refl)
    as (doc & w1 & H1 & H2 & H3 & _).
  exists doc, w1. split; [exact H1|]. split; [exact H2 | exact H3].
Defined.

(** X9.  Whatever the store does, [get_wallet] never alters a wallet that
    exists: the documents are as before, or the account was missing and
    now has the zero wallet.  A store failure is not caught: it escapes
    as it is, and then no document was created. *)
Theorem get_wallet_never_alters (guild_id discord_id : Z) (w : World) :
  let r := fst (get_wallet guild_id discord_id w) in
  let w' := snd (get_wallet guild_id discord_id w) in
  (economy w' = economy w
   \/ (economy w !! (guild_id, discord_id) = None
       /\ r = Ret (mkWallet (Some 0) (Some 0) (Some 0))
       /\ economy w'
          = <[(guild_id, discord_id) := mkWallet (Some 0) (Some 0) (Some 0)]>
              (economy w)))
  /\ (forall e, r = Raise e -> e = StoreError /\ economy w' = economy w)
  /\ (forall doc, economy w !! (guild_id, discord_id) = Some doc ->
                  r = Ret doc \/ r = Raise StoreError)
  /\ ledger_deltas (trace w') = ledger_deltas (trace w).
Proof.
  destruct w as [eco evs locks prem fs tr]. cbv zeta.
  destruct fs as [|[|] [|[|] fs]]; run;
    destruct (eco !! (guild_id, discord_id)) as [found|] eqn:Hdoc; cbn;
    (split; [first [by left | by right]|]);
    (split; [intros e He; first [discriminate He | by injection He as <-]|]);
    (split; [intros doc Hfound;
             first [discriminate Hfound
                   | injection Hfound as <-; by left | by right]|]);
    trace_simpl; done.
Qed.

(** ** Rejections *)


(** X11.  A stake the wallet does not cover: the lock is taken, the wallet is
    read (and created with a zero balance when the account was never
    seen), the shortfall is reported and the lock released; no ledger
    delta is applied and no journal entry is written. *)
Theorem insufficient_funds_rejected (lower : string -> string) (w : World)
  (guild_id discord_id bet have : Z) (i : GameInput) :
  faults w = [] ->
  guild_id ∈ premium w ->
  0 < bet <= ceiling (game_of i) ->
  choice_recognized lower i ->
  match economy w !! (guild_id, discord_id) with
  | None => have = 0
  | Some doc => balance doc = Some have
  end ->
  have < bet ->
  let created :=
    match economy w !! (guild_id, discord_id) with
    | None => [WalletCreated guild_id discord_id]
    | Some _ => []
    end in
  exists w',
    play lower guild_id discord_id bet i w = (Ret tt, w')
    /\ trace w'
       = trace w
           ++ [LockAcquire (guild_id, discord_id)] ++ created
           ++ [Respond (InsufficientFunds have bet);
               LockRelease (guild_id, discord_id)]
    /\ wallet_events w' = wallet_events w
    /\ wallet_field balance w' guild_id discord_id = have
    /\ forall key, key <> (guild_id, discord_id) ->
                   economy w' !! key = economy w !! key.
Proof.
  intros Hup Hprem Hbet Hchoice Hdoc Hshort.
  destruct w as [eco evs locks prem fs tr]. cbn in Hup, Hprem, Hdoc.
  subst fs. cbv zeta. cbn [economy trace wallet_events].
  unfold wallet_field. cbn [economy].
  destruct i as [reels | shuffled | choice result]; cbn in Hbet, Hchoice;
    unfold play, slots, blackjack, roulette;
    destruct (eco !! (guild_id, discord_id)) as [[bal te ts]|] eqn:Hlook;
    cbn in Hdoc; subst;
    (eexists; split;
     [ run; rewrite bool_decide_eq_true_2 by exact Hprem; cbn [negb];
       rewrite (proj2 (Z.leb_gt bet 0)) by lia;
       match goal with
       | |- context [bet >? ?c] =>
           rewrite (Z.gtb_ltb bet c), (proj2 (Z.ltb_ge c bet)) by lia
       end;
       run; rewrite ?bool_decide_eq_true_2 by assumption; cbn [negb];
       run; rewrite Hlook; run; cbv beta iota delta [balance];
       match goal with
       | |- context [?h <? bet] => rewrite (proj2 (Z.ltb_lt h bet)) by lia
       end;
       run; reflexivity
     | cbn; rewrite <- ?app_assoc; cbn;
       rewrite ?lookup_insert_eq, ?Hlook; cbn;
       (split; [reflexivity|]); (split; [reflexivity|]);
       (split; [reflexivity|]);
       intros key Hkey; by rewrite ?lookup_insert_ne ]).
Qed.
Lemma insufficient_funds_rejected_witness :
  let w := mkWorld ∅ [] ∅ {[ 1 ]} [] [] in
  exists w',
    play ascii_lower 1 2 50 (RouletteInput "Red" "7") w = (Ret tt, w')
    /\ trace w'
       = [LockAcquire (1, 2); WalletCreated 1 2;
          Respond (InsufficientFunds 0 50); LockRelease (1, 2)].
Proof.
  intros w.
  destruct (insufficient_funds_rejected ascii_lower w 1 2 50 0
              (RouletteInput "Red" "7"))
    as (w' & Hrun & Htrace & _).
  - reflexivity.
  - apply (bool_decide_unpack _). vm_compute. exact I.
  - cbn. lia.
  - unfold choice_recognized.
    apply (bool_decide_unpack _). vm_compute. exact I.
  - reflexivity.
  - lia.
  - exists w'. split; [exact Hrun | exact Htrace].
Defined.

(** ** Settlement *)

Lemma slots_outcome_nonneg (bet : Z) (reels : Symbol * Symbol * Symbol) :
  0 < bet -> 0 <= fst (slots_outcome bet reels).
Proof.
  intros Hbet. destruct reels as [[r0 r1] r2]. unfold slots_outcome.
  repeat match goal with
         | |- context [if ?c then _ else _] => destruct c
         end; cbn [fst]; lia.
Qed.

(** X12.  A slots bet that is played, with a working store: the balance ends
    at [have - bet + winnings], which is never negative; total_spent has
    grown by the stake and total_earned by the winnings; the reply shows
    that balance; the account's lock is registered and released, and no
    other account is touched. *)
Theorem slots_settles_wallet (w : World) (guild_id discord_id bet have : Z)
  (reels : Symbol * Symbol * Symbol) :
  eligible w guild_id discord_id bet have ->
  0 < bet <= 10000 ->
  let winnings := fst (slots_outcome bet reels) in
  let win := snd (slots_outcome bet reels) in
  exists w',
    slots guild_id discord_id bet reels w = (Ret tt, w')
    /\ wallet_field balance w' guild_id discord_id = have - bet + winnings
    /\ 0 <= have - bet + winnings
    /\ wallet_field total_spent w' guild_id discord_id
       = wallet_field total_spent w guild_id discord_id + bet
    /\ wallet_field total_earned w' guild_id discord_id
       = wallet_field total_earned w guild_id discord_id + winnings
    /\ last (trace w') = Some (LockRelease (guild_id, discord_id))
    /\ Respond (SlotsResult win (if win then winnings else 0) bet
                  (have - bet + winnings)) ∈ trace w'
    /\ user_locks w' = {[ (guild_id, discord_id) ]} ∪ user_locks w
    /\ forall key, key <> (guild_id, discord_id) ->
                   economy w' !! key = economy w !! key.
Proof.
  intros (Hup & Hprem & (doc & Hdoc & Hbal) & Hcover) Hbet.
  pose proof (slots_outcome_nonneg bet reels ltac:(lia)) as Hnonneg.
  destruct w as [eco evs locks prem fs tr]. cbn in Hup, Hprem, Hdoc.
  destruct doc as [bal [te|] [ts|]]; cbn in Hbal; subst fs bal; cbv zeta;
    unfold slots, wallet_field; cbn [economy]; rewrite Hdoc;
    destruct (slots_outcome bet reels) as [winnings win];
    cbn [fst snd] in *;
    destruct (winnings >? 0) eqn:Hw; pose proof Hw as Hw';
    [ apply Z.gtb_lt in Hw' | rewrite Z.gtb_ltb in Hw'; apply Z.ltb_ge in Hw'
    | apply Z.gtb_lt in Hw' | rewrite Z.gtb_ltb in Hw'; apply Z.ltb_ge in Hw'
    | apply Z.gtb_lt in Hw' | rewrite Z.gtb_ltb in Hw'; apply Z.ltb_ge in Hw'
    | apply Z.gtb_lt in Hw' | rewrite Z.gtb_ltb in Hw'; apply Z.ltb_ge in Hw' ];
    (eexists; split;
     [ pass_checks Hprem Hdoc;
       rewrite (Z.gtb_ltb (- bet) 0), (proj2 (Z.ltb_ge 0 (- bet))) by lia;
       run_doc; rewrite ?Hw; run_doc; rewrite ?Hw; run_doc;
       reflexivity
     | cbn; rewrite ?lookup_insert_eq; cbn; rewrite ?Hdoc; cbn;
       (split; [lia|]); (split; [lia|]); (split; [lia|]);
       (split; [lia|]);
       (split; [by rewrite last_snoc|]);
       (split; [rewrite !elem_of_app, !list_elem_of_singleton;
                left; right; do 2 f_equal; lia|]);
       (split; [reflexivity|]);
       intros key Hkey; by rewrite ?lookup_insert_ne ]).
Qed.
Lemma slots_settles_wallet_witness :
  let w := mkWorld {[ (1, 2) := mkWallet (Some 100) (Some 0) (Some 0) ]}
             [] ∅ {[ 1 ]} [] [] in
  exists w',
    slots 1 2 10 (Star, Star, Star) w = (Ret tt, w')
    /\ wallet_field balance w' 1 2 = 340
    /\ wallet_field total_spent w' 1 2 = 10
    /\ wallet_field total_earned w' 1 2 = 250.
Proof.
  intros w.
  destruct (slots_settles_wallet w 1 2 10 100 (Star, Star, Star)
              eligible_example ltac:(lia))
    as (w' & Hrun & Hbal & _ & Hspent & Hearned & _).
  exists w'. split; [exact Hrun|]. split; [exact Hbal|].
  split; [exact Hspent | exact Hearned].
Defined.

Lemma roulette_winnings_values (bet winnings : Z) (choice result : string) :
  roulette_winnings bet choice result = Ret winnings ->
  winnings = bet * 35 \/ winnings = bet * 2 \/ winnings = 0.
Proof.
  unfold roulette_winnings.
  destruct (py_int result);
    repeat match goal with
           | |- context [if ?c then _ else _] => destruct c
           end;
    intros H; first [discriminate H | injection H as <-; auto].
Qed.

(** X13.  A roulette bet that is played, with a working store: the balance
    ends at [have + winnings - bet], which is never negative; the net
    result is booked once, on total_earned when it is positive and on
    total_spent otherwise; the reply shows winnings, net result and that
    balance; no other account is touched. *)
Theorem roulette_settles_wallet (lower : string -> string) (w : World)
  (guild_id discord_id bet have : Z) (choice result : string) :
  eligible w guild_id discord_id bet have ->
  0 < bet <= 2000 ->
  lower choice ∈ valid_choices ->
  result ∈ spin_options ->
  exists winnings color w',
    roulette_winnings bet (lower choice) result = Ret winnings
    /\ result_color result = Ret color
    /\ roulette lower guild_id discord_id bet choice result w = (Ret tt, w')
    /\ wallet_field balance w' guild_id discord_id = have + winnings - bet
    /\ 0 <= have + winnings - bet
    /\ wallet_field total_earned w' guild_id discord_id
       = wallet_field total_earned w guild_id discord_id
         + Z.max (winnings - bet) 0
    /\ wallet_field total_spent w' guild_id discord_id
       = wallet_field total_spent w guild_id discord_id
         + Z.max (bet - winnings) 0
    /\ last (trace w') = Some (LockRelease (guild_id, discord_id))
    /\ Respond (RouletteResult color result winnings (winnings - bet)
                  (have + winnings - bet)) ∈ trace w'
    /\ forall key, key <> (guild_id, discord_id) ->
                   economy w' !! key = economy w !! key.
Proof.
  intros (Hup & Hprem & (doc & Hdoc & Hbal) & Hcover) Hbet Hchoice Hres.
  destruct (roulette_winnings_total bet (lower choice) result Hres)
    as [winnings Hwin].
  destruct (result_color_total result Hres) as [color Hcolor].
  assert (0 <= winnings) as Hnonneg.
  { destruct (roulette_winnings_values _ _ _ _ Hwin) as [-> | [-> | ->]]; lia. }
  exists winnings, color.
  destruct w as [eco evs locks prem fs tr]. cbn in Hup, Hprem, Hdoc.
  destruct doc as [bal [te|] [ts|]]; cbn in Hbal; subst fs bal;
    unfold roulette, wallet_field; cbn [economy]; rewrite Hdoc;
    destruct (winnings - bet >? 0) eqn:Hsign; pose proof Hsign as Hs;
    [ apply Z.gtb_lt in Hs | rewrite Z.gtb_ltb in Hs; apply Z.ltb_ge in Hs
    | apply Z.gtb_lt in Hs | rewrite Z.gtb_ltb in Hs; apply Z.ltb_ge in Hs
    | apply Z.gtb_lt in Hs | rewrite Z.gtb_ltb in Hs; apply Z.ltb_ge in Hs
    | apply Z.gtb_lt in Hs | rewrite Z.gtb_ltb in Hs; apply Z.ltb_ge in Hs ];
    (eexists; split; [exact Hwin|]; split; [exact Hcolor|]; split;
     [ pass_checks Hprem Hdoc; rewrite Hwin, Hcolor; run_doc;
       rewrite ?Hsign; run_doc; reflexivity
     | cbn; rewrite ?lookup_insert_eq; cbn; rewrite ?Hdoc; cbn;
       (split; [lia|]); (split; [lia|]); (split; [lia|]);
       (split; [lia|]);
       (split; [by rewrite last_snoc|]);
       (split; [rewrite !elem_of_app, !list_elem_of_singleton;
                left; right; do 2 f_equal; lia|]);
       intros key Hkey; by rewrite ?lookup_insert_ne ]).
Qed.

Lemma roulette_settles_wallet_witness :
  let w := mkWorld {[ (1, 2) := mkWallet (Some 100) (Some 0) (Some 0) ]}
             [] ∅ {[ 1 ]} [] [] in
  exists winnings color w',
    roulette_winnings 10 (ascii_lower "17") "17" = Ret winnings
    /\ result_color "17" = Ret color
    /\ roulette ascii_lower 1 2 10 "17" "17" w = (Ret tt, w')
    /\ wallet_field balance w' 1 2 = 100 + winnings - 10.
Proof.
  intros w.
  destruct (roulette_settles_wallet ascii_lower w 1 2 10 100 "17" "17"
              eligible_example ltac:(lia))
    as (winnings & color & w' & H1 & H2 & H3 & H4 & _).
  - apply (bool_decide_unpack _). vm_compute. exact I.
  - apply (bool_decide_unpack _). vm_compute. exact I.
  - exists winnings, color, w'.
    split; [exact H1|]. split; [exact H2|]. split; [exact H3 | exact H4].
Defined.

(** ** Store failures during settlement *)

(** X14.  [Gambling.slots] does not look at what the debit returns.  When the
    wallet is read and the debit then fails at the store, the failure is
    logged and the game is played all the same: no delta of [- bet] is
    applied, the winnings are credited in full, and the journal still
    records [winnings - bet]. *)
Theorem slots_ignores_failed_debit (w : World)
  (guild_id discord_id bet have : Z) (reels : Symbol * Symbol * Symbol)
  (doc : Wallet) :
  faults w = [false; true] ->
  guild_id ∈ premium w ->
  economy w !! (guild_id, discord_id) = Some doc ->
  balance doc = Some have ->
  0 < bet <= 10000 ->
  bet <= have ->
  let winnings := fst (slots_outcome bet reels) in
  exists w',
    slots guild_id discord_id bet reels w = (Ret tt, w')
    /\ ledger_deltas (trace w')
       = ledger_deltas (trace w)
           ++ (if winnings >? 0
               then [(guild_id, discord_id, winnings)] else [])
    /\ LogError (FailedToUpdateWallet StoreError) ∈ trace w'
    /\ wallet_field balance w' guild_id discord_id = have + winnings
    /\ map ev_amount (journal_entries (trace w'))
       = map ev_amount (journal_entries (trace w)) ++ [winnings - bet].
Proof.
  intros Hup Hprem Hdoc Hbal Hbet Hcover.
  pose proof (slots_outcome_nonneg bet reels ltac:(lia)) as Hnonneg.
  destruct w as [eco evs locks prem fs tr]. cbn in Hup, Hprem, Hdoc.
  destruct doc as [bal te ts]; cbn in Hbal; subst fs bal; cbv zeta.
  unfold slots, wallet_field; cbn [economy].
  destruct (slots_outcome bet reels) as [winnings win]. cbn [fst] in *.
  destruct (winnings >? 0) eqn:Hw; pose proof Hw as Hw';
    [ apply Z.gtb_lt in Hw' | rewrite Z.gtb_ltb in Hw'; apply Z.ltb_ge in Hw' ];
    (eexists; split;
     [ pass_checks Hprem Hdoc;
       run_doc; rewrite ?Hw; run_doc; rewrite ?Hw, ?Hdoc; run_doc;
       reflexivity
     | cbn; rewrite ?lookup_insert_eq, ?Hdoc; cbn;
       rewrite <- ?app_assoc; trace_simpl; cbn;
       (split; [reflexivity|]);
       (split; [rewrite !elem_of_app, !elem_of_cons; auto 10|]);
       (split; [lia|]);
       rewrite ?map_app; reflexivity ]).
Qed.
Lemma slots_ignores_failed_debit_witness :
  let w := mkWorld {[ (1, 2) := mkWallet (Some 100) (Some 0) (Some 0) ]}
             [] ∅ {[ 1 ]} [false; true] [] in
  exists w',
    slots 1 2 10 (Seven, Seven, Seven) w = (Ret tt, w')
    /\ ledger_deltas (trace w') = [(1, 2, 1000)]
    /\ wallet_field balance w' 1 2 = 1100.
Proof.
  intros w.
  destruct (slots_ignores_failed_debit w 1 2 10 100 (Seven, Seven, Seven)
              (mkWallet (Some 100) (Some 0) (Some 0)))
    as (w' & Hrun & Hdeltas & _ & Hbal & _).
  - reflexivity.
  - apply (bool_decide_unpack _). vm_compute. exact I.
  - reflexivity.
  - reflexivity.
  - lia.
  - lia.
  - exists w'. split; [exact Hrun|]. split; [exact Hdeltas | exact Hbal].
Defined.

(** X15.  When the single ledger update of a roulette bet fails at the store,
    the bet is dropped: the failure is logged, the player is told the
    bet could not be processed, no journal entry is written and every
    wallet is as before. *)
Theorem roulette_failed_update (lower : string -> string) (w : World)
  (guild_id discord_id bet have : Z) (choice result : string)
  (doc : Wallet) :
  faults w = [false; true] ->
  guild_id ∈ premium w ->
  economy w !! (guild_id, discord_id) = Some doc ->
  balance doc = Some have ->
  0 < bet <= 2000 ->
  bet <= have ->
  lower choice ∈ valid_choices ->
  result ∈ spin_options ->
  exists w',
    roulette lower guild_id discord_id bet choice result w = (Ret tt, w')
    /\ trace w'
       = trace w
           ++ [LockAcquire (guild_id, discord_id);
               Respond (RouletteSpinning 0 bet);
               Respond (RouletteSpinning 1 bet);
               Respond (RouletteSpinning 2 bet);
               Draw;
               LogError (FailedToUpdateWallet StoreError);
               Respond FailedToProcessBet;
               LockRelease (guild_id, discord_id)]
    /\ economy w' = economy w
    /\ wallet_events w' = wallet_events w.
Proof.
  intros Hup Hprem Hdoc Hbal Hbet Hcover Hchoice Hres.
  destruct (roulette_winnings_total bet (lower choice) result Hres)
    as [winnings Hwin].
  destruct (result_color_total result Hres) as [color Hcolor].
  destruct w as [eco evs locks prem fs tr]. cbn in Hup, Hprem, Hdoc.
  destruct doc as [bal te ts]; cbn in Hbal; subst fs bal.
  unfold roulette. eexists. split.
  - pass_checks Hprem Hdoc. rewrite Hwin, Hcolor. run_doc. reflexivity.
  - cbn. rewrite <- !app_assoc. done.
Qed.

Lemma roulette_failed_update_witness :
  let w := mkWorld {[ (1, 2) := mkWallet (Some 100) (Some 0) (Some 0) ]}
             [] ∅ {[ 1 ]} [false; true] [] in
  exists w',
    roulette ascii_lower 1 2 10 "red" "1" w = (Ret tt, w')
    /\ economy w' = economy w
    /\ wallet_events w' = [].
Proof.
  intros w.
  destruct (roulette_failed_update ascii_lower w 1 2 10 100 "red" "1"
              (mkWallet (Some 100) (Some 0) (Some 0)))
    as (w' & Hrun & _ & Heco & Hevs).
  - reflexivity.
  - apply (bool_decide_unpack _). vm_compute. exact I.
  - reflexivity.
  - reflexivity.
  - lia.
  - lia.
  - apply (bool_decide_unpack _). vm_compute. exact I.
  - apply (bool_decide_unpack _). vm_compute. exact I.
  - exists w'. split; [exact Hrun|]. split; [exact Heco | exact Hevs].
Defined.

(** X16.  When the ledger update of [end_game] fails at the store, the session
    is over all the same: the failure is logged, the player is told the
    bet could not be processed, and neither wallet nor journal changes;
    nothing retries the settlement, since the view no longer reacts. *)
Theorem end_game_failed_update (w : World) (v : BlackjackView.View)
  (result_text : BlackjackStatus) (net_result : Z) (fs : list bool) :
  faults w = true :: fs ->
  exists w',
    BlackjackView.end_game result_text net_result (v, w)
    = (Ret tt, (BlackjackView.set_game_over true v, w'))
    /\ trace w'
       = trace w ++ [LogError (FailedToUpdateWallet StoreError);
                     Respond FailedToProcessBet]
    /\ economy w' = economy w
    /\ wallet_events w' = wallet_events w
    /\ forall actions,
         presses actions (BlackjackView.set_game_over true v, w')
         = (BlackjackView.set_game_over true v, w').
Proof.
  intros Hup. destruct w as [eco evs locks prem fs' tr]. cbn in Hup.
  subst fs'. destruct v as [dk pc dc b g d over].
  unfold BlackjackView.end_game. eexists. split.
  - run_doc. view_simpl. run_doc. reflexivity.
  - cbn. rewrite <- !app_assoc.
    split; [reflexivity|]. split; [reflexivity|]. split; [reflexivity|].
    intros actions. by apply presses_terminal.
Qed.

Lemma end_game_failed_update_witness :
  let w := mkWorld {[ (1, 2) := mkWallet (Some 100) (Some 0) (Some 0) ]}
             [] ∅ {[ 1 ]} [true] [] in
  let v := BlackjackView.init [] [mkCard RK Spades; mkCard R9 Spades]
             [mkCard R10 Clubs; mkCard R8 Clubs] 10 1 2 in
  exists w',
    BlackjackView.end_game YouWin 10 (v, w)
    = (Ret tt, (BlackjackView.set_game_over true v, w'))
    /\ economy w' = economy w.
Proof.
  intros w v.
  destruct (end_game_failed_update w v YouWin 10 [] eq_refl)
    as (w' & Hrun & _ & Heco & _).
  exists w'. split; [exact Hrun | exact Heco].
Defined.

(** ** A session outlives the lock *)

Lemma dealer_loop_stands (top_first dealer : list Card) :
  17 <= card_value dealer ->
  BlackjackView.dealer_loop top_first dealer = (Ret tt, (top_first, dealer)).
Proof.
  intros Hval.
  destruct top_first; cbn [BlackjackView.dealer_loop];
    change BlackjackView.card_value with card_value;
    by rewrite (proj2 (Z.ltb_ge _ _) Hval).
Qed.

(** X17.  The lock of [Gambling.blackjack] is released when the command hands
    the view to the player, and nothing is debited then.  So a second
    bet of the same account is admitted while the session is open, and
    the stake of the session is settled against whatever balance is
    left: after a lost slots bet of [bet'] and a lost stand the balance
    is [have - bet' - bet], which is below zero as soon as the two
    stakes together exceed what the wallet held. *)
Theorem open_session_can_overdraw (w : World)
  (guild_id discord_id bet bet' have : Z) (rest : list Card)
  (p1 p2 d1 d2 : Card) (reels : Symbol * Symbol * Symbol) :
  eligible w guild_id discord_id bet have ->
  0 < bet <= 5000 ->
  0 < bet' <= 10000 ->
  bet' <= have ->
  slots_outcome bet' reels = (0, false) ->
  card_value [p1; p2] <> 21 ->
  17 <= card_value [d1; d2] ->
  card_value [p1; p2] < card_value [d1; d2] ->
  exists view w1 w2 v3 w3,
    blackjack guild_id discord_id bet (rest ++ [d2; d1; p2; p1]) w
    = (Ret (Some view), w1)
    /\ last (trace w1) = Some (LockRelease (guild_id, discord_id))
    /\ slots guild_id discord_id bet' reels w1 = (Ret tt, w2)
    /\ BlackjackView.stand_button (view, w2) = (Ret tt, (v3, w3))
    /\ BlackjackView.game_over v3 = true
    /\ ledger_deltas (trace w3)
       = ledger_deltas (trace w)
           ++ [(guild_id, discord_id, - bet');
               (guild_id, discord_id, - bet)]
    /\ wallet_field balance w3 guild_id discord_id = have - bet' - bet.
Proof.
  intros (Hup & Hprem & (doc & Hdoc & Hbal) & Hcover) Hbet Hbet' Hcover'
    Hlose Hnat Hstand Hless.
  pose proof (two_cards_fit d1 d2) as Hfit.
  destruct w as [eco evs locks prem fs tr]. cbn in Hup, Hprem, Hdoc.
  destruct doc as [bal te ts]. cbn in Hbal. subst fs bal.
  do 5 eexists.
  split.
  { unfold blackjack. pass_checks Hprem Hdoc.
    deal rest d2 d1 p2 p1.
    rewrite (proj2 (Z.eqb_neq _ _)) by exact Hnat.
    run. reflexivity. }
  split; [cbn [trace]; by rewrite last_snoc|].
  split.
  { unfold slots. pass_checks Hprem Hdoc.
    rewrite (Z.gtb_ltb (- bet') 0), (proj2 (Z.ltb_ge 0 (- bet'))) by lia.
    run_doc. rewrite Hlose. run_doc. change (0 >? 0) with false.
    run_doc. reflexivity. }
  split.
  { unfold BlackjackView.stand_button, BlackjackView.dealer_plays.
    run. unfold BlackjackView.init. view_simpl.
    rewrite (dealer_loop_stands _ _ Hstand).
    run. view_simpl. change BlackjackView.card_value with card_value.
    rewrite (Z.gtb_ltb _ 21), (proj2 (Z.ltb_ge 21 _)) by exact Hfit.
    rewrite (Z.gtb_ltb (card_value [p1; p2])),
      (proj2 (Z.ltb_ge _ (card_value [p1; p2]))) by lia.
    rewrite (proj2 (Z.gtb_lt _ _)) by exact Hless.
    unfold BlackjackView.end_game. run. view_simpl. run.
    rewrite lookup_insert_eq.
    rewrite (Z.gtb_ltb (- bet) 0), (proj2 (Z.ltb_ge 0 (- bet))) by lia.
    run_doc. view_simpl. run_doc. reflexivity. }
  split; [reflexivity|].
  split.
  { cbn [trace]. trace_simpl. rewrite <- !app_assoc. reflexivity. }
  unfold wallet_field. cbn [economy]. rewrite lookup_insert_eq. cbn.
  rewrite Hdoc. cbn. lia.
Qed.

Lemma open_session_can_overdraw_witness :
  let w := mkWorld {[ (1, 2) := mkWallet (Some 100) (Some 0) (Some 0) ]}
             [] ∅ {[ 1 ]} [] [] in
  exists view w1 w2 v3 w3,
    blackjack 1 2 100
      ([] ++ [mkCard RK Hearts; mkCard R8 Spades;
              mkCard R7 Clubs; mkCard R9 Diamonds]) w
    = (Ret (Some view), w1)
    /\ last (trace w1) = Some (LockRelease (1, 2))
    /\ slots 1 2 100 (Cherry, Lemon, Orange) w1 = (Ret tt, w2)
    /\ BlackjackView.stand_button (view, w2) = (Ret tt, (v3, w3))
    /\ BlackjackView.game_over v3 = true
    /\ ledger_deltas (trace w3)
       = ledger_deltas (trace w) ++ [(1, 2, - 100); (1, 2, - 100)]
    /\ wallet_field balance w3 1 2 = 100 - 100 - 100.
Proof.
  apply (open_session_can_overdraw _ 1 2 100 100 100 []
           (mkCard R9 Diamonds) (mkCard R7 Clubs)
           (mkCard R8 Spades) (mkCard RK Hearts) (Cherry, Lemon, Orange)).
  - split; [reflexivity|]. split; [by apply (bool_decide_unpack _)|].
    split; [|lia]. eexists. split; reflexivity.
  - lia.
  - lia.
  - lia.
  - reflexivity.
  - vm_compute. discriminate.
  - vm_compute. discriminate.
  - vm_compute. reflexivity.
Defined.

(** ** Lock discipline of the commands *)


Section Keeps.

Variable held : option (Z * Z).















End Keeps.

Section KeepsHolder.

Variables guild_id discord_id : Z.





End KeepsHolder.







(** X19.  The buttons of a blackjack view settle the game through
    [end_game], which takes no lock: with a working store its first
    effect is a ledger delta, made while the lock is free. *)
Theorem end_game_outside_lock (w : World) (v : BlackjackView.View)
  (result_text : BlackjackStatus) (net_result : Z) :
  faults w = [] ->
  exists w' new,
    BlackjackView.end_game result_text net_result (v, w)
    = (Ret tt, (BlackjackView.set_game_over true v, w'))
    /\ trace w' = trace w ++ new
    /\ LedgerDelta (BlackjackView.guild_id v) (BlackjackView.discord_id v)
         net_result ∈ new
    /\ lock_run None new = None.
Proof.
  intros Hup. destruct w as [eco evs locks prem fs tr]. cbn in Hup.
  subst fs. destruct v as [dk pc dc b g d over].
  unfold BlackjackView.end_game.
  destruct (net_result >? 0) eqn:Hsign;
    (do 2 eexists; split;
     [ run_doc; view_simpl; run_doc; rewrite ?Hsign; run_doc; reflexivity
     | cbn [trace]; rewrite <- !app_assoc;
       split; [reflexivity|]; split; [|reflexivity];
       rewrite !elem_of_app, list_elem_of_singleton; by left ]).
Qed.

Lemma end_game_outside_lock_witness :
  let w := mkWorld {[ (1, 2) := mkWallet (Some 100) (Some 0) (Some 0) ]}
             [] ∅ {[ 1 ]} [] [] in
  let v := BlackjackView.init [] [mkCard RK Hearts; mkCard R9 Clubs]
             [mkCard R10 Spades; mkCard R8 Hearts] 50 1 2 in
  exists w' new,
    BlackjackView.end_game YouWin 50 (v, w)
    = (Ret tt, (BlackjackView.set_game_over true v, w'))
    /\ trace w' = trace w ++ new
    /\ LedgerDelta (BlackjackView.guild_id v) (BlackjackView.discord_id v)
         50 ∈ new
    /\ lock_run None new = None.
Proof.
  intros w v. apply (end_game_outside_lock w v YouWin 50). reflexivity.
Defined.

(** ** The wheel as a whole *)

Lemma roulette_winnings_scales (bet k : Z) (choice result : string) :
  roulette_winnings 1 choice result = Ret k ->
  roulette_winnings bet choice result = Ret (k * bet).
Proof.
  unfold roulette_winnings.
  destruct (py_int result);
    repeat match goal with
           | |- context [if ?c then _ else _] => destruct c
           end;
    intros H; first [discriminate H | injection H as <-; f_equal; lia].
Qed.

Lemma wheel_total_scales (bet k : Z) (choice : string)
  (pockets : list string) :
  wheel_total 1 choice pockets = Ret k ->
  wheel_total bet choice pockets = Ret (k * bet).
Proof.
  revert k. induction pockets as [|result rest IH]; intros k.
  { cbn. intros [= <-]. f_equal. }
  cbn [wheel_total]. unfold roulette_net.
  destruct (roulette_winnings 1 choice result) as [k1|e] eqn:Hone;
    [|by destruct (wheel_total 1 choice rest)].
  rewrite (roulette_winnings_scales bet k1 _ _ Hone).
  destruct (wheel_total 1 choice rest) as [k2|e]; [|done].
  rewrite (IH k2 eq_refl). intros [= <-]. f_equal. lia.
Qed.

Lemma valid_choices_listed :
  valid_choices
  = ["red"; "black"; "odd"; "even"; "low"; "high"; "0"; "00";
     "1"; "2"; "3"; "4"; "5"; "6"; "7"; "8"; "9"; "10"; "11"; "12";
     "13"; "14"; "15"; "16"; "17"; "18"; "19"; "20"; "21"; "22"; "23";
     "24"; "25"; "26"; "27"; "28"; "29"; "30"; "31"; "32"; "33"; "34";
     "35"; "36"].
Proof. by vm_compute. Qed.

(** X20.  Added up over the 38 pockets of the wheel, the net results of a
    recognized choice are against the player: [- 2 * bet] for a colour,
    parity or range choice (18 pockets pay the stake, 20 take it), and
    [- 3 * bet] for a pocket (one pays 34 times the stake, 37 take
    it). *)
Theorem wheel_favours_house (bet : Z) (choice : string) :
  choice ∈ valid_choices ->
  wheel_total bet choice spin_options
  = Ret (if bool_decide (choice ∈ outside_choices)
         then - 2 * bet else - 3 * bet).
Proof.
  intros Hchoice. rewrite valid_choices_listed in Hchoice.
  assert (forall k, wheel_total 1 choice spin_options = Ret k ->
            (if bool_decide (choice ∈ outside_choices) then - 2 else - 3) = k ->
            wheel_total bet choice spin_options
            = Ret (if bool_decide (choice ∈ outside_choices)
                   then - 2 * bet else - 3 * bet)) as Hscale.
  { intros k Hone <-. rewrite (wheel_total_scales bet _ _ _ Hone).
    by case_bool_decide. }
  repeat (apply elem_of_cons in Hchoice as [-> | Hchoice]);
    [..|by apply elem_of_nil in Hchoice];
    (eapply Hscale; [by vm_compute | by vm_compute]).
Qed.

Lemma wheel_favours_house_witness :
  wheel_total 10 "red" spin_options = Ret (- 20)
  /\ wheel_total 10 "17" spin_options = Ret (- 30).
Proof.
  split.
  - apply (wheel_favours_house 10 "red").
    apply (bool_decide_unpack _). vm_compute. exact I.
  - apply (wheel_favours_house 10 "17").
    apply (bool_decide_unpack _). vm_compute. exact I.
Defined.

Lemma opposite_on_pocket (n : Z) (a b : string) :
  1 <= n <= 36 ->
  (a, b) ∈ opposite_choices ->
  a <> str n /\ b <> str n
  /\ (satisfies a n /\ ~ satisfies b n \/ ~ satisfies a n /\ satisfies b n).
Proof.
  intros Hn Hpair.
  assert (forallb (fun n =>
            forallb (fun p : string * string =>
              bool_decide (p.1 <> str n /\ p.2 <> str n
                /\ (satisfies p.1 n /\ ~ satisfies p.2 n
                    \/ ~ satisfies p.1 n /\ satisfies p.2 n)))
              opposite_choices) range_1_37 = true) as Hall by (by vm_compute).
  rewrite forallb_forall in Hall. specialize (Hall n).
  rewrite forallb_forall in Hall.
  specialize (Hall ltac:(apply list_elem_of_In; unfold range_1_37;
                         apply elem_of_seqZ; lia) (a, b)).
  rewrite bool_decide_eq_true in Hall.
  apply Hall. by apply list_elem_of_In.
Qed.

(** X21.  Of two opposite choices (red and black, odd and even, low and
    high) exactly one pays on every numbered pocket, twice the stake,
    and neither pays on 0 or 00. *)
Theorem opposite_choices_complement (bet : Z) (a b result : string) :
  (a, b) ∈ opposite_choices ->
  result ∈ spin_options ->
  exists x y,
    roulette_winnings bet a result = Ret (x * bet)
    /\ roulette_winnings bet b result = Ret (y * bet)
    /\ if bool_decide (result ∈ ["0"; "00"])
       then x = 0 /\ y = 0
       else (x = 2 /\ y = 0) \/ (x = 0 /\ y = 2).
Proof.
  intros Hpair Hres.
  apply spin_options_cases in Hres as [Hz | (n & Hn & ->)].
  - exists 0, 0. rewrite bool_decide_eq_true_2 by exact Hz.
    assert (a <> result /\ b <> result) as [Ha Hb].
    { unfold opposite_choices in Hpair.
      rewrite !elem_of_cons in Hpair. rewrite !elem_of_cons in Hz.
      split; intros ->;
        repeat match goal with
               | H : _ \/ _ |- _ => destruct H
               | H : _ ∈ [] |- _ => by apply elem_of_nil in H
               | H : (_, _) = (_, _) |- _ => injection H as ?; subst
               end; discriminate. }
    rewrite !roulette_zero by done. done.
  - destruct (str_numbered n Hn) as [Hint Hnz].
    destruct (opposite_on_pocket n a b Hn Hpair) as (Ha & Hb & Hsat).
    destruct (roulette_numbered bet a (str n) n Ha Hnz Hint) as [Hawin Halose].
    destruct (roulette_numbered bet b (str n) n Hb Hnz Hint) as [Hbwin Hblose].
    rewrite bool_decide_eq_false_2 by exact Hnz.
    destruct Hsat as [[Hsa Hsb] | [Hsa Hsb]].
    + exists 2, 0. rewrite (Hawin Hsa), (Hblose Hsb). auto.
    + exists 0, 2. rewrite (Halose Hsa), (Hbwin Hsb). auto.
Qed.

Lemma opposite_choices_complement_witness :
  exists x y,
    roulette_winnings 10 "odd" "17" = Ret (x * 10)
    /\ roulette_winnings 10 "even" "17" = Ret (y * 10)
    /\ if bool_decide ("17" ∈ ["0"; "00"])
       then x = 0 /\ y = 0
       else (x = 2 /\ y = 0) \/ (x = 0 /\ y = 2).
Proof.
  apply (opposite_choices_complement 10 "odd" "even" "17").
  - apply (bool_decide_unpack _). vm_compute. exact I.
  - apply (bool_decide_unpack _). vm_compute. exact I.
Defined.

(** * Statistics: weapons, rival and nemesis *)

Section Counts.

Import Stats.

Lemma get_set (key key' : string) (v : Z) (d : Counts) :
  get key' (set key v d) = if String.eqb key key' then Some v else get key' d.
Proof.
  induction d as [|[k x] rest IH]; cbn [set get].
  - by destruct (String.eqb_spec key key').
  - destruct (String.eqb_spec k key) as [-> | Hk]; cbn [get].
    + by destruct (String.eqb_spec key key').
    + destruct (String.eqb_spec k key') as [-> | Hk'].
      * destruct (String.eqb_spec key key'); congruence.
      * exact IH.
Qed.

Lemma get_keys (key : string) (d : Counts) :
  is_Some (get key d) <-> key ∈ keys d.
Proof.
  induction d as [|[k x] rest IH]; cbn [get keys map fst].
  - split; [by intros [? ?] | by intros ?%elem_of_nil].
  - rewrite elem_of_cons.
    destruct (String.eqb_spec k key) as [-> | Hk].
    + split; [by left | by eexists].
    + rewrite IH. unfold keys. split; [by right | by intros [-> | ?]].
Qed.

Lemma keys_set (key : string) (v : Z) (d : Counts) :
  keys (set key v d)
  = keys d ++ match get key d with Some _ => [] | None => [key] end.
Proof.
  induction d as [|[k x] rest IH]; cbn [set get keys map fst app]; [done|].
  destruct (String.eqb_spec k key) as [-> | Hk]; cbn [map fst].
  - by rewrite app_nil_r.
  - f_equal. exact IH.
Qed.

Lemma get_tally (key : string) (l : list string) (d : Counts) :
  get key (tally l d)
  = match get key d with
    | Some v => Some (v + occurrences key l)
    | None => if occurrences key l =? 0 then None
              else Some (occurrences key l)
    end.
Proof.
  revert d. induction l as [|x l IH]; intros d.
  { unfold tally. cbn [foldl occurrences].
    destruct (get key d); [f_equal; lia | done]. }
  assert (0 <= occurrences key l) as Hpos.
  { clear. induction l as [|y l IH]; cbn [occurrences]; [done|].
    destruct (String.eqb y key); lia. }
  change (tally (x :: l) d) with (tally l (count_up x d)).
  rewrite IH. unfold count_up. rewrite get_set. cbn [occurrences].
  destruct (String.eqb_spec x key) as [-> | Hx].
  - destruct (get key d) as [v|]; cbn [default from_option id].
    + f_equal. lia.
    + rewrite (proj2 (Z.eqb_neq _ 0)) by lia. done.
  - destruct (get key d); [f_equal; lia | done].
Qed.

Lemma occurrences_nonneg (key : string) (l : list string) :
  0 <= occurrences key l.
Proof.
  induction l as [|y l IH]; cbn [occurrences]; [done|].
  destruct (String.eqb y key); lia.
Qed.

Lemma occurrences_pos (key : string) (l : list string) :
  0 < occurrences key l <-> key ∈ l.
Proof.
  induction l as [|y l IH]; cbn [occurrences].
  - split; [lia | by intros ?%elem_of_nil].
  - pose proof (occurrences_nonneg key l).
    rewrite elem_of_cons. destruct (String.eqb_spec y key) as [-> | Hy].
    + split; [by left | lia].
    + rewrite Z.add_0_l, IH. split; [by right | by intros [-> | ?]].
Qed.

Lemma keys_tally (l : list string) (d : Counts) :
  exists extra,
    keys (tally l d) = keys d ++ extra
    /\ (forall key, key ∈ extra -> key ∈ l)
    /\ (forall key, key ∈ l -> key ∈ keys d ++ extra).
Proof.
  revert d. induction l as [|x l IH]; intros d.
  { exists []. rewrite app_nil_r. split; [done|].
    split; [done | by intros key ?%elem_of_nil]. }
  change (tally (x :: l) d) with (tally l (count_up x d)).
  destruct (IH (count_up x d)) as (extra & Hk & Hin & Hall).
  unfold count_up in Hk, Hall. rewrite keys_set in Hk, Hall.
  rewrite <- app_assoc in Hk, Hall.
  eexists. split; [exact Hk|]. split.
  - intros key. rewrite elem_of_app, elem_of_cons.
    intros [Hkey | Hkey]; [|right; by apply Hin].
    destruct (get x d); [by apply elem_of_nil in Hkey|].
    apply list_elem_of_singleton in Hkey. by left.
  - intros key. rewrite elem_of_cons. intros [-> | Hkey]; [|by apply Hall].
    rewrite !elem_of_app.
    destruct (get x d) eqn:Hget.
    + left. apply get_keys. by rewrite Hget.
    + right. left. by apply list_elem_of_singleton.
Qed.

Lemma nodup_keys_tally (l : list string) (d : Counts) :
  NoDup (keys d) -> NoDup (keys (tally l d)).
Proof.
  revert d. induction l as [|x l IH]; intros d Hd; [exact Hd|].
  change (tally (x :: l) d) with (tally l (count_up x d)).
  apply IH. unfold count_up. rewrite keys_set.
  destruct (get x d) eqn:Hget; [by rewrite app_nil_r|].
  apply NoDup_app. split; [exact Hd|]. split; [|apply NoDup_singleton].
  intros key Hkey ->%list_elem_of_singleton.
  apply get_keys in Hkey. rewrite Hget in Hkey. by destruct Hkey.
Qed.

Lemma tally_app (l1 l2 : list string) (d : Counts) :
  tally (l1 ++ l2) d = tally l2 (tally l1 d).
Proof. unfold tally. by rewrite foldl_app. Qed.

Lemma max_from_split {A} (key : A -> Z) (pre mid l : list A) (best : A) :
  (forall a, a ∈ pre -> key a < key best) ->
  (forall b, b ∈ mid -> key b <= key best) ->
  exists before after,
    pre ++ best :: mid ++ l = before ++ max_from key best l :: after
    /\ (forall a, a ∈ before -> key a < key (max_from key best l))
    /\ (forall b, b ∈ after -> key b <= key (max_from key best l)).
Proof.
  revert pre mid best. induction l as [|x l IH]; intros pre mid best Hpre Hmid.
  { exists pre, mid. by rewrite app_nil_r. }
  cbn [max_from]. destruct (key x >? key best) eqn:Hgt.
  - apply Z.gtb_lt in Hgt.
    destruct (IH (pre ++ best :: mid) [] x) as (before & after & E & Hb & Ha).
    + intros a. rewrite elem_of_app, elem_of_cons.
      intros [Ha | [-> | Ha]]; [apply Hpre in Ha | | apply Hmid in Ha]; lia.
    + by intros b ?%elem_of_nil.
    + exists before, after. split; [|done].
      rewrite <- E. cbn [app]. rewrite <- app_assoc. done.
  - rewrite Z.gtb_ltb in Hgt. apply Z.ltb_ge in Hgt.
    destruct (IH pre (mid ++ [x]) best) as (before & after & E & Hb & Ha).
    + exact Hpre.
    + intros b. rewrite elem_of_app, list_elem_of_singleton.
      intros [Hb | ->]; [by apply Hmid | done].
    + exists before, after. split; [|done].
      rewrite <- E. by rewrite <- app_assoc.
Qed.

(** The element [max] picks: every element is at most as great, and
    every element before it is strictly less. *)
Lemma max_from_first_greatest {A} (key : A -> Z) (x : A) (l : list A) :
  exists before after,
    x :: l = before ++ max_from key x l :: after
    /\ (forall a, a ∈ before -> key a < key (max_from key x l))
    /\ (forall b, b ∈ after -> key b <= key (max_from key x l)).
Proof.
  destruct (max_from_split key [] [] l x) as (before & after & E & H);
    [by intros a ?%elem_of_nil | by intros a ?%elem_of_nil |].
  by exists before, after.
Qed.

End Counts.

Section StatsLoops.

Import Stats.

Lemma nodup_split_unique {A} (x : A) (l1 l2 l1' l2' : list A) :
  NoDup (l1 ++ x :: l2) -> l1 ++ x :: l2 = l1' ++ x :: l2' -> l1 = l1'.
Proof.
  revert l1'. induction l1 as [|a l1 IH]; intros l1' Hnd E.
  - destruct l1' as [|b l1']; [done|]. cbn in E. injection E as <- E.
    apply NoDup_cons in Hnd as [Hx _]. destruct Hx. rewrite E.
    rewrite elem_of_app, elem_of_cons. auto.
  - destruct l1' as [|b l1']; cbn in E; injection E as -> E.
    + apply NoDup_cons in Hnd as [Hx _]. destruct Hx.
      rewrite elem_of_app, elem_of_cons. auto.
    + f_equal. apply IH; [|exact E]. by apply NoDup_cons in Hnd as [_ ?].
Qed.

Lemma count_default (key : string) (l : list string) :
  default 0 (get key (tally l [])) = occurrences key l.
Proof.
  rewrite get_tally. cbn [get].
  destruct (occurrences key l =? 0) eqn:Hz; [|done].
  apply Z.eqb_eq in Hz. by rewrite Hz.
Qed.

(** What [max] picks from a tally: the key counted most often, and
    among those the one that came up first. *)
Lemma most_of_tally (l : list string) :
  l <> [] ->
  exists most before after,
    (forall s : Env,
       Stats.max (keys (tally l []))
         (fun x => default 0 (get x (tally l []))) s = (Ret most, s))
    /\ (forall s : Env,
          item (tally l []) most s = (Ret (occurrences most l), s))
    /\ tally l [] <> []
    /\ l = before ++ most :: after
    /\ (most ∉ before)
    /\ (forall w, w ∈ before -> occurrences w l < occurrences most l)
    /\ (forall w, occurrences w l <= occurrences most l).
Proof.
  intros Hne.
  assert (NoDup (keys (tally l []))) as Hnd
    by (apply nodup_keys_tally; constructor).
  destruct (keys (tally l [])) as [|k0 ks] eqn:Hkeys.
  { destruct l as [|x l]; [done|].
    destruct (keys_tally (x :: l) []) as (extra & Hk & _ & Hall).
    specialize (Hall x ltac:(by left)). rewrite <- Hk, Hkeys in Hall.
    by apply elem_of_nil in Hall. }
  set (key := fun x => default 0 (get x (tally l []))).
  destruct (max_from_first_greatest key k0 ks)
    as (A & B & Esplit & Hless & Hleq).
  set (most := max_from key k0 ks) in *.
  assert (forall w, key w = occurrences w l) as Hkey
    by (intros w; apply count_default).
  assert (most ∈ keys (tally l [])) as Hin.
  { rewrite Hkeys, Esplit, elem_of_app, elem_of_cons. auto. }
  assert (most ∈ l) as Hinl.
  { destruct (keys_tally l []) as (extra & Hk & Hsub & _).
    apply Hsub. by rewrite Hk in Hin. }
  apply list_elem_of_split_l in Hinl as (before & after & El & Hfirst).
  exists most, before, after.
  split; [reflexivity|].
  split.
  { intros s. unfold item. rewrite get_tally. cbn [get].
    assert (0 < occurrences most l) as Hpos.
    { apply occurrences_pos. rewrite El, elem_of_app, elem_of_cons. auto. }
    by rewrite (proj2 (Z.eqb_neq _ 0)) by lia. }
  split.
  { intros Hnil. by rewrite Hnil in Hkeys. }
  split; [exact El|]. split; [exact Hfirst|].
  split.
  - intros w Hw. rewrite <- !Hkey. apply Hless.
    destruct (keys_tally before []) as (extra0 & Hk0 & Hsub0 & Hall0).
    destruct (keys_tally (most :: after) (tally before []))
      as (extra & Hk & Hsub & Hall).
    rewrite <- tally_app, <- El in Hk.
    assert (most ∈ extra) as Hextra.
    { specialize (Hall most ltac:(by left)).
      apply elem_of_app in Hall as [Hold | ?]; [|done].
      rewrite Hk0 in Hold. by apply Hsub0 in Hold. }
    apply list_elem_of_split in Hextra as (E1 & E2 & ->).
    rewrite Esplit in Hnd. rewrite Hkeys, Esplit, app_assoc in Hk.
    apply nodup_split_unique in Hk as ->; [|exact Hnd].
    apply elem_of_app. left. rewrite Hk0. by apply Hall0.
  - intros w. rewrite <- !Hkey.
    destruct (decide (w ∈ keys (tally l []))) as [Hw | Hw].
    + rewrite Hkeys, Esplit, elem_of_app, elem_of_cons in Hw.
      destruct Hw as [Hw | [-> | Hw]];
        [apply Hless in Hw; lia | done | by apply Hleq].
    + rewrite !Hkey. rewrite <- get_keys in Hw.
      pose proof (count_default w l) as Hc.
      destruct (get w (tally l [])); [by destruct Hw|].
      cbn in Hc. rewrite <- Hc. apply occurrences_nonneg.
Qed.

Lemma foldl_count_weapon (cursor : list KillEvent) (weapon_counts : Counts) :
  foldl count_weapon weapon_counts cursor
  = tally
      (List.filter (fun weapon => bool_decide (weapon ∉ suicide_weapons))
         (map (fun ev => default "Unknown" (ke_weapon ev)) cursor))
      weapon_counts.
Proof.
  revert weapon_counts.
  induction cursor as [|ev cursor IH]; intros weapon_counts; [done|].
  cbn [foldl map List.filter]. rewrite IH. unfold count_weapon.
  by destruct (bool_decide _).
Qed.

Lemma foldl_count_other (player_characters : list string)
  (field : KillEvent -> option string) (cursor : list KillEvent)
  (counts : Counts) :
  foldl (fun counts kill_event =>
           count_other player_characters counts (field kill_event))
    counts cursor
  = tally (counted_names player_characters (map field cursor)) counts.
Proof.
  revert counts. induction cursor as [|ev cursor IH]; intros counts; [done|].
  cbn [foldl map]. rewrite IH. unfold count_other, counted_names.
  destruct (field ev) as [n|]; cbn [omap list_omap]; [|done].
  by destruct (negb (String.eqb n "") && bool_decide (n ∉ player_characters)).
Qed.

Lemma fails_skip (n : nat) (cs : gmap string Value) (evs : list KillEvent)
  (fs : list bool) (lg : list StatsLog) :
  fails (S n) (mkEnv cs evs (false :: fs) lg) = fails n (mkEnv cs evs fs lg).
Proof.
  unfold fails. cbn [faults take]. apply bool_decide_ext.
  rewrite elem_of_cons. split; [by intros [? | ?] | by right].
Qed.

Lemma fails_exhausted (n : nat) (cs : gmap string Value)
  (evs : list KillEvent) (lg : list StatsLog) :
  fails n (mkEnv cs evs [] lg) = false.
Proof.
  unfold fails. cbn [faults]. rewrite take_nil.
  apply bool_decide_eq_false_2. by intros ?%elem_of_nil.
Qed.

Lemma find_run (guild_id : Z) (role : Role) (character : string)
  (cs : gmap string Value) (evs : list KillEvent) (fs : list bool)
  (lg : list StatsLog) :
  find guild_id role character (mkEnv cs evs fs lg)
  = match fs with
    | true :: fs' => (Raise StoreError, mkEnv cs evs fs' lg)
    | false :: fs' =>
        (Ret (List.filter (matches guild_id role character) evs),
         mkEnv cs evs fs' lg)
    | [] =>
        (Ret (List.filter (matches guild_id role character) evs),
         mkEnv cs evs [] lg)
    end.
Proof. by destruct fs as [|[|] fs]. Qed.

Lemma weapon_loop_run (guild_id : Z) (characters : list string)
  (weapon_counts : Counts) (s : Env) :
  exists fs',
    weapon_loop guild_id characters weapon_counts s
    = (if fails (length characters) s then Raise StoreError
       else Ret (tally (counted_weapons guild_id characters (kill_events s))
                   weapon_counts),
       set_faults fs' s).
Proof.
  destruct s as [cs evs fs lg].
  revert weapon_counts fs.
  induction characters as [|character rest IH]; intros weapon_counts fs.
  { exists fs. unfold fails. cbn [length take].
    by rewrite bool_decide_eq_false_2 by (by intros ?%elem_of_nil). }
  cbn [weapon_loop counted_weapons flat_map length]. unfold bind, find.
  cbn [faults kill_events]. destruct fs as [|[|] fs].
  - destruct (IH (foldl count_weapon weapon_counts
                    (List.filter (matches guild_id Killer character) evs)) [])
      as (fs' & E).
    rewrite E. exists fs'. rewrite !fails_exhausted.
    by rewrite foldl_count_weapon, tally_app.
  - exists fs. unfold fails. cbn [faults take].
    by rewrite bool_decide_eq_true_2 by (by left).
  - destruct (IH (foldl count_weapon weapon_counts
                    (List.filter (matches guild_id Killer character) evs)) fs)
      as (fs' & E).
    unfold set_faults at 1. cbn [combined_stats kill_events log].
    rewrite E. exists fs'. rewrite fails_skip. cbn [kill_events].
    by rewrite foldl_count_weapon, tally_app.
Qed.

Lemma rivals_loop_run (guild_id : Z)
  (player_characters characters : list string)
  (kills_against deaths_to : Counts) (s : Env) :
  exists fs',
    rivals_loop guild_id player_characters characters kills_against
      deaths_to s
    = (if fails (2 * length characters) s then Raise StoreError
       else Ret (tally (opponents Killer guild_id player_characters
                          characters (kill_events s)) kills_against,
                 tally (opponents Victim guild_id player_characters
                          characters (kill_events s)) deaths_to),
       set_faults fs' s).
Proof.
  destruct s as [cs evs fs lg].
  revert kills_against deaths_to fs.
  induction characters as [|character rest IH];
    intros kills_against deaths_to fs.
  { exists fs. unfold fails. cbn [length take Nat.mul].
    by rewrite bool_decide_eq_false_2 by (by intros ?%elem_of_nil). }
  cbn [rivals_loop opponents flat_map length].
  replace (2 * S (length rest))%nat with (S (S (2 * length rest))) by lia.
  unfold bind. rewrite find_run.
  destruct fs as [|[|] fs].
  - rewrite find_run.
    match goal with
    | |- context [rivals_loop _ _ rest ?ka ?dt] =>
        destruct (IH ka dt []) as (fs' & E)
    end.
    rewrite E. exists fs'. rewrite !fails_exhausted.
    by rewrite !foldl_count_other, !tally_app.
  - exists fs. unfold fails. cbn [faults take].
    by rewrite bool_decide_eq_true_2 by (by left).
  - rewrite find_run. destruct fs as [|[|] fs].
    + match goal with
      | |- context [rivals_loop _ _ rest ?ka ?dt] =>
          destruct (IH ka dt []) as (fs' & E)
      end.
      rewrite E. exists fs'. rewrite fails_skip, !fails_exhausted.
      by rewrite !foldl_count_other, !tally_app.
    + exists fs. unfold fails. cbn [faults take].
      by rewrite bool_decide_eq_true_2 by (right; by left).
    + match goal with
      | |- context [rivals_loop _ _ rest ?ka ?dt] =>
          destruct (IH ka dt fs) as (fs' & E)
      end.
      rewrite E. exists fs'. rewrite !fails_skip. cbn [kill_events].
      by rewrite !foldl_count_other, !tally_app.
Qed.

Lemma counted_names_foreign (player_characters : list string)
  (names : list (option string)) (n : string) :
  n ∈ counted_names player_characters names ->
  (n ∉ player_characters) /\ n <> "".
Proof.
  unfold counted_names. rewrite list_elem_of_omap.
  intros ([m|] & _ & Hsome); [|done].
  destruct (String.eqb_spec m ""); cbn [negb andb] in Hsome; [done|].
  case_bool_decide; [|done]. by injection Hsome as ->.
Qed.

Lemma opponents_foreign (role : Role) (guild_id : Z)
  (player_characters characters : list string) (events : list KillEvent)
  (n : string) :
  n ∈ opponents role guild_id player_characters characters events ->
  (n ∉ player_characters) /\ n <> "".
Proof.
  unfold opponents. rewrite list_elem_of_In, in_flat_map.
  intros (character & _ & Hn). apply list_elem_of_In in Hn.
  by apply counted_names_foreign in Hn.
Qed.

Lemma counted_weapons_no_suicide (guild_id : Z) (characters : list string)
  (events : list KillEvent) (weapon : string) :
  weapon ∈ counted_weapons guild_id characters events ->
  weapon ∉ suicide_weapons.
Proof.
  unfold counted_weapons. rewrite list_elem_of_In, in_flat_map.
  intros (character & _ & Hw). apply filter_In in Hw as [_ Hw].
  by apply bool_decide_eq_true in Hw.
Qed.

End StatsLoops.

Section StatsResults.

Import Stats.

Lemma set_most_run (who how_many : string) (l : list string) (s : Env) :
  match l with
  | [] => set_most who how_many (tally l []) s = (Ret tt, s)
  | _ =>
      exists most before after,
        set_most who how_many (tally l []) s
        = (Ret tt,
           set_combined_stats
             (fun cs => <[how_many := VInt (occurrences most l)]>
                          (<[who := VStr most]> cs)) s)
        /\ l = before ++ most :: after
        /\ (most ∉ before)
        /\ (forall w, w ∈ before -> occurrences w l < occurrences most l)
        /\ (forall w, occurrences w l <= occurrences most l)
  end.
Proof.
  destruct l as [|x l]; [done|].
  set (l' := x :: l).
  destruct (most_of_tally l' ltac:(done))
    as (most & before & after & Hmax & Hitem & Hne & El & Hfirst & Hless
        & Hleq).
  exists most, before, after. split; [|done].
  unfold set_most. destruct (tally l' []) as [|kv d] eqn:Ht; [done|].
  unfold bind, modify. by rewrite Hmax, Hitem.
Qed.

(** X22.  With no failing lookup, [_calculate_weapon_stats] stores the tally
    of the counted weapons, and as favourite the weapon counted most
    often; of several such weapons, the one that was counted first.  A
    suicide weapon is neither counted nor the favourite. *)
Theorem favorite_weapon_most_used (guild_id : Z)
  (player_characters : list string) (s : Env) :
  fails (length player_characters) s = false ->
  let used := counted_weapons guild_id player_characters (kill_events s) in
  used <> [] ->
  exists favorite before after d s',
    _calculate_weapon_stats guild_id player_characters s = (Ret tt, s')
    /\ combined_stats s'
       = <["weapon_stats" := VCounts d]>
           (<["favorite_weapon" := VStr favorite]> (combined_stats s))
    /\ log s' = log s
    /\ NoDup (keys d)
    /\ (forall w, get w d
                  = if occurrences w used =? 0 then None
                    else Some (occurrences w used))
    /\ (forall w, w ∈ suicide_weapons -> get w d = None)
    /\ used = before ++ favorite :: after
    /\ (favorite ∉ before)
    /\ (forall w, w ∈ before -> occurrences w used < occurrences favorite used)
    /\ (forall w, occurrences w used <= occurrences favorite used).
Proof.
  intros Hup used Hused.
  destruct (most_of_tally used Hused)
    as (most & before & after & Hmax & _ & Hne & El & Hfirst & Hless & Hleq).
  destruct (weapon_loop_run guild_id player_characters [] s) as (fs' & Hloop).
  rewrite Hup in Hloop. fold used in Hloop.
  exists most, before, after, (tally used []).
  exists (set_combined_stats
            (fun cs => <["weapon_stats" := VCounts (tally used [])]>
                         (<["favorite_weapon" := VStr most]> cs))
            (set_faults fs' s)).
  split.
  { unfold _calculate_weapon_stats, try_except, bind. rewrite Hloop.
    destruct (tally used []) as [|kv d] eqn:Ht; [by destruct Hne|].
    rewrite Hmax. unfold modify. reflexivity. }
  split; [reflexivity|]. split; [reflexivity|].
  split; [apply nodup_keys_tally; constructor|].
  split; [intros w; by rewrite get_tally|].
  split; [|done].
  intros w Hw. rewrite get_tally. cbn [get].
  destruct (Z.eqb_spec (occurrences w used) 0) as [|Hpos]; [done|].
  exfalso.
  assert (w ∈ used) as Hin.
  { apply occurrences_pos. pose proof (occurrences_nonneg w used). lia. }
  by apply counted_weapons_no_suicide in Hin.
Qed.

Lemma favorite_weapon_most_used_witness :
  let kill w := mkKill 1 (Some "Ann") (Some "Bob") w (Some false) in
  let s := mkEnv ∅ [kill (Some "M4"); kill (Some "AK"); kill (Some "Falling");
                    kill (Some "AK"); kill None; kill (Some "M4")]
             [] [] in
  let used := counted_weapons 1 ["Ann"] (kill_events s) in
  exists favorite before after d s',
    _calculate_weapon_stats 1 ["Ann"] s = (Ret tt, s')
    /\ combined_stats s'
       = <["weapon_stats" := VCounts d]>
           (<["favorite_weapon" := VStr favorite]> (combined_stats s))
    /\ log s' = log s
    /\ NoDup (keys d)
    /\ (forall w, get w d
                  = if occurrences w used =? 0 then None
                    else Some (occurrences w used))
    /\ (forall w, w ∈ suicide_weapons -> get w d = None)
    /\ used = before ++ favorite :: after
    /\ (favorite ∉ before)
    /\ (forall w, w ∈ before -> occurrences w used < occurrences favorite used)
    /\ (forall w, occurrences w used <= occurrences favorite used).
Proof.
  intros kill s.
  apply (favorite_weapon_most_used 1 ["Ann"] s).
  - vm_compute. reflexivity.
  - vm_compute. discriminate.
Defined.

(** X23.  With no failing lookup, [_calculate_rivals_nemesis] names as rival
    the opponent the player's characters killed most often, with that
    number of kills, and as nemesis the opponent who killed them most
    often.  Neither is one of the player's own characters, nor the empty
    name; without a counted opponent the key is not written. *)
Theorem rival_is_most_killed_opponent (guild_id : Z)
  (player_characters : list string) (s : Env) :
  fails (2 * length player_characters) s = false ->
  let victims := opponents Killer guild_id player_characters
                   player_characters (kill_events s) in
  let killers := opponents Victim guild_id player_characters
                   player_characters (kill_events s) in
  let named (who how_many : string) (names : list string)
        (before after : gmap string Value) :=
    match names with
    | [] => after !! who = before !! who
            /\ after !! how_many = before !! how_many
    | _ => exists most,
             after !! who = Some (VStr most)
             /\ after !! how_many = Some (VInt (occurrences most names))
             /\ 0 < occurrences most names
             /\ (forall w, occurrences w names <= occurrences most names)
             /\ (most ∉ player_characters)
             /\ most <> ""
    end in
  exists s',
    _calculate_rivals_nemesis guild_id player_characters s = (Ret tt, s')
    /\ log s' = log s
    /\ named "rival" "rival_kills" victims (combined_stats s)
         (combined_stats s')
    /\ named "nemesis" "nemesis_deaths" killers (combined_stats s)
         (combined_stats s').
Proof.
  intros Hup victims killers named.
  destruct (rivals_loop_run guild_id player_characters player_characters
              [] [] s) as (fs' & Hloop).
  rewrite Hup in Hloop. fold victims killers in Hloop.
  unfold _calculate_rivals_nemesis, try_except, bind. rewrite Hloop.
  pose proof (opponents_foreign Killer guild_id player_characters
                player_characters (kill_events s)) as Hvict.
  pose proof (opponents_foreign Victim guild_id player_characters
                player_characters (kill_events s)) as Hkill.
  fold victims in Hvict. fold killers in Hkill.
  subst named. clearbody victims killers.
  pose proof (set_most_run "rival" "rival_kills" victims (set_faults fs' s))
    as Hrival.
  assert (forall (names : list string) (most : string) before after,
            names = before ++ most :: after -> most ∈ names) as Hmem.
  { intros names most before after ->.
    rewrite elem_of_app, elem_of_cons. auto. }
  destruct victims as [|v victims'] eqn:Ev.
  - rewrite Hrival.
    pose proof (set_most_run "nemesis" "nemesis_deaths" killers
                  (set_faults fs' s)) as Hnem.
    destruct killers as [|k killers'] eqn:Ek.
    + rewrite Hnem. eexists. split; [reflexivity|]. by cbn.
    + destruct Hnem as (most & before & after & Hrun & El & _ & _ & Hleq).
      rewrite Hrun. eexists. split; [reflexivity|].
      split; [reflexivity|]. cbn [combined_stats set_combined_stats].
      split; [by rewrite !lookup_insert_ne|].
      exists most. rewrite lookup_insert_ne, !lookup_insert_eq by done.
      pose proof (Hmem _ _ _ _ El) as Hin.
      destruct (Hkill most Hin) as [Hown Hempty].
      apply occurrences_pos in Hin. done.
  - destruct Hrival as (rival & before & after & Hrun & El & _ & _ & Hleq).
    rewrite Hrun.
    pose proof (Hmem _ _ _ _ El) as Hin.
    destruct (Hvict rival Hin) as [Hown Hempty].
    apply occurrences_pos in Hin.
    match goal with
    | |- context [set_most _ _ _ ?s1] =>
        pose proof (set_most_run "nemesis" "nemesis_deaths" killers s1)
          as Hnem
    end.
    destruct killers as [|k killers'] eqn:Ek.
    + rewrite Hnem. eexists. split; [reflexivity|].
      split; [reflexivity|]. cbn [combined_stats set_combined_stats].
      split; [|by rewrite !lookup_insert_ne].
      exists rival. by rewrite lookup_insert_ne, !lookup_insert_eq.
    + destruct Hnem as (most & before' & after' & Hrun' & El' & _ & _ & Hleq').
      rewrite Hrun'. eexists. split; [reflexivity|].
      split; [reflexivity|]. cbn [combined_stats set_combined_stats].
      pose proof (Hmem _ _ _ _ El') as Hin'.
      destruct (Hkill most Hin') as [Hown' Hempty'].
      apply occurrences_pos in Hin'.
      split.
      * exists rival.
        rewrite !(lookup_insert_ne _ "nemesis_deaths") by done.
        rewrite !(lookup_insert_ne _ "nemesis") by done.
        by rewrite lookup_insert_ne, !lookup_insert_eq.
      * exists most. by rewrite lookup_insert_ne, !lookup_insert_eq.
Qed.

Lemma rival_is_most_killed_opponent_witness :
  let kill a b := mkKill 1 (Some a) (Some b) (Some "AK") (Some false) in
  let s := mkEnv ∅ [kill "Ann" "Cy"; kill "Ann" "Bob"; kill "Ann" "Alt";
                    kill "Bob" "Ann"; kill "Alt" "Bob"; kill "Cy" "Alt";
                    kill "Cy" "Ann"]
             [] [] in
  exists s',
    _calculate_rivals_nemesis 1 ["Ann"; "Alt"] s = (Ret tt, s')
    /\ combined_stats s' !! "rival" = Some (VStr "Bob")
    /\ combined_stats s' !! "rival_kills" = Some (VInt 2)
    /\ combined_stats s' !! "nemesis" = Some (VStr "Cy")
    /\ combined_stats s' !! "nemesis_deaths" = Some (VInt 2).
Proof.
  intros kill s.
  destruct (rival_is_most_killed_opponent 1 ["Ann"; "Alt"] s)
    as (s' & Hrun & _ & _ & _); [vm_compute; reflexivity|].
  exists s'. split; [exact Hrun|].
  vm_compute in Hrun. injection Hrun as <-.
  vm_compute. repeat split.
Defined.

(** X24.  Whatever the store does, neither function raises or touches the
    collection, and each writes its own keys only.  When one of the
    lookups fails, the error is logged and [combined_stats] is left as
    it was, also when the lookups for earlier characters had
    succeeded. *)
Theorem stats_lookups_fail_closed (guild_id : Z)
  (player_characters : list string) (s : Env) :
  let contained (run : res unit * Env) (n : nat) (line : StatsLog)
        (own : list string) :=
    fst run = Ret tt
    /\ kill_events (snd run) = kill_events s
    /\ (forall key, key ∉ own ->
                    combined_stats (snd run) !! key = combined_stats s !! key)
    /\ if fails n s
       then combined_stats (snd run) = combined_stats s
            /\ log (snd run) = log s ++ [line]
       else log (snd run) = log s in
  contained (_calculate_weapon_stats guild_id player_characters s)
    (length player_characters) (FailedWeaponStats StoreError)
    ["favorite_weapon"; "weapon_stats"]
  /\ contained (_calculate_rivals_nemesis guild_id player_characters s)
       (2 * length player_characters)%nat (FailedRivalsNemesis StoreError)
       ["rival"; "rival_kills"; "nemesis"; "nemesis_deaths"].
Proof.
  cbv zeta. split.
  - destruct (weapon_loop_run guild_id player_characters [] s)
      as (fs' & Hloop).
    unfold _calculate_weapon_stats, try_except, bind. rewrite Hloop.
    destruct (fails (length player_characters) s); [by cbn|].
    destruct (tally _ []) as [|kv d]; [by cbn|].
    cbn. split; [done|]. split; [done|]. split; [|done].
    intros key Hkey. rewrite !elem_of_cons in Hkey.
    rewrite !lookup_insert_ne; [done|..]; intros E; apply Hkey;
          rewrite <- E; auto 10.
  - destruct (rivals_loop_run guild_id player_characters player_characters
                [] [] s) as (fs' & Hloop).
    unfold _calculate_rivals_nemesis, try_except, bind. rewrite Hloop.
    destruct (fails (2 * length player_characters) s); [by cbn|].
    match goal with
    | |- context [set_most "rival" "rival_kills" (tally ?l []) ?s1] =>
        pose proof (set_most_run "rival" "rival_kills" l s1) as Hrival;
        destruct l as [|v l']
    end.
    + rewrite Hrival.
      match goal with
      | |- context [set_most "nemesis" "nemesis_deaths" (tally ?l []) ?s1] =>
          pose proof (set_most_run "nemesis" "nemesis_deaths" l s1) as Hnem;
          destruct l as [|k l']
      end.
      * rewrite Hnem. by cbn.
      * destruct Hnem as (most & ? & ? & Hrun & _). rewrite Hrun.
        cbn. split; [done|]. split; [done|]. split; [|done].
        intros key Hkey. rewrite !elem_of_cons in Hkey.
        rewrite !lookup_insert_ne; [done|..]; intros E; apply Hkey;
          rewrite <- E; auto 10.
    + destruct Hrival as (rival & ? & ? & Hrun & _). rewrite Hrun.
      match goal with
      | |- context [set_most "nemesis" "nemesis_deaths" (tally ?l []) ?s1] =>
          pose proof (set_most_run "nemesis" "nemesis_deaths" l s1) as Hnem;
          destruct l as [|k l'']
      end.
      * rewrite Hnem. cbn. split; [done|]. split; [done|]. split; [|done].
        intros key Hkey. rewrite !elem_of_cons in Hkey.
        rewrite !lookup_insert_ne; [done|..]; intros E; apply Hkey;
          rewrite <- E; auto 10.
      * destruct Hnem as (most & ? & ? & Hrun' & _). rewrite Hrun'.
        cbn. split; [done|]. split; [done|]. split; [|done].
        intros key Hkey. rewrite !elem_of_cons in Hkey.
        rewrite !lookup_insert_ne; [done|..]; intros E; apply Hkey;
          rewrite <- E; auto 10.
Qed.

End StatsResults.

(** * Player linking *)

Section PlayerLinking.

Import Players.

Ltac prun :=
  cbv beta iota zeta delta
    [bind ret raise try_except modify gets find_one store_call insert_one
     update_one delete_one log_error set_players players faults log
     fst snd].


Ltac prun_in H :=
  cbv beta iota zeta delta
    [bind ret raise try_except modify gets find_one store_call insert_one
     update_one delete_one log_error set_players players faults log
     fst snd] in H.

(** X26.  What [get_linked_player] can return.  It raises only when its
    first lookup fails, and then leaves the collection alone; a failed
    repair is logged and swallowed.  It returns [None] only when there
    is no document or the document has no characters.  A document that
    is returned has the stored characters, a primary character (the
    stored one, else the first character) and a linking date (the
    stored one, else now). *)
Theorem get_linked_player_outcomes (guild_id discord_id now : Z) (db : Db) :
  match get_linked_player guild_id discord_id now db with
  | (Raise e, db') =>
      e = StoreError /\ hd false (faults db) = true
      /\ players db' = players db
  | (Ret None, _) =>
      hd false (faults db) = false
      /\ match players db !! (guild_id, discord_id) with
         | None => True
         | Some old => characters_of old = []
         end
  | (Ret (Some doc), _) =>
      hd false (faults db) = false
      /\ exists old first rest,
           players db !! (guild_id, discord_id) = Some old
           /\ linked_characters old = Some (first :: rest)
           /\ linked_characters doc = Some (first :: rest)
           /\ primary_character doc
              = Some (default first (primary_character old))
           /\ linked_at doc = Some (default now (linked_at old))
  end.
Proof.
  destruct db as [pl fs lg]. unfold get_linked_player.
  destruct fs as [|[|] fs]; [|by prun|];
    (prun;
     destruct (pl !! (guild_id, discord_id)) as [old|] eqn:Hdoc; [|done];
     destruct old as [[[|first rest]|] [p|] [t|]];
     cbn [linked_characters primary_character linked_at];
     try (destruct fs as [|[|] fs]; prun; rewrite ?Hdoc; by cbn);
     try (destruct fs as [|[|] [|[|] fs]]; prun; rewrite ?Hdoc;
          prun; rewrite ?lookup_insert_eq; prun;
          (split; [done|]); eexists _, first, rest;
          (split; [reflexivity|]); by cbn);
     try ((split; [done|]); eexists _, first, rest;
          (split; [reflexivity|]); by cbn);
     try (by cbn)).
Qed.

Lemma to_millis_idem (t : Z) : to_millis (to_millis t) = to_millis t.
Proof.
  unfold to_millis. f_equal. rewrite Z.mul_comm. by apply Z.div_mul.
Qed.

Lemma millis_kept_lookup (db : Db) (key : Z * Z) (doc : PlayerDoc) :
  millis_kept db -> players db !! key = Some doc -> as_stored doc = doc.
Proof. intros Hkept Hdoc. exact (Hkept key doc Hdoc). Qed.

Lemma millis_kept_insert (pl : gmap (Z * Z) PlayerDoc) (fs : list bool)
  (lg lg' : list PlayersLog) (key : Z * Z) (doc : PlayerDoc) :
  millis_kept (mkDb pl fs lg) -> as_stored doc = doc ->
  millis_kept (mkDb (<[key := doc]> pl) fs lg').
Proof. intros Hkept Hdoc. by apply map_Forall_insert_2. Qed.

(** X27.  With a working store, what [get_linked_player] returns is what
    the collection holds afterwards, at the precision of the store: a
    document without characters is deleted, a missing primary character
    is written back, and a missing linking date is written back rounded
    down to the millisecond.  A second lookup returns the document that
    is stored and changes nothing; no other player is touched. *)
Theorem get_linked_player_repairs_once (guild_id discord_id now : Z)
  (db : Db) :
  faults db = [] ->
  millis_kept db ->
  exists r db',
    get_linked_player guild_id discord_id now db = (Ret r, db')
    /\ players db' !! (guild_id, discord_id) = as_stored <$> r
    /\ (forall now', get_linked_player guild_id discord_id now' db'
                     = (Ret (as_stored <$> r), db'))
    /\ millis_kept db'
    /\ (forall key, key <> (guild_id, discord_id) ->
                    players db' !! key = players db !! key).
Proof.
  intros Hup Hkept. destruct db as [pl fs lg]. cbn in Hup. subst fs.
  unfold get_linked_player. prun.
  destruct (pl !! (guild_id, discord_id)) as [old|] eqn:Hdoc.
  2:{ exists None. eexists. split; [reflexivity|]. cbn [players fmap].
      split; [exact Hdoc|]. split; [|done].
      intros now'. prun. by rewrite Hdoc. }
  pose proof (millis_kept_lookup _ _ _ Hkept Hdoc) as Hold.
  destruct old as [[[|first rest]|] [p|] [t|]];
    cbn [linked_characters primary_character linked_at];
    prun; rewrite ?Hdoc; prun; rewrite ?lookup_insert_eq; prun;
    eexists; eexists; (split; [reflexivity|]); cbn [players];
    rewrite ?lookup_insert_eq, ?lookup_delete_eq, ?Hdoc;
    (split;
     [ first [ reflexivity
             | cbn; f_equal; exact (eq_sym Hold)
             | cbn; f_equal; unfold as_stored, set_linked_at,
                 set_primary_character; cbn;
               injection Hold as Ht; by rewrite ?Ht ] |]);
    (split;
     [ intros now'; prun;
       rewrite ?lookup_insert_eq, ?lookup_delete_eq, ?Hdoc;
       first [ reflexivity
             | cbn; do 2 f_equal; exact (eq_sym Hold)
             | cbn; do 2 f_equal; unfold as_stored, set_linked_at,
                 set_primary_character; cbn;
               injection Hold as Ht; by rewrite ?Ht ] |]);
    (split;
     [ first [ exact Hkept
             | by apply map_Forall_delete
             | repeat (apply map_Forall_insert_2;
                       [ unfold as_stored, set_linked_at,
                           set_primary_character; cbn;
                         try (injection Hold as Ht);
                         by rewrite ?to_millis_idem, ?Ht |]);
               exact Hkept ]
     | intros key Hkey;
       by rewrite ?lookup_insert_ne, ?lookup_delete_ne ]).
Qed.

Lemma get_linked_player_repairs_once_witness :
  let db := mkDb {[ (1, 2) := mkPlayer (Some ["Ann"; "Alt"]) None None ]}
              [] [] in
  exists r db',
    get_linked_player 1 2 1234567 db = (Ret r, db')
    /\ players db' !! (1, 2) = as_stored <$> r
    /\ (forall now', get_linked_player 1 2 now' db'
                     = (Ret (as_stored <$> r), db'))
    /\ millis_kept db'
    /\ (forall key, key <> (1, 2) -> players db' !! key = players db !! key).
Proof.
  intros db. apply (get_linked_player_repairs_once 1 2 1234567 db).
  - reflexivity.
  - by apply map_Forall_singleton.
Defined.

(** Once a character is linked, linking it again changes nothing in
    the collection, whatever the store does. *)
Lemma link_player_linked (guild_id discord_id : Z) (character_name : string)
  (now : Z) (db : Db) (doc : PlayerDoc) :
  players db !! (guild_id, discord_id) = Some doc ->
  character_name ∈ characters_of doc ->
  players (snd (link_player guild_id discord_id character_name now db))
  = players db.
Proof.
  intros Hdoc Hin. destruct db as [pl fs lg]. cbn in Hdoc.
  unfold link_player, characters_of in *.
  destruct fs as [|[|] fs]; prun; rewrite ?Hdoc;
    rewrite ?bool_decide_eq_false_2 by (by intros ?); done.
Qed.

(** X28.  Linking is idempotent: after a link that succeeded, linking the
    same character again leaves the collection as it is. *)
Theorem link_player_idempotent (guild_id discord_id : Z)
  (character_name : string) (now now' : Z) (db db1 : Db) :
  link_player guild_id discord_id character_name now db = (Ret true, db1) ->
  players (snd (link_player guild_id discord_id character_name now' db1))
  = players db1.
Proof.
  intros Hrun.
  assert (exists doc, players db1 !! (guild_id, discord_id) = Some doc
                      /\ character_name ∈ characters_of doc)
    as (doc & Hdoc & Hin).
  { destruct db as [pl fs lg]. unfold link_player in Hrun.
    destruct fs as [|[|] [|[|] fs]]; prun_in Hrun; try done;
      (destruct (pl !! (guild_id, discord_id)) as [old|] eqn:Hold;
       [ case_bool_decide as Hnew;
         [ prun_in Hrun; rewrite ?Hold in Hrun;
           try done; injection Hrun as <-; cbn [players];
           rewrite lookup_insert_eq; eexists; (split; [reflexivity|]);
           unfold characters_of, add_to_set; cbn;
           rewrite bool_decide_eq_false_2 by exact Hnew;
           rewrite elem_of_app, list_elem_of_singleton; auto
         | prun_in Hrun; injection Hrun as <-; by exists old ]
       | prun_in Hrun; rewrite ?Hold in Hrun;
         prun_in Hrun; try done; injection Hrun as <-; cbn [players];
         rewrite lookup_insert_eq; eexists; (split; [reflexivity|]);
         unfold characters_of; cbn; by apply list_elem_of_singleton ]). }
  by apply (link_player_linked _ _ _ _ _ doc).
Qed.

Lemma link_player_idempotent_witness :
  let db := mkDb {[ (1, 2) := mkPlayer (Some ["Ann"]) (Some "Ann")
                                (Some 5) ]} [] [] in
  let db1 := mkDb {[ (1, 2) := mkPlayer (Some ["Ann"; "Alt"]) (Some "Ann")
                                 (Some 5) ]} [] [] in
  players (snd (link_player 1 2 "Alt" 9 db1)) = players db1.
Proof.
  intros db db1.
  apply (link_player_idempotent 1 2 "Alt" 7 9 db db1).
  vm_compute. reflexivity.
Defined.

Lemma link_player_working (guild_id discord_id : Z)
  (character_name : string) (now : Z) (db : Db) :
  faults db = [] ->
  millis_kept db ->
  exists db1,
    link_player guild_id discord_id character_name now db = (Ret true, db1)
    /\ faults db1 = []
    /\ millis_kept db1
    /\ players db1 !! (guild_id, discord_id)
       = Some match players db !! (guild_id, discord_id) with
              | None => mkPlayer (Some [character_name])
                          (Some character_name) (Some (to_millis now))
              | Some old =>
                  if bool_decide (character_name ∈ characters_of old)
                  then old else add_to_set character_name old
              end.
Proof.
  intros Hup Hkept. destruct db as [pl fs lg]. cbn in Hup. subst fs.
  unfold link_player, characters_of. cbn [players]. prun.
  destruct (pl !! (guild_id, discord_id)) as [old|] eqn:Hdoc.
  - pose proof (millis_kept_lookup _ _ _ Hkept Hdoc) as Hold.
    case_bool_decide as Hnew.
    + prun. rewrite Hdoc. eexists. split; [reflexivity|].
      split; [reflexivity|]. split.
      * apply (millis_kept_insert _ _ lg); [exact Hkept|].
        destruct old as [chars p t]. unfold as_stored, add_to_set in *.
        cbn [linked_characters primary_character linked_at] in *.
        injection Hold as Ht. by rewrite Ht.
      * cbn [players]. rewrite lookup_insert_eq.
        by rewrite bool_decide_eq_false_2.
    + prun. eexists. split; [reflexivity|]. split; [reflexivity|].
      split; [exact Hkept|].
      cbn [players]. by rewrite bool_decide_eq_true_2.
  - prun. rewrite Hdoc. prun. eexists. split; [reflexivity|].
    split; [reflexivity|]. split.
    + apply (millis_kept_insert _ _ lg); [exact Hkept|].
      unfold as_stored. cbn. by rewrite to_millis_idem.
    + cbn [players]. by rewrite lookup_insert_eq.
Qed.

Lemma get_linked_player_found (guild_id discord_id now : Z) (db : Db)
  (doc : PlayerDoc) (first : string) (rest : list string) :
  faults db = [] ->
  players db !! (guild_id, discord_id) = Some doc ->
  as_stored doc = doc ->
  linked_characters doc = Some (first :: rest) ->
  let doc' := mkPlayer (Some (first :: rest))
                (Some (default first (primary_character doc)))
                (Some (default now (linked_at doc))) in
  exists db2,
    get_linked_player guild_id discord_id now db = (Ret (Some doc'), db2)
    /\ players db2 !! (guild_id, discord_id) = Some (as_stored doc').
Proof.
  intros Hup Hdoc Hold Hchars. destruct db as [pl fs lg]. cbn in Hup, Hdoc.
  subst fs. destruct doc as [chars p t]. cbn in Hchars. subst chars.
  unfold get_linked_player.
  destruct p as [p|], t as [t|]; prun; rewrite ?Hdoc; prun;
    rewrite ?Hdoc; prun; rewrite ?lookup_insert_eq; prun;
    eexists; (split; [reflexivity|]); cbn [players];
    do 3 (rewrite ?Hdoc, ?lookup_insert_eq; cbv beta iota);
    unfold as_stored, set_linked_at, set_primary_character in *;
    cbn [linked_characters primary_character linked_at fmap option_fmap
         option_map default from_option id] in *;
    try (injection Hold as Ht; rewrite Ht); reflexivity.
Qed.

(** X29.  The round trip, with a working store: after [link_player] the
    lookup returns a document that lists the character and has a
    primary character and a linking date; the collection then holds
    that document at the precision of the store.  A primary character
    that was stored before is still the primary one, and for a new
    player it is the character just linked. *)
Theorem link_then_get_linked_player (guild_id discord_id : Z)
  (character_name : string) (now now' : Z) (db : Db) :
  faults db = [] ->
  millis_kept db ->
  exists db1 doc db2,
    link_player guild_id discord_id character_name now db = (Ret true, db1)
    /\ get_linked_player guild_id discord_id now' db1 = (Ret (Some doc), db2)
    /\ players db2 !! (guild_id, discord_id) = Some (as_stored doc)
    /\ character_name ∈ characters_of doc
    /\ is_Some (primary_character doc)
    /\ is_Some (linked_at doc)
    /\ match players db !! (guild_id, discord_id) with
       | None => primary_character doc = Some character_name
       | Some old =>
           forall p, primary_character old = Some p ->
                     primary_character doc = Some p
       end.
Proof.
  intros Hup Hkept.
  destruct (link_player_working guild_id discord_id character_name now db
              Hup Hkept) as (db1 & Hlink & Hup1 & Hkept1 & Hdoc1).
  set (doc1 := match players db !! (guild_id, discord_id) with
               | None => mkPlayer (Some [character_name])
                           (Some character_name) (Some (to_millis now))
               | Some old =>
                   if bool_decide (character_name ∈ characters_of old)
                   then old else add_to_set character_name old
               end) in Hdoc1.
  assert (character_name ∈ characters_of doc1) as Hin.
  { subst doc1. destruct (players db !! _) as [old|].
    - case_bool_decide as Hold; [done|].
      unfold characters_of, add_to_set. cbn.
      rewrite bool_decide_eq_false_2 by exact Hold.
      rewrite elem_of_app, list_elem_of_singleton. auto.
    - unfold characters_of. cbn. by apply list_elem_of_singleton. }
  assert (exists first rest, linked_characters doc1 = Some (first :: rest))
    as (first & rest & Hchars).
  { unfold characters_of in Hin.
    destruct (linked_characters doc1) as [[|first rest]|];
      [by apply elem_of_nil in Hin | by eexists _, _
      | by apply elem_of_nil in Hin]. }
  destruct (get_linked_player_found guild_id discord_id now' db1 doc1
              first rest Hup1 Hdoc1
              (millis_kept_lookup _ _ _ Hkept1 Hdoc1) Hchars)
    as (db2 & Hget & Hdoc2).
  eexists db1, _, db2. split; [exact Hlink|]. split; [exact Hget|].
  split; [exact Hdoc2|].
  split.
  { unfold characters_of in *. cbn. by rewrite Hchars in Hin. }
  split; [by eexists|]. split; [by eexists|].
  cbn [primary_character]. subst doc1.
  destruct (players db !! _) as [old|]; [|done].
  intros p Hp. case_bool_decide; [by rewrite Hp|].
  unfold add_to_set. cbn [primary_character]. by rewrite Hp.
Qed.

Lemma link_then_get_linked_player_witness :
  let db := mkDb {[ (1, 2) := mkPlayer (Some ["Ann"]) None None ]} [] [] in
  exists db1 doc db2,
    link_player 1 2 "Alt" 7654321 db = (Ret true, db1)
    /\ get_linked_player 1 2 9876543 db1 = (Ret (Some doc), db2)
    /\ players db2 !! (1, 2) = Some (as_stored doc)
    /\ "Alt" ∈ characters_of doc
    /\ is_Some (primary_character doc)
    /\ is_Some (linked_at doc)
    /\ match players db !! (1, 2) with
       | None => primary_character doc = Some "Alt"
       | Some old =>
           forall p, primary_character old = Some p ->
                     primary_character doc = Some p
       end.
Proof.
  intros db.
  apply (link_then_get_linked_player 1 2 "Alt" 7654321 9876543 db).
  - reflexivity.
  - by apply map_Forall_singleton.
Defined.

End PlayerLinking.
